(** * Coordinate collector: a shallow embedding of [01_coordinate_collector.py]

    The development follows the source file top to bottom:
    - [Text]: Python [str] values as sequences of Unicode code points, with
      the string methods the collector calls ([split], [strip], [lower],
      [in]);
    - [PyFloat]: Python [float] as IEEE 754 binary64, on the executable
      specification of the standard library ([SpecFloat]), with the
      conversions the collector uses ([float(str)], [int / int],
      [int + float], [repr] and the [.4f] format);
    - [Regex]: the fragment of [re.match] the two DMS patterns need;
    - [Json]: the values [json.load] returns and [json.dump] accepts;
    - [Collector]: the class [CoordinateCollector], method by method, in a
      state-and-exception monad over the process state (the object's
      [coordinates] attribute, the coordinates file, the console);
    - [Session]: [show_summary] and the command loop of
      [interactive_collector], over the collector and its console;
    - [Capture]: the class [MassImageCapture] and [main] of
      [02_mass_capture.py], over the same file and the world outside (the
      map service, the image directories). *)

From Stdlib Require Import String Ascii ZArith NArith Bool Lia List.
From Stdlib Require Import Floats.SpecFloat.
Import ListNotations.

Set Implicit Arguments.
Set Warnings "-register-all".

(** Exceptions the modelled code can raise.  [JSONDecodeError] is a subclass
    of [ValueError] in Python; the only handler that tells exception classes
    apart is the one of [parse_coordinate_input], see [is_ValueError]. *)
Inductive exn :=
| KeyError | TypeError | AttributeError | IndexError | ValueError
| OverflowError | ZeroDivisionError | EOFError | OSError
| JSONDecodeError | UnicodeEncodeError.

Definition is_ValueError (e : exn) : bool :=
  match e with
  | ValueError | JSONDecodeError | UnicodeEncodeError => true
  | _ => false
  end.

(** Pure computations that may raise. *)
Inductive result (A : Type) :=
| Ok (a : A)
| Err (e : exn).
Arguments Ok {A} a.
Arguments Err {A} e.

Definition rbind {A B} (r : result A) (k : A -> result B) : result B :=
  match r with
  | Ok a => k a
  | Err e => Err e
  end.

Declare Scope result_scope.
Delimit Scope result_scope with result.
Notation "'let?' x ':=' r 'in' k" := (rbind r (fun x => k))
  (at level 10, x pattern, r at level 100, k at level 200) : result_scope.

(* ===================================================================== *)
(** * Python strings *)
(* ===================================================================== *)

Module Text.

(** A Python [str] is a sequence of Unicode code points. *)
Definition char := N.
Definition str := list char.

(** ASCII literals of the source. *)
Definition u (s : string) : str := map N_of_ascii (list_ascii_of_string s).

Definition deg : char := 176%N.     (* U+00B0, the degree sign *)
Definition apos : char := 39%N.     (* ' *)
Definition dquote : char := 34%N.   (* the double quote *)
Definition comma : char := 44%N.
Definition space : char := 32%N.

Fixpoint str_eqb (a b : str) : bool :=
  match a, b with
  | [], [] => true
  | x :: a', y :: b' => N.eqb x y && str_eqb a' b'
  | _, _ => false
  end.

(** [x in l] for a list of strings. *)
Definition str_in (x : str) (l : list str) : bool := existsb (str_eqb x) l.

(** [c in s] for a one-character string [c]. *)
Definition char_in (c : char) (s : str) : bool := existsb (N.eqb c) s.

(** Code points for which [str.isspace] holds (the set [str.split] and
    [str.strip] use). *)
Definition whitespace : list char :=
  [9; 10; 11; 12; 13; 28; 29; 30; 31; 32; 133; 160; 5760; 8192; 8193; 8194;
   8195; 8196; 8197; 8198; 8199; 8200; 8201; 8202; 8232; 8233; 8239; 8287;
   12288]%N.

Definition is_space (c : char) : bool := existsb (N.eqb c) whitespace.

(** Unicode decimal digits (general category Nd, Unicode 14): each entry is
    the code point of the digit zero of a run of ten consecutive digits. *)
Definition decimal_zeros : list char :=
  [48; 1632; 1776; 1984; 2406; 2534; 2662; 2790; 2918; 3046; 3174; 3302;
   3430; 3558; 3664; 3792; 3872; 4160; 4240; 6112; 6160; 6470; 6608; 6784;
   6800; 6992; 7088; 7232; 7248; 42528; 43216; 43264; 43472; 43504; 43600;
   44016; 65296; 66720; 68912; 69734; 69872; 69942; 70096; 70384; 70736;
   70864; 71248; 71360; 71472; 71904; 72016; 72784; 73040; 73120; 92768;
   92864; 93008; 120782; 120792; 120802; 120812; 120822; 123200; 123632;
   125264; 130032]%N.

(** [unicodedata.decimal]: the value of a decimal digit. *)
Definition digit_value (c : char) : option Z :=
  match find (fun z => N.leb z c && N.ltb c (z + 10)) decimal_zeros with
  | Some z => Some (Z.of_N (c - z))
  | None => None
  end.

(** The character class [\d] of a [str] pattern. *)
Definition is_digit (c : char) : bool :=
  match digit_value c with Some _ => true | None => false end.

(** [int(s)] on a string of decimal digits (what [\d+] captured).  [limit]
    is the interpreter's bound on the number of digits of an integer string
    ([sys.get_int_max_str_digits()], 4300 where the interpreter has one and
    it was not changed); 0 stands for no bound. *)
Definition int_of_digits (limit : nat) (ds : str) : result Z :=
  if negb (Nat.eqb limit 0) && Nat.ltb limit (List.length ds)
  then Err ValueError
  else
  fold_left
    (fun acc c =>
       match acc, digit_value c with
       | Ok n, Some d => Ok (10 * n + d)%Z
       | Ok _, None => Err ValueError
       | Err e, _ => Err e
       end)
    ds
    (match ds with [] => Err ValueError | _ => Ok 0%Z end).

(** [s.split()]: maximal runs of non-whitespace characters. *)
Fixpoint split (s : str) : list str :=
  match s with
  | [] => []
  | c :: s' =>
      if is_space c then split s'
      else
        match s' with
        | [] => [[c]]
        | c' :: _ =>
            if is_space c' then [c] :: split s'
            else
              match split s' with
              | w :: ws => (c :: w) :: ws
              | [] => [[c]]
              end
        end
  end.

(** [s.split(sep)] for a one-character separator: never empty. *)
Fixpoint split_on (sep : char) (s : str) : list str :=
  match s with
  | [] => [[]]
  | c :: s' =>
      if N.eqb c sep then [] :: split_on sep s'
      else
        match split_on sep s' with
        | w :: ws => (c :: w) :: ws
        | [] => [[c]]
        end
  end.

Fixpoint lstrip (s : str) : str :=
  match s with
  | c :: s' => if is_space c then lstrip s' else s
  | [] => []
  end.

(** [s.strip()]. *)
Definition strip (s : str) : str := rev (lstrip (rev (lstrip s))).

(** [str.lower], one code point at a time.  Letters A-Z, U+0130 (capital I
    with dot above, which lower-cases to two code points) and U+212A (the
    Kelvin sign) are the only code points whose lower-case form contains an
    ASCII character.  Every other cased letter lower-cases to non-ASCII
    letters and is left in place: the collector only compares the result
    with ASCII tokens, and a string with a non-ASCII code point differs from
    every one of them before and after that mapping. *)
Definition lower_char (c : char) : str :=
  if N.leb 65 c && N.leb c 90 then [c + 32]%N
  else if N.eqb c 304 then [105; 775]%N
  else if N.eqb c 8490 then [107]%N
  else [c].

Definition lower (s : str) : str := flat_map lower_char s.

(** [sep.join(parts)]. *)
Fixpoint join (sep : char) (parts : list str) : str :=
  match parts with
  | [] => []
  | [p] => p
  | p :: ps => p ++ sep :: join sep ps
  end.

(** Decimal rendering of a natural number, most significant digit first. *)
Fixpoint digits_of_pos_fuel (fuel : nat) (n : Z) (acc : str) : str :=
  match fuel with
  | O => acc
  | S fuel' =>
      let acc' := (Z.to_N (48 + n mod 10) :: acc)%Z in
      if (n <? 10)%Z then acc' else digits_of_pos_fuel fuel' (n / 10)%Z acc'
  end.

Definition decimal_of_Z (n : Z) : str :=
  digits_of_pos_fuel (S (Z.to_nat (Z.log2 n))) n [].

End Text.

(* ===================================================================== *)
(** * Python floats *)
(* ===================================================================== *)

Module PyFloat.
Import Text.
Local Open Scope Z_scope.

(** A Python [float] is an IEEE 754 binary64 number. *)
Definition float := spec_float.
Definition prec : Z := 53.
Definition emax : Z := 1024.

Definition fadd : float -> float -> float := SFadd prec emax.
Definition fdiv : float -> float -> float := SFdiv prec emax.
Definition fneg : float -> float := SFopp.

(** Identity of floats as values stored in a record (bit for bit, one NaN). *)
Definition float_same (x y : float) : bool :=
  match x, y with
  | S754_zero a, S754_zero b => Bool.eqb a b
  | S754_infinity a, S754_infinity b => Bool.eqb a b
  | S754_nan, S754_nan => true
  | S754_finite a m e, S754_finite b n f =>
      Bool.eqb a b && Pos.eqb m n && Z.eqb e f
  | _, _ => false
  end.

(** [float(n)] for an [int], as [int + float] performs it: the nearest
    double, ties to even; [OverflowError] beyond the finite range. *)
Definition float_of_int (z : Z) : result float :=
  match binary_normalize prec emax z 0 false with
  | S754_infinity _ => Err OverflowError
  | f => Ok f
  end.

(** [a / b] on two [int]s: the correctly rounded quotient. *)
Definition int_truediv (a b : Z) : result float :=
  if b =? 0 then Err ZeroDivisionError
  else
    let negate := xorb (a <? 0) (b <? 0) in
    if a =? 0 then Ok (S754_zero negate)
    else
      match fdiv (S754_finite (a <? 0) (Z.to_pos (Z.abs a)) 0)
                 (S754_finite (b <? 0) (Z.to_pos (Z.abs b)) 0) with
      | S754_infinity _ => Err OverflowError
      | f => Ok f
      end.

(** [n + x] with [n] an [int] and [x] a [float]. *)
Definition int_add_float (n : Z) (x : float) : result float :=
  (let? fn := float_of_int n in Ok (fadd fn x))%result.

(** The double nearest to [(-1)^sign * n * 10^e10] (ties to even), the
    value [float(str)] returns for a decimal numeral. *)
Definition decimal_to_float (sign : bool) (n : Z) (e10 : Z) : float :=
  if n <=? 0 then S754_zero sign
  else if 0 <=? e10 then
    binary_normalize prec emax (if sign then - (n * 10 ^ e10) else n * 10 ^ e10)
                     0 sign
  else
    fdiv (S754_finite sign (Z.to_pos n) 0)
         (S754_finite false (Z.to_pos (10 ^ (- e10))) 0).

(** ** [float(s)] on a string *)

Definition is_ascii_digit (c : char) : bool := N.leb 48 c && N.leb c 57.

(** Non-ASCII white space becomes a space, non-ASCII decimal digits become
    ASCII digits, and the string ends at a question mark put in place of the
    first other non-ASCII code point. *)
Fixpoint transform_decimal_and_space (s : str) : str :=
  match s with
  | [] => []
  | c :: s' =>
      if N.ltb c 127 then c :: transform_decimal_and_space s'
      else if is_space c then space :: transform_decimal_and_space s'
      else
        match digit_value c with
        | Some d => Z.to_N (48 + d) :: transform_decimal_and_space s'
        | None => [63%N]
        end
  end.

(** Underscores are accepted between two digits only, and are dropped. *)
Fixpoint strip_underscores (prev : char) (s : str) : option str :=
  match s with
  | [] => if N.eqb prev 95 then None else Some []
  | c :: s' =>
      if N.eqb c 95 then
        if is_ascii_digit prev then strip_underscores c s' else None
      else if N.eqb prev 95 && negb (is_ascii_digit c) then None
      else option_map (cons c) (strip_underscores c s')
  end.

Definition is_ascii_space (c : char) : bool :=
  N.eqb c 32 || (N.leb 9 c && N.leb c 13).

Fixpoint lstrip_ascii (s : str) : str :=
  match s with
  | c :: s' => if is_ascii_space c then lstrip_ascii s' else s
  | [] => []
  end.

Fixpoint span_digits (s : str) : str * str :=
  match s with
  | c :: s' =>
      if is_ascii_digit c then
        let (ds, r) := span_digits s' in (c :: ds, r)
      else ([], s)
  | [] => ([], [])
  end.

Definition ascii_digits_to_Z (ds : str) : Z :=
  fold_left (fun acc c => 10 * acc + (Z.of_N c - 48)) ds 0.

Definition take_sign (s : str) : bool * str :=
  match s with
  | 45%N :: r => (true, r)
  | 43%N :: r => (false, r)
  | _ => (false, s)
  end.

(** The numeral grammar of [float]: an optional sign, then [inf],
    [infinity] or [nan] in any case, or digits with an optional point and
    an optional exponent; the whole string must be consumed. *)
Definition parse_float_literal (s : str) : result float :=
  let (sign, s1) := take_sign s in
  let word := lower s1 in
  if str_eqb word (u "inf") || str_eqb word (u "infinity") then
    Ok (S754_infinity sign)
  else if str_eqb word (u "nan") then Ok S754_nan
  else
    let (ip, s2) := span_digits s1 in
    let (fp, s3) :=
      match s2 with
      | 46%N :: r => span_digits r
      | _ => ([], s2)
      end in
    match ip ++ fp with
    | [] => Err ValueError
    | mant =>
        let (ex, s4) :=
          match s3 with
          | c :: r =>
              if N.eqb c 101 || N.eqb c 69 then
                let (esign, r1) := take_sign r in
                let (ed, r2) := span_digits r1 in
                match ed with
                | [] => (0, s3)
                | _ => ((if esign then - ascii_digits_to_Z ed
                         else ascii_digits_to_Z ed), r2)
                end
              else (0, s3)
          | [] => (0, s3)
          end in
        match s4 with
        | [] => Ok (decimal_to_float sign (ascii_digits_to_Z mant)
                                     (ex - Z.of_nat (length fp)))
        | _ => Err ValueError
        end
    end.

(** [float(s)]. *)
Definition float_of_str (s : str) : result float :=
  let t := transform_decimal_and_space s in
  match (if char_in 95%N t then strip_underscores 0%N t else Some t) with
  | None => Err ValueError
  | Some t1 =>
      match lstrip_ascii t1 with
      | [] => Err ValueError
      | t2 => parse_float_literal (rev (lstrip_ascii (rev t2)))
      end
  end.

(** ** Formatting *)

Definition sign_str (s : bool) : str := if s then [45%N] else [].

(** Nearest integer to [a / b], ties to even ([b] positive). *)
Definition round_half_even (a b : Z) : Z :=
  let q := a / b in
  let r := a mod b in
  match 2 * r ?= b with
  | Lt => q
  | Gt => q + 1
  | Eq => if Z.even q then q else q + 1
  end.

(** The magnitude of a finite float as a fraction. *)
Definition magnitude (m : positive) (e : Z) : Z * Z :=
  if 0 <=? e then (Zpos m * 2 ^ e, 1) else (Zpos m, 2 ^ (- e)).

Definition zeros (n : nat) : str := repeat 48%N n.

Definition pad_left (n : nat) (ds : str) : str :=
  zeros (n - length ds) ++ ds.

(** [format(x, '.<p>f')] for [p > 0]: the exact value rounded to [p]
    decimals, ties to even. *)
Definition format_fixed (p : nat) (x : float) : str :=
  match x with
  | S754_nan => u "nan"
  | S754_infinity s => sign_str s ++ u "inf"
  | S754_zero s => sign_str s ++ u "0." ++ zeros p
  | S754_finite s m e =>
      let (num, den) := magnitude m e in
      let scaled := round_half_even (num * 10 ^ Z.of_nat p) den in
      sign_str s ++ decimal_of_Z (scaled / 10 ^ Z.of_nat p) ++ u "."
        ++ pad_left p (decimal_of_Z (scaled mod 10 ^ Z.of_nat p))
  end.

(** [10^k <= num / den]. *)
Definition pow10_le (k num den : Z) : bool :=
  if 0 <=? k then 10 ^ k * den <=? num else den <=? num * 10 ^ (- k).

Fixpoint find_decpt (fuel : nat) (k num den : Z) : Z :=
  match fuel with
  | O => k
  | S fuel' =>
      if pow10_le k num den then find_decpt fuel' (k + 1) num den else k
  end.

(** The [k] with [10^(k-1) <= num/den < 10^k]. *)
Definition decimal_point (num den : Z) : Z :=
  find_decpt 8 ((Z.log2 num - Z.log2 den - 1) * 1233 / 4096 - 2) num den.

(** The shortest decimal numeral that reads back as [x], and among those of
    that length the nearest to [x], the one with an even last digit when
    [x] is half way between two of them: [(c, scale)] stands for
    [c * 10^scale]. *)
Fixpoint shortest_digits (fuel : nat) (n : Z) (x : float) (num den k : Z)
  : Z * Z :=
  match fuel with
  | O => (0, 0)
  | S fuel' =>
      let scale := k - n in
      let (a, b) :=
        if 0 <=? scale then (num, den * 10 ^ scale)
        else (num * 10 ^ (- scale), den) in
      let lo := a / b in
      let r := a mod b in
      let ok_lo := float_same (decimal_to_float false lo scale) x in
      let ok_hi := float_same (decimal_to_float false (lo + 1) scale) x in
      if ok_lo && ok_hi then
        ((if 2 * r <? b then lo
          else if b <? 2 * r then lo + 1
          else if Z.even lo then lo else lo + 1), scale)
      else if ok_lo then (lo, scale)
      else if ok_hi then (lo + 1, scale)
      else shortest_digits fuel' (n + 1) x num den k
  end.

Fixpoint drop_trailing_zeros (fuel : nat) (c scale : Z) : Z * Z :=
  match fuel with
  | O => (c, scale)
  | S fuel' =>
      if (c mod 10 =? 0) && (0 <? c)
      then drop_trailing_zeros fuel' (c / 10) (scale + 1)
      else (c, scale)
  end.

(** [repr(x)], which is also what an f-string field without a format
    specification produces. *)
Definition float_repr (x : float) : str :=
  match x with
  | S754_nan => u "nan"
  | S754_infinity s => sign_str s ++ u "inf"
  | S754_zero s => sign_str s ++ u "0.0"
  | S754_finite s m e =>
      let (num, den) := magnitude m e in
      let k := decimal_point num den in
      let (c0, sc0) :=
        shortest_digits 17 1 (S754_finite false m e) num den k in
      let (c, sc) := drop_trailing_zeros 20 c0 sc0 in
      let ds := decimal_of_Z c in
      let decpt := Z.of_nat (length ds) + sc in
      sign_str s ++
      if (-4 <? decpt) && (decpt <=? 16) then
        if decpt <=? 0 then u "0." ++ zeros (Z.to_nat (- decpt)) ++ ds
        else if Z.of_nat (length ds) <=? decpt then
          ds ++ zeros (Z.to_nat (decpt - Z.of_nat (length ds))) ++ u ".0"
        else firstn (Z.to_nat decpt) ds ++ u "." ++ skipn (Z.to_nat decpt) ds
      else
        let ex := decpt - 1 in
        firstn 1 ds
          ++ (match skipn 1 ds with [] => [] | rest => u "." ++ rest end)
          ++ u "e" ++ (if ex <? 0 then u "-" else u "+")
          ++ pad_left 2 (decimal_of_Z (Z.abs ex))
  end.

End PyFloat.

(* ===================================================================== *)
(** * Regular expressions *)
(* ===================================================================== *)

Module Regex.
Import Text.

(** The constructs of the two DMS patterns: a captured [(\d+)], a literal
    character, and a captured character class such as [([NS])]. *)
Inductive atom :=
| Digits
| Lit (c : char)
| OneOf (cs : list char).

Definition pattern := list atom.

(** [(\d+)] followed by the continuation [k]: greedy, giving characters back
    one at a time when the continuation fails. *)
Fixpoint greedy_digits (k : str -> option (list str)) (taken s : str)
  : option (list str) :=
  match s with
  | x :: s' =>
      if is_digit x then
        match greedy_digits k (taken ++ [x]) s' with
        | Some g => Some g
        | None => option_map (cons (taken ++ [x])) (k s')
        end
      else None
  | [] => None
  end.

(** [re.match(p, s)]: a match anchored at the start of [s] only; the result
    lists the captured groups. *)
Fixpoint rmatch (p : pattern) (s : str) {struct p} : option (list str) :=
  match p with
  | [] => Some []
  | Lit c :: p' =>
      match s with
      | x :: s' => if N.eqb x c then rmatch p' s' else None
      | [] => None
      end
  | OneOf cs :: p' =>
      match s with
      | x :: s' =>
          if char_in x cs then option_map (cons [x]) (rmatch p' s') else None
      | [] => None
      end
  | Digits :: p' => greedy_digits (rmatch p') [] s
  end.

End Regex.

(* ===================================================================== *)
(** * JSON values *)
(* ===================================================================== *)

Module Json.
Import Text PyFloat.

(** The Python objects [json.load] builds and [json.dump] accepts.  A [dict]
    keeps its keys in insertion order, which is the order [json.dump] writes
    them in. *)
Inductive value :=
| VNone
| VBool (b : bool)
| VInt (z : Z)
| VFloat (x : float)
| VStr (s : str)
| VList (l : list value)
| VDict (d : list (str * value)).

Fixpoint dict_get (k : str) (d : list (str * value)) : option value :=
  match d with
  | [] => None
  | (k', v) :: d' => if str_eqb k k' then Some v else dict_get k d'
  end.

(** [d[k] = v]: replaces the value of an existing key where it stands, adds
    a new key at the end. *)
Fixpoint dict_set (k : str) (v : value) (d : list (str * value))
  : list (str * value) :=
  match d with
  | [] => [(k, v)]
  | (k', v') :: d' =>
      if str_eqb k k' then (k', v) :: d' else (k', v') :: dict_set k v d'
  end.

(** [obj[k]] with a string subscript. *)
Definition getitem (obj : value) (k : str) : result value :=
  match obj with
  | VDict d =>
      match dict_get k d with
      | Some v => Ok v
      | None => Err KeyError
      end
  | _ => Err TypeError
  end.

(** [obj[k] = v] with a string subscript. *)
Definition setitem (obj : value) (k : str) (v : value) : result value :=
  match obj with
  | VDict d => Ok (VDict (dict_set k v d))
  | _ => Err TypeError
  end.

(** [obj.append(v)]: only lists have the method. *)
Definition append (obj v : value) : result value :=
  match obj with
  | VList l => Ok (VList (l ++ [v]))
  | _ => Err AttributeError
  end.

(** [len(obj)]. *)
Definition len (obj : value) : result nat :=
  match obj with
  | VList l => Ok (List.length l)
  | VDict d => Ok (List.length d)
  | VStr s => Ok (List.length s)
  | _ => Err TypeError
  end.

(** A string can be written to a UTF-8 text file unless it holds a
    surrogate code point (which [json.load] can produce from an escape). *)
Definition str_encodable (s : str) : bool :=
  forallb (fun c => N.ltb c 55296 || N.ltb 57343 c) s.

Fixpoint encodable (v : value) : bool :=
  match v with
  | VStr s => str_encodable s
  | VList l => forallb encodable l
  | VDict d =>
      forallb (fun kv => str_encodable (fst kv) && encodable (snd kv)) d
  | _ => true
  end.

End Json.

(* ===================================================================== *)
(** * The collector *)
(* ===================================================================== *)

Module Collector.
Import Text PyFloat Regex Json.

(** ** The process state *)

(** What the coordinates file holds: text that [json.load] parses to the
    value [v], or text it rejects.  [json.dump] followed by [json.load] is
    the identity on [value] (the contract of the json module), so a file
    written by [json.dump] is described by the value that was dumped. *)
Inductive file_content :=
| Document (v : value)
| Garbage.

(** What happens when the file is opened for writing: it opens and takes
    the text, it cannot be opened, or it opens (and is truncated) and the
    write then fails. *)
Inductive write_mode := WriteOk | OpenFails | DumpFails.

(** A reading of the wall clock. *)
Record datetime := {
  year : Z; month : Z; day : Z; hour : Z; minute : Z; second : Z
}.

(** Lines printed on the console, one constructor per [print] call of the
    class (the wording and layout of the text are left out). *)
Inductive message :=
| Loaded (pools no_pools : nat)
| LoadError (e : exn)
| ConvertError (e : exn)
| DmsDetected
| Converted (lat lon : float)
| CoordinatesDetected (lat lon : float)
| PromptType
| PromptDescription
| BadFormat
| BadNumber
| ParseError (e : exn)
| PoolAdded (description : str) (lat lon : float)
| NoPoolAdded (description : str) (lat lon : float)
| InvalidType
| Saved
| TotalPools (n : nat)
| TotalNoPools (n : nat)
| SaveError (e : exn).

Record process := {
  coordinates : value;           (* self.coordinates *)
  file : option file_content;    (* the file at self.coordinates_file *)
  readable : bool;               (* open(..., 'r') succeeds *)
  writable : write_mode;         (* outcome of open(..., 'w') *)
  stdin : list str;              (* lines still to be read by input() *)
  stdout : list message;         (* lines printed so far, oldest first *)
  clock : nat -> datetime;       (* successive readings of datetime.now() *)
  ticks : nat;                   (* readings taken so far *)
  int_max_str_digits : nat       (* sys.get_int_max_str_digits() *)
}.

Definition with_coordinates (v : value) (p : process) : process :=
  {| coordinates := v; file := file p; readable := readable p;
     writable := writable p; stdin := stdin p; stdout := stdout p;
     clock := clock p; ticks := ticks p;
     int_max_str_digits := int_max_str_digits p |}.

Definition with_file (f : option file_content) (p : process) : process :=
  {| coordinates := coordinates p; file := f; readable := readable p;
     writable := writable p; stdin := stdin p; stdout := stdout p;
     clock := clock p; ticks := ticks p;
     int_max_str_digits := int_max_str_digits p |}.

Definition with_stdin (l : list str) (p : process) : process :=
  {| coordinates := coordinates p; file := file p; readable := readable p;
     writable := writable p; stdin := l; stdout := stdout p;
     clock := clock p; ticks := ticks p;
     int_max_str_digits := int_max_str_digits p |}.

Definition with_stdout (l : list message) (p : process) : process :=
  {| coordinates := coordinates p; file := file p; readable := readable p;
     writable := writable p; stdin := stdin p; stdout := l;
     clock := clock p; ticks := ticks p;
     int_max_str_digits := int_max_str_digits p |}.

Definition with_ticks (n : nat) (p : process) : process :=
  {| coordinates := coordinates p; file := file p; readable := readable p;
     writable := writable p; stdin := stdin p; stdout := stdout p;
     clock := clock p; ticks := n;
     int_max_str_digits := int_max_str_digits p |}.

(** ** Statements: state and exceptions

    A statement runs in a process state and either returns or raises; the
    state it has reached is kept in both cases, as in Python. *)
Definition M (A : Type) : Type := process -> result A * process.

Definition ret {A} (a : A) : M A := fun p => (Ok a, p).

Definition raise {A} (e : exn) : M A := fun p => (Err e, p).

Definition bind {A B} (m : M A) (k : A -> M B) : M B :=
  fun p =>
    match m p with
    | (Ok a, p') => k a p'
    | (Err e, p') => (Err e, p')
    end.

(** [try: body except Exception as e: handler(e)]. *)
Definition try_except {A} (body : M A) (handler : exn -> M A) : M A :=
  fun p =>
    match body p with
    | (Ok a, p') => (Ok a, p')
    | (Err e, p') => handler e p'
    end.

Definition lift {A} (r : result A) : M A := fun p => (r, p).

Declare Scope stmt_scope.
Delimit Scope stmt_scope with stmt.
Notation "x <- m ;; k" := (bind m (fun x => k))
  (at level 61, m at next level, right associativity) : stmt_scope.
Notation "m ;; k" := (bind m (fun _ => k))
  (at level 61, right associativity) : stmt_scope.
Local Open Scope stmt_scope.

Definition get_coordinates : M value := fun p => (Ok (coordinates p), p).

Definition int_limit : M nat := fun p => (Ok (int_max_str_digits p), p).

Definition set_coordinates (v : value) : M unit :=
  fun p => (Ok tt, with_coordinates v p).

Definition print (m : message) : M unit :=
  fun p => (Ok tt, with_stdout (stdout p ++ [m]) p).

(** [input(prompt)]: shows the prompt and reads one line. *)
Definition input (prompt : message) : M str :=
  fun p =>
    let p' := with_stdout (stdout p ++ [prompt]) p in
    match stdin p with
    | line :: rest => (Ok line, with_stdin rest p')
    | [] => (Err EOFError, p')
    end.

(** [datetime.now().strftime(...)] with the format year-month-day
    hour:minute:second. *)
Definition strftime (t : datetime) : str :=
  pad_left 4 (decimal_of_Z (year t)) ++ u "-"
    ++ pad_left 2 (decimal_of_Z (month t)) ++ u "-"
    ++ pad_left 2 (decimal_of_Z (day t)) ++ u " "
    ++ pad_left 2 (decimal_of_Z (hour t)) ++ u ":"
    ++ pad_left 2 (decimal_of_Z (minute t)) ++ u ":"
    ++ pad_left 2 (decimal_of_Z (second t)).

Definition datetime_now : M str :=
  fun p => (Ok (strftime (clock p (ticks p))), with_ticks (S (ticks p)) p).

(** [with open(self.coordinates_file, 'r') as f: json.load(f)]. *)
Definition read_json_file : M value :=
  fun p =>
    if readable p then
      match file p with
      | Some (Document v) => (Ok v, p)
      | Some Garbage => (Err JSONDecodeError, p)
      | None => (Err OSError, p)
      end
    else (Err OSError, p).

(** [with open(self.coordinates_file, 'w') as f: json.dump(v, f, ...)]:
    opening truncates the file; a string that cannot be encoded stops the
    dump part way. *)
Definition write_json_file (v : value) : M unit :=
  fun p =>
    match writable p with
    | OpenFails => (Err OSError, p)
    | DumpFails => (Err OSError, with_file (Some Garbage) p)
    | WriteOk =>
        if encodable v then (Ok tt, with_file (Some (Document v)) p)
        else (Err UnicodeEncodeError, with_file (Some Garbage) p)
    end.

(** ** [CoordinateCollector] *)

Definition k_pools : str := u "pools".
Definition k_no_pools : str := u "no_pools".
Definition k_metadata : str := u "metadata".
Definition k_total_pools : str := u "total_pools".
Definition k_total_no_pools : str := u "total_no_pools".
Definition k_last_updated : str := u "last_updated".

Definition initial_coordinates : value :=
  VDict [(k_pools, VList []);
         (k_no_pools, VList []);
         (k_metadata,
          VDict [(k_total_pools, VInt 0);
                 (k_total_no_pools, VInt 0);
                 (k_last_updated, VStr [])])].

(** [load_existing]: the assignment to [self.coordinates] comes before the
    line that prints the two lengths, inside the same [try]. *)
Definition load_existing : M unit :=
  fun p =>
    match file p with
    | Some _ =>
        try_except
          (v <- read_json_file;;
           set_coordinates v;;
           c <- get_coordinates;;
           pools <- lift (getitem c k_pools);;
           n <- lift (len pools);;
           c' <- get_coordinates;;
           no_pools <- lift (getitem c' k_no_pools);;
           m <- lift (len no_pools);;
           print (Loaded n m))
          (fun e => print (LoadError e)) p
    | None => (Ok tt, p)
    end.

(** [__init__]. *)
Definition CoordinateCollector : M unit :=
  set_coordinates initial_coordinates;;
  load_existing.

Definition letter_N : char := 78%N.
Definition letter_S : char := 83%N.
Definition letter_E : char := 69%N.
Definition letter_W : char := 87%N.

(** The two patterns of the source: digits, the degree sign, digits, an
    apostrophe, digits, a double quote, and a captured letter out of N, S
    for the latitude and out of E, W for the longitude. *)
Definition dms_pattern (hemispheres : list char) : pattern :=
  [Digits; Lit deg; Digits; Lit apos; Digits; Lit dquote; OneOf hemispheres].

(** [deg + (min / 60) + (sec / 3600)]. *)
Definition dms_sum (d m s : Z) : result float :=
  (let? a := int_truediv m 60 in
   let? b := int_add_float d a in
   let? c := int_truediv s 3600 in
   Ok (fadd b c))%result.

(** One of the two blocks of [convert_dms_to_decimal]; they differ in the
    hemisphere letters of the pattern and in the letter that negates. *)
Definition dms_part (limit : nat) (hemispheres : list char) (negative : char)
  (part : str) : result float :=
  match rmatch (dms_pattern hemispheres) part with
  | Some [g1; g2; g3; g4] =>
      (let? deg_ := int_of_digits limit g1 in
       let? min_ := int_of_digits limit g2 in
       let? sec_ := int_of_digits limit g3 in
       let? decimal := dms_sum deg_ min_ sec_ in
       Ok (if str_eqb g4 [negative] then fneg decimal else decimal))%result
  | _ => Err ValueError
  end.

(** [l[i]] on a list. *)
Definition index {A} (l : list A) (i : nat) : result A :=
  match nth_error l i with
  | Some x => Ok x
  | None => Err IndexError
  end.

Definition convert_dms_to_decimal (coord_string : str)
  : M (option (float * float)) :=
  try_except
    (limit <- int_limit;;
     let parts := split coord_string in
     lat_part <- lift (index parts 0);;
     lat_decimal <-
       lift (dms_part limit [letter_N; letter_S] letter_S lat_part);;
     lon_part <- lift (index parts 1);;
     lon_decimal <-
       lift (dms_part limit [letter_E; letter_W] letter_W lon_part);;
     ret (Some (lat_decimal, lon_decimal)))
    (fun e => print (ConvertError e);; ret None).

(** The default descriptions. *)
Definition coord_prefix : str := u "Coord_".
Definition underscore : str := u "_".

Definition default_description_4f (lat lon : float) : str :=
  coord_prefix ++ format_fixed 4 lat ++ underscore ++ format_fixed 4 lon.

Definition default_description_repr (lat lon : float) : str :=
  coord_prefix ++ float_repr lat ++ underscore ++ float_repr lon.

(** The two prompts shared by the DMS branch and the two-field branch. *)
Definition ask_type_and_description (lat lon : float)
  : M (option (float * float * str * str)) :=
  t <- input PromptType;;
  d <- input PromptDescription;;
  let coord_type := strip t in
  let description := strip d in
  let description :=
    match description with
    | [] => default_description_4f lat lon
    | _ => description
    end in
  ret (Some (lat, lon, coord_type, description)).

Definition dms_detected (user_input : str) : bool :=
  char_in deg user_input && char_in apos user_input
    && char_in dquote user_input.

Definition parse_coordinate_input (user_input : str)
  : M (option (float * float * str * str)) :=
  try_except
    (if dms_detected user_input then
       print DmsDetected;;
       coords <- convert_dms_to_decimal user_input;;
       match coords with
       | Some (lat, lon) =>
           print (Converted lat lon);;
           ask_type_and_description lat lon
       | None => ret None
       end
     else
       match split_on comma user_input with
       | p0 :: p1 :: p2 :: rest =>
           lat <- lift (float_of_str (strip p0));;
           lon <- lift (float_of_str (strip p1));;
           let coord_type := strip p2 in
           let description :=
             match rest with
             | p3 :: _ => strip p3
             | [] => default_description_repr lat lon
             end in
           ret (Some (lat, lon, coord_type, description))
       | [p0; p1] =>
           lat <- lift (float_of_str (strip p0));;
           lon <- lift (float_of_str (strip p1));;
           print (CoordinatesDetected lat lon);;
           ask_type_and_description lat lon
       | _ =>
           print BadFormat;;
           ret None
       end)
    (fun e =>
       if is_ValueError e then print BadNumber;; ret None
       else print (ParseError e);; ret None).

Definition pool_tokens : list str := [u "pool"; u "piscina"; u "p"].
Definition no_pool_tokens : list str :=
  [u "no_pool"; u "no_piscina"; u "n"].

Definition coord_data (lat lon : float) (description : str) : value :=
  VDict [(u "lat", VFloat lat);
         (u "lon", VFloat lon);
         (u "description", VStr description);
         (u "captured", VBool false)].

(** [self.coordinates[key].append(item)]: the list is changed in place, so
    the dictionary keeps the key where it is. *)
Definition append_to (key : str) (item : value) : M unit :=
  c <- get_coordinates;;
  l <- lift (getitem c key);;
  l' <- lift (append l item);;
  c' <- lift (setitem c key l');;
  set_coordinates c'.

(** [self.coordinates['metadata'][key] = v], the right-hand side [v] having
    been evaluated before. *)
Definition set_metadata (key : str) (v : value) : M unit :=
  c <- get_coordinates;;
  md <- lift (getitem c k_metadata);;
  md' <- lift (setitem md key v);;
  c' <- lift (setitem c k_metadata md');;
  set_coordinates c'.

Definition len_of (key : str) : M nat :=
  c <- get_coordinates;;
  l <- lift (getitem c key);;
  lift (len l).

Definition update_metadata : M unit :=
  n <- len_of k_pools;;
  set_metadata k_total_pools (VInt (Z.of_nat n));;
  m <- len_of k_no_pools;;
  set_metadata k_total_no_pools (VInt (Z.of_nat m));;
  now <- datetime_now;;
  set_metadata k_last_updated (VStr now).

(** [print] of a line that shows the text [s] as it is.  The console is a
    UTF-8 stream, like the file: a string with a surrogate code point
    cannot be written to it. *)
Definition print_text (s : str) (m : message) : M unit :=
  if str_encodable s then print m else raise UnicodeEncodeError.

Definition add_coordinate (lat lon : float) (coord_type description : str)
  : M bool :=
  let item := coord_data lat lon description in
  if str_in (lower coord_type) pool_tokens then
    append_to k_pools item;;
    print_text description (PoolAdded description lat lon);;
    update_metadata;;
    ret true
  else if str_in (lower coord_type) no_pool_tokens then
    append_to k_no_pools item;;
    print_text description (NoPoolAdded description lat lon);;
    update_metadata;;
    ret true
  else
    print InvalidType;;
    ret false.

Definition save_coordinates : M unit :=
  try_except
    (c <- get_coordinates;;
     write_json_file c;;
     print Saved;;
     n <- len_of k_pools;;
     print (TotalPools n);;
     m <- len_of k_no_pools;;
     print (TotalNoPools m))
    (fun e => print (SaveError e)).

(** One turn of the loop of [interactive_collector] on a line that is not
    a command: parse it and, if that gave a result, add it. *)
Definition collect (user_input : str) : M unit :=
  r <- parse_coordinate_input user_input;;
  match r with
  | Some (lat, lon, coord_type, description) =>
      add_coordinate lat lon coord_type description;;
      ret tt
  | None => ret tt
  end.

End Collector.

(* ===================================================================== *)
(** * Facts about dictionaries and the store *)
(* ===================================================================== *)

Module StoreFacts.
Import Text PyFloat Json Collector.
Local Open Scope stmt_scope.

Lemma str_eqb_refl (a : str) : str_eqb a a = true.
Proof.
  induction a as [|x a IH]; simpl; [reflexivity|].
  now rewrite N.eqb_refl.
Qed.

Lemma str_eqb_eq (a b : str) : str_eqb a b = true <-> a = b.
Proof.
  split.
  - revert b; induction a as [|x a IH]; intros [|y b]; simpl; try discriminate.
    + reflexivity.
    + intros H. apply andb_prop in H as [Hx Hab].
      apply N.eqb_eq in Hx. apply IH in Hab. now subst.
  - intros ->. apply str_eqb_refl.
Qed.

Lemma str_eqb_sym (a b : str) : str_eqb a b = str_eqb b a.
Proof.
  destruct (str_eqb a b) eqn:E.
  - apply str_eqb_eq in E. subst. symmetry. apply str_eqb_refl.
  - destruct (str_eqb b a) eqn:E'; [|reflexivity].
    apply str_eqb_eq in E'. subst. now rewrite str_eqb_refl in E.
Qed.

Lemma dict_get_set_same k v d : dict_get k (dict_set k v d) = Some v.
Proof.
  induction d as [|[k' v'] d IH]; simpl.
  - now rewrite str_eqb_refl.
  - destruct (str_eqb k k') eqn:E; simpl; rewrite E; auto.
Qed.

Lemma dict_get_set_other k k' v d :
  str_eqb k k' = false -> dict_get k (dict_set k' v d) = dict_get k d.
Proof.
  intros Hk. induction d as [|[k0 v0] d IH]; simpl.
  - now rewrite Hk.
  - destruct (str_eqb k' k0) eqn:E; simpl.
    + apply str_eqb_eq in E. subst k0. now rewrite Hk.
    + now rewrite IH.
Qed.

Lemma dict_set_set k v v' d :
  dict_set k v (dict_set k v' d) = dict_set k v d.
Proof.
  induction d as [|[k0 v0] d IH]; simpl.
  - now rewrite str_eqb_refl.
  - destruct (str_eqb k k0) eqn:E; simpl; rewrite E; [reflexivity|].
    now rewrite IH.
Qed.

(** The two record lists and the metadata of a store, when it has them. *)
Definition records (key : str) (c : value) : option (list value) :=
  match getitem c key with
  | Ok (VList l) => Some l
  | _ => None
  end.

Definition metadata (c : value) : option (list (str * value)) :=
  match getitem c k_metadata with
  | Ok (VDict md) => Some md
  | _ => None
  end.

(** The shape every method of the collector expects of [self.coordinates]. *)
Definition well_formed (c : value) : Prop :=
  exists pools no_pools md,
    records k_pools c = Some pools /\
    records k_no_pools c = Some no_pools /\
    metadata c = Some md.

Lemma records_inv key c l :
  records key c = Some l ->
  exists d, c = VDict d /\ dict_get key d = Some (VList l).
Proof.
  unfold records, getitem. destruct c; try discriminate.
  destruct (dict_get key d) as [[]|] eqn:E; try discriminate.
  intros [= ->]. eauto.
Qed.

Lemma metadata_inv c md :
  metadata c = Some md ->
  exists d, c = VDict d /\ dict_get k_metadata d = Some (VDict md).
Proof.
  unfold metadata, getitem. destruct c; try discriminate.
  destruct (dict_get k_metadata d) as [[]|] eqn:E; try discriminate.
  intros [= ->]. eauto.
Qed.

Lemma well_formed_inv c :
  well_formed c ->
  exists d pools no_pools md,
    c = VDict d /\
    dict_get k_pools d = Some (VList pools) /\
    dict_get k_no_pools d = Some (VList no_pools) /\
    dict_get k_metadata d = Some (VDict md).
Proof.
  intros (pools & no_pools & md & H1 & H2 & H3).
  apply records_inv in H1 as (d & -> & H1).
  apply records_inv in H2 as (d' & [= <-] & H2).
  apply metadata_inv in H3 as (d'' & [= <-] & H3).
  now exists d, pools, no_pools, md.
Qed.

(** The store after [update_metadata], given the clock reading [now]. *)
Definition with_counts (now : str) (d : list (str * value))
  (n m : nat) (md : list (str * value)) : value :=
  VDict
    (dict_set k_metadata
       (VDict
          (dict_set k_last_updated (VStr now)
             (dict_set k_total_no_pools (VInt (Z.of_nat m))
                (dict_set k_total_pools (VInt (Z.of_nat n)) md))))
       d).

Lemma bind_ok {A B} (m : M A) (k : A -> M B) p a p' :
  m p = (Ok a, p') -> bind m k p = k a p'.
Proof. unfold bind. now intros ->. Qed.

Lemma bind_err {A B} (m : M A) (k : A -> M B) p e p' :
  m p = (Err e, p') -> bind m k p = (Err e, p').
Proof. unfold bind. now intros ->. Qed.

Lemma len_of_run key p d l :
  coordinates p = VDict d ->
  dict_get key d = Some (VList l) ->
  len_of key p = (Ok (List.length l), p).
Proof.
  intros Hc Hk.
  unfold len_of, bind, get_coordinates, lift, getitem.
  now rewrite Hc, Hk.
Qed.

Lemma set_metadata_run key v p d md :
  coordinates p = VDict d ->
  dict_get k_metadata d = Some (VDict md) ->
  set_metadata key v p =
    (Ok tt,
     with_coordinates
       (VDict (dict_set k_metadata (VDict (dict_set key v md)) d)) p).
Proof.
  intros Hc Hm.
  unfold set_metadata, bind, get_coordinates, lift, set_coordinates, getitem.
  now rewrite Hc, Hm.
Qed.

Lemma append_to_run key item p d l :
  coordinates p = VDict d ->
  dict_get key d = Some (VList l) ->
  append_to key item p =
    (Ok tt,
     with_coordinates (VDict (dict_set key (VList (l ++ [item])) d)) p).
Proof.
  intros Hc Hk.
  unfold append_to, bind, get_coordinates, lift, set_coordinates, getitem.
  now rewrite Hc, Hk.
Qed.

Lemma update_metadata_run p d pools no_pools md :
  coordinates p = VDict d ->
  dict_get k_pools d = Some (VList pools) ->
  dict_get k_no_pools d = Some (VList no_pools) ->
  dict_get k_metadata d = Some (VDict md) ->
  update_metadata p =
    (Ok tt,
     with_ticks (S (ticks p))
       (with_coordinates
          (with_counts (strftime (clock p (ticks p))) d
             (List.length pools) (List.length no_pools) md)
          p)).
Proof.
  intros Hc Hp Hn Hm. unfold update_metadata.
  erewrite bind_ok by (eapply len_of_run; eassumption).
  erewrite bind_ok by (eapply set_metadata_run; eassumption).
  erewrite bind_ok.
  2:{ eapply len_of_run; [reflexivity|].
      rewrite dict_get_set_other by reflexivity. eassumption. }
  erewrite bind_ok.
  2:{ eapply set_metadata_run; [reflexivity|]. apply dict_get_set_same. }
  unfold bind, datetime_now.
  erewrite set_metadata_run.
  2:{ reflexivity. }
  2:{ cbn [coordinates with_coordinates with_ticks].
      apply dict_get_set_same. }
  unfold with_counts. rewrite !dict_set_set. reflexivity.
Qed.

(** ** Statements that only use the console

    Most statements of the class read [self.coordinates] and talk to the
    console, and leave the store, the file and the clock alone. *)

Definition same_store (p q : process) : Prop :=
  coordinates q = coordinates p /\ file q = file p /\
  readable q = readable p /\ writable q = writable p /\
  clock q = clock p /\ ticks q = ticks p /\
  int_max_str_digits q = int_max_str_digits p.

Definition console_only {A} (m : M A) : Prop :=
  forall p, same_store p (snd (m p)).

Lemma same_store_refl p : same_store p p.
Proof. now repeat split. Qed.

Lemma same_store_trans p q r :
  same_store p q -> same_store q r -> same_store p r.
Proof.
  unfold same_store. intros (?&?&?&?&?&?&?) (?&?&?&?&?&?&?).
  repeat split; etransitivity; eassumption.
Qed.

Lemma console_only_ret {A} (a : A) : console_only (ret a).
Proof. intros p. apply same_store_refl. Qed.

Lemma console_only_raise {A} e : console_only (@raise A e).
Proof. intros p. apply same_store_refl. Qed.

Lemma console_only_lift {A} (r : result A) : console_only (lift r).
Proof. intros p. apply same_store_refl. Qed.

Lemma console_only_print m : console_only (print m).
Proof. intros p. now repeat split. Qed.

Lemma console_only_get : console_only get_coordinates.
Proof. intros p. apply same_store_refl. Qed.

Lemma console_only_int_limit : console_only int_limit.
Proof. intros p. apply same_store_refl. Qed.

Lemma console_only_input m : console_only (input m).
Proof.
  intros p. unfold input. destruct (stdin p); now repeat split.
Qed.

Lemma console_only_bind {A B} (m : M A) (k : A -> M B) :
  console_only m -> (forall a, console_only (k a)) -> console_only (bind m k).
Proof.
  intros Hm Hk p. unfold bind. specialize (Hm p).
  destruct (m p) as [[a|e] p']; simpl in *; [|assumption].
  eapply same_store_trans; [eassumption|apply Hk].
Qed.

Lemma console_only_try {A} (m : M A) (h : exn -> M A) :
  console_only m -> (forall e, console_only (h e)) ->
  console_only (try_except m h).
Proof.
  intros Hm Hh p. unfold try_except. specialize (Hm p).
  destruct (m p) as [[a|e] p']; simpl in *; [assumption|].
  eapply same_store_trans; [eassumption|apply Hh].
Qed.

Lemma console_only_len_of key : console_only (len_of key).
Proof.
  unfold len_of.
  apply console_only_bind; [apply console_only_get|intros c].
  apply console_only_bind; intros; apply console_only_lift.
Qed.

Create HintDb console.
#[export] Hint Resolve console_only_ret console_only_raise console_only_lift
  console_only_print console_only_get console_only_int_limit
  console_only_input
  console_only_len_of : console.
#[export] Hint Extern 2 (console_only (bind _ _)) =>
  apply console_only_bind; [|intros] : console.
#[export] Hint Extern 2 (console_only (try_except _ _)) =>
  apply console_only_try; [|intros] : console.

Ltac console := auto 20 with console.

(** ** Running the store methods *)

Lemma load_existing_coordinates p :
  fst (load_existing p) = Ok tt /\
  same_store
    (with_coordinates
       (match file p with
        | Some (Document v) => if readable p then v else coordinates p
        | _ => coordinates p
        end) p)
    (snd (load_existing p)).
Proof.
  unfold load_existing.
  destruct (file p) as [fc|] eqn:Hf.
  2:{ split; [reflexivity|]. now repeat split. }
  unfold try_except.
  destruct (readable p) eqn:Hr; [destruct fc as [v|]|].
  - erewrite bind_ok
      by (unfold read_json_file; rewrite Hr, Hf; reflexivity).
    erewrite bind_ok by reflexivity.
    match goal with
    | |- context [bind get_coordinates ?k] =>
        assert (Hk : console_only (bind get_coordinates k)) by console
    end.
    specialize (Hk (with_coordinates v p)).
    match type of Hk with
    | same_store _ (snd ?r) => destruct r as [[[]|e] q]
    end; cbn [fst snd] in *.
    + split; [reflexivity|assumption].
    + split; [reflexivity|].
      eapply same_store_trans; [eassumption|]. now repeat split.
  - erewrite bind_err
      by (unfold read_json_file; rewrite Hr, Hf; reflexivity).
    split; [reflexivity|]. now repeat split.
  - erewrite bind_err by (unfold read_json_file; rewrite Hr; reflexivity).
    split; [reflexivity|]. destruct fc; now repeat split.
Qed.

Lemma save_coordinates_writes p :
  writable p = WriteOk ->
  encodable (coordinates p) = true ->
  fst (save_coordinates p) = Ok tt /\
  same_store (with_file (Some (Document (coordinates p))) p)
             (snd (save_coordinates p)).
Proof.
  intros Hw He. unfold save_coordinates, try_except.
  erewrite bind_ok by reflexivity.
  erewrite bind_ok
    by (unfold write_json_file; rewrite Hw, He; reflexivity).
  match goal with
  | |- context [bind (print Saved) ?k] =>
      assert (Hk : console_only (bind (print Saved) k)) by console
  end.
  specialize (Hk (with_file (Some (Document (coordinates p))) p)).
  match type of Hk with
  | same_store _ (snd ?r) => destruct r as [[[]|e] q]
  end; cbn [fst snd] in *.
  - split; [reflexivity|assumption].
  - split; [reflexivity|].
    eapply same_store_trans; [eassumption|]. now repeat split.
Qed.

Lemma save_coordinates_fails p :
  writable p <> WriteOk ->
  save_coordinates p =
    (Ok tt,
     with_stdout (stdout p ++ [SaveError OSError])
       (match writable p with
        | DumpFails => with_file (Some Garbage) p
        | _ => p
        end)).
Proof.
  intros Hw. unfold save_coordinates, try_except.
  erewrite bind_ok by reflexivity.
  unfold bind, write_json_file.
  destruct (writable p); [congruence| |]; reflexivity.
Qed.

Lemma add_coordinate_pool lat lon t desc p d pools no_pools md :
  coordinates p = VDict d ->
  dict_get k_pools d = Some (VList pools) ->
  dict_get k_no_pools d = Some (VList no_pools) ->
  dict_get k_metadata d = Some (VDict md) ->
  str_in (lower t) pool_tokens = true ->
  str_encodable desc = true ->
  let item := coord_data lat lon desc in
  let q := with_stdout (stdout p ++ [PoolAdded desc lat lon]) p in
  add_coordinate lat lon t desc p =
    (Ok true,
     with_ticks (S (ticks p))
       (with_coordinates
          (with_counts (strftime (clock p (ticks p)))
             (dict_set k_pools (VList (pools ++ [item])) d)
             (List.length (pools ++ [item])) (List.length no_pools) md)
          q)).
Proof.
  intros Hc Hp Hn Hm Ht He item q. unfold add_coordinate. rewrite Ht.
  erewrite bind_ok by (eapply append_to_run; eassumption).
  erewrite bind_ok by (unfold print_text; rewrite He; reflexivity).
  erewrite bind_ok.
  2:{ eapply update_metadata_run with (pools := pools ++ [item]);
        [reflexivity|..].
      - apply dict_get_set_same.
      - rewrite dict_get_set_other by reflexivity. eassumption.
      - rewrite dict_get_set_other by reflexivity. eassumption. }
  reflexivity.
Qed.

Lemma add_coordinate_no_pool lat lon t desc p d pools no_pools md :
  coordinates p = VDict d ->
  dict_get k_pools d = Some (VList pools) ->
  dict_get k_no_pools d = Some (VList no_pools) ->
  dict_get k_metadata d = Some (VDict md) ->
  str_in (lower t) pool_tokens = false ->
  str_in (lower t) no_pool_tokens = true ->
  str_encodable desc = true ->
  let item := coord_data lat lon desc in
  let q := with_stdout (stdout p ++ [NoPoolAdded desc lat lon]) p in
  add_coordinate lat lon t desc p =
    (Ok true,
     with_ticks (S (ticks p))
       (with_coordinates
          (with_counts (strftime (clock p (ticks p)))
             (dict_set k_no_pools (VList (no_pools ++ [item])) d)
             (List.length pools) (List.length (no_pools ++ [item])) md)
          q)).
Proof.
  intros Hc Hp Hn Hm Ht Ht' He item q. unfold add_coordinate.
  rewrite Ht, Ht'.
  erewrite bind_ok by (eapply append_to_run; eassumption).
  erewrite bind_ok by (unfold print_text; rewrite He; reflexivity).
  erewrite bind_ok.
  2:{ eapply update_metadata_run with (no_pools := no_pools ++ [item]);
        [reflexivity|..].
      - rewrite dict_get_set_other by reflexivity. eassumption.
      - apply dict_get_set_same.
      - rewrite dict_get_set_other by reflexivity. eassumption. }
  reflexivity.
Qed.

(** A description that cannot be written to the console: the record is in
    its list when the [print] raises, and the metadata is not updated. *)
Lemma add_coordinate_unprintable lat lon t desc p d l :
  coordinates p = VDict d ->
  str_encodable desc = false ->
  let item := coord_data lat lon desc in
  (str_in (lower t) pool_tokens = true ->
   dict_get k_pools d = Some (VList l) ->
   add_coordinate lat lon t desc p =
     (Err UnicodeEncodeError,
      with_coordinates (VDict (dict_set k_pools (VList (l ++ [item])) d)) p))
  /\
  (str_in (lower t) pool_tokens = false ->
   str_in (lower t) no_pool_tokens = true ->
   dict_get k_no_pools d = Some (VList l) ->
   add_coordinate lat lon t desc p =
     (Err UnicodeEncodeError,
      with_coordinates
        (VDict (dict_set k_no_pools (VList (l ++ [item])) d)) p)).
Proof.
  intros Hc He item. split.
  - intros Ht Hl. unfold add_coordinate. rewrite Ht.
    erewrite bind_ok by (eapply append_to_run; eassumption).
    erewrite bind_err by (unfold print_text; rewrite He; reflexivity).
    reflexivity.
  - intros Ht Ht' Hl. unfold add_coordinate. rewrite Ht, Ht'.
    erewrite bind_ok by (eapply append_to_run; eassumption).
    erewrite bind_err by (unfold print_text; rewrite He; reflexivity).
    reflexivity.
Qed.

Lemma add_coordinate_invalid lat lon t desc p :
  str_in (lower t) pool_tokens = false ->
  str_in (lower t) no_pool_tokens = false ->
  add_coordinate lat lon t desc p =
    (Ok false, with_stdout (stdout p ++ [InvalidType]) p).
Proof.
  intros Ht Ht'. unfold add_coordinate. now rewrite Ht, Ht'.
Qed.

(** The category tokens of the two lists are different words. *)
Lemma tokens_disjoint x :
  str_in x pool_tokens = true -> str_in x no_pool_tokens = false.
Proof.
  unfold str_in, pool_tokens, no_pool_tokens. cbn [existsb].
  rewrite !orb_false_r. intros H.
  repeat (apply orb_prop in H as [H|H]); apply str_eqb_eq in H; subst x;
    reflexivity.
Qed.

(** What the lists and the metadata of the store are after
    [update_metadata]. *)
Lemma records_with_counts key now d n m md :
  str_eqb key k_metadata = false ->
  records key (with_counts now d n m md) = records key (VDict d).
Proof.
  intros Hk. unfold records, with_counts, getitem.
  now rewrite dict_get_set_other.
Qed.

Lemma metadata_with_counts now d n m md :
  metadata (with_counts now d n m md) =
    Some (dict_set k_last_updated (VStr now)
            (dict_set k_total_no_pools (VInt (Z.of_nat m))
               (dict_set k_total_pools (VInt (Z.of_nat n)) md))).
Proof.
  unfold metadata, with_counts, getitem. now rewrite dict_get_set_same.
Qed.

Lemma records_set_same key l d :
  records key (VDict (dict_set key (VList l) d)) = Some l.
Proof. unfold records, getitem. now rewrite dict_get_set_same. Qed.

Lemma records_set_other key key' v d :
  str_eqb key key' = false ->
  records key (VDict (dict_set key' v d)) = records key (VDict d).
Proof.
  intros H. unfold records, getitem. now rewrite dict_get_set_other.
Qed.

Lemma records_of_dict key d l :
  dict_get key d = Some (VList l) -> records key (VDict d) = Some l.
Proof. intros H. unfold records, getitem. now rewrite H. Qed.

(** The two lists after [add_coordinate], on a store that has them, and
    what the call returns or raises. *)
Lemma add_coordinate_records lat lon t desc p pools no_pools md :
  records k_pools (coordinates p) = Some pools ->
  records k_no_pools (coordinates p) = Some no_pools ->
  metadata (coordinates p) = Some md ->
  let r := add_coordinate lat lon t desc p in
  let item := coord_data lat lon desc in
  let is_pool := str_in (lower t) pool_tokens in
  let is_no_pool := str_in (lower t) no_pool_tokens in
  fst r = (if is_pool || is_no_pool then
             if str_encodable desc then Ok true else Err UnicodeEncodeError
           else Ok false) /\
  records k_pools (coordinates (snd r))
    = Some (if is_pool then pools ++ [item] else pools) /\
  records k_no_pools (coordinates (snd r))
    = Some (if is_no_pool then no_pools ++ [item] else no_pools).
Proof.
  intros H1 H2 H3. cbv zeta.
  destruct (well_formed_inv (c := coordinates p))
    as (d & pools' & no_pools' & md' & Hc & Hp & Hn & Hm).
  { now exists pools, no_pools, md. }
  assert (pools' = pools) as ->.
  { rewrite Hc in H1. rewrite (records_of_dict _ _ Hp) in H1. congruence. }
  assert (no_pools' = no_pools) as ->.
  { rewrite Hc in H2. rewrite (records_of_dict _ _ Hn) in H2. congruence. }
  destruct (str_in (lower t) pool_tokens) eqn:Ep;
    [|destruct (str_in (lower t) no_pool_tokens) eqn:En].
  + rewrite (tokens_disjoint _ Ep). destruct (str_encodable desc) eqn:Ed.
    * rewrite (add_coordinate_pool lat lon t desc p Hc Hp Hn Hm Ep Ed).
      cbn [fst snd coordinates with_ticks with_coordinates orb].
      rewrite !records_with_counts by reflexivity.
      rewrite records_set_same.
      rewrite records_set_other by reflexivity.
      rewrite (records_of_dict _ _ Hn). auto.
    * destruct (@add_coordinate_unprintable lat lon t desc p d pools Hc Ed)
        as [H _].
      rewrite (H Ep Hp).
      cbn [fst snd coordinates with_coordinates orb].
      rewrite records_set_same.
      rewrite records_set_other by reflexivity.
      rewrite (records_of_dict _ _ Hn). auto.
  + destruct (str_encodable desc) eqn:Ed.
    * rewrite (add_coordinate_no_pool lat lon t desc p Hc Hp Hn Hm Ep En Ed).
      cbn [fst snd coordinates with_ticks with_coordinates orb].
      rewrite !records_with_counts by reflexivity.
      rewrite records_set_same.
      rewrite records_set_other by reflexivity.
      rewrite (records_of_dict _ _ Hp). auto.
    * destruct (@add_coordinate_unprintable lat lon t desc p d no_pools Hc Ed)
        as [_ H].
      rewrite (H Ep En Hn).
      cbn [fst snd coordinates with_coordinates orb].
      rewrite records_set_same.
      rewrite records_set_other by reflexivity.
      rewrite (records_of_dict _ _ Hp). auto.
  + rewrite (add_coordinate_invalid lat lon t desc p Ep En).
    cbn [fst snd coordinates with_stdout orb]. auto.
Qed.

(** ** The lists of records through the metadata update *)

Lemma bind_frame {A B X} (f : process -> X) (m : M A) (k : A -> M B) p :
  f (snd (m p)) = f p ->
  (forall a q, f (snd (k a q)) = f q) ->
  f (snd (bind m k p)) = f p.
Proof.
  intros Hm Hk. unfold bind. destruct (m p) as [[a|e] q]; cbn [snd] in *.
  - now rewrite Hk.
  - exact Hm.
Qed.

Lemma set_metadata_keeps_records k key v p :
  str_eqb k k_metadata = false ->
  records k (coordinates (snd (set_metadata key v p)))
  = records k (coordinates p).
Proof.
  intros Hk.
  unfold set_metadata, bind, get_coordinates, lift, set_coordinates.
  destruct (getitem (coordinates p) k_metadata) as [md|]; [|reflexivity].
  destruct (setitem md key v) as [md'|]; [|reflexivity].
  destruct (setitem (coordinates p) k_metadata md') as [c'|] eqn:E;
    [|reflexivity].
  cbn [snd coordinates with_coordinates]. unfold setitem in E.
  destruct (coordinates p); try discriminate. injection E as <-.
  now apply records_set_other.
Qed.

Lemma len_of_state key p : snd (len_of key p) = p.
Proof.
  unfold len_of, bind, get_coordinates, lift.
  destruct (getitem (coordinates p) key) as [l|]; [|reflexivity].
  now destruct (len l).
Qed.

(** [update_metadata] leaves the two lists as they are, also when it
    raises. *)
Lemma update_metadata_keeps_records k p :
  str_eqb k k_metadata = false ->
  records k (coordinates (snd (update_metadata p)))
  = records k (coordinates p).
Proof.
  intros Hk. revert p.
  assert (Hset : forall key v q,
             records k (coordinates (snd (set_metadata key v q)))
             = records k (coordinates q))
    by (intros; now apply set_metadata_keeps_records).
  assert (Hlen : forall key q,
             records k (coordinates (snd (len_of key q)))
             = records k (coordinates q))
    by (intros; now rewrite len_of_state).
  intros p. unfold update_metadata.
  apply (bind_frame (fun q => records k (coordinates q)));
    [apply Hlen|intros n q].
  apply (bind_frame (fun q => records k (coordinates q)));
    [apply Hset|intros _ q1].
  apply (bind_frame (fun q => records k (coordinates q)));
    [apply Hlen|intros m q2].
  apply (bind_frame (fun q => records k (coordinates q)));
    [apply Hset|intros _ q3].
  apply (bind_frame (fun q => records k (coordinates q)));
    [reflexivity|intros now q4].
  apply Hset.
Qed.

Lemma print_text_coordinates s m p :
  coordinates (snd (print_text s m p)) = coordinates p.
Proof. unfold print_text. now destruct (str_encodable s). Qed.

(** The two lists after [add_coordinate], on a store that has them, whether
    the call returns or raises. *)
Lemma add_coordinate_lists lat lon t desc p pools no_pools :
  records k_pools (coordinates p) = Some pools ->
  records k_no_pools (coordinates p) = Some no_pools ->
  let r := add_coordinate lat lon t desc p in
  let item := coord_data lat lon desc in
  records k_pools (coordinates (snd r))
    = Some (if str_in (lower t) pool_tokens then pools ++ [item]
            else pools) /\
  records k_no_pools (coordinates (snd r))
    = Some (if str_in (lower t) no_pool_tokens then no_pools ++ [item]
            else no_pools).
Proof.
  intros H1 H2. cbv zeta.
  destruct (records_inv _ _ H1) as (d & Hc & Hp).
  destruct (records_inv _ _ H2) as (d' & Hc' & Hn).
  assert (d' = d) as -> by congruence. clear Hc'.
  assert (Hrest :
            forall key m q,
              str_eqb key k_metadata = false ->
              records key
                (coordinates
                   (snd (bind (print_text desc m)
                           (fun _ => bind update_metadata
                                       (fun _ => ret true)) q)))
              = records key (coordinates q)).
  { intros key m q Hk.
    apply (bind_frame (fun q => records key (coordinates q))).
    - now rewrite print_text_coordinates.
    - intros _ q1.
      apply (bind_frame (fun q => records key (coordinates q))).
      + now apply update_metadata_keeps_records.
      + reflexivity. }
  unfold add_coordinate.
  destruct (str_in (lower t) pool_tokens) eqn:Ep;
    [|destruct (str_in (lower t) no_pool_tokens) eqn:En].
  - rewrite (tokens_disjoint _ Ep).
    erewrite bind_ok by (eapply append_to_run; eassumption).
    rewrite !Hrest by reflexivity.
    cbn [coordinates with_coordinates].
    rewrite records_set_same, records_set_other by reflexivity.
    now rewrite (records_of_dict _ _ Hn).
  - erewrite bind_ok by (eapply append_to_run; eassumption).
    rewrite !Hrest by reflexivity.
    cbn [coordinates with_coordinates].
    rewrite records_set_same, records_set_other by reflexivity.
    now rewrite (records_of_dict _ _ Hp).
  - cbn [bind print ret snd coordinates with_stdout]. now rewrite H1, H2.
Qed.

(** The store of a newly constructed collector. *)
Lemma collector_coordinates p :
  fst (CoordinateCollector p) = Ok tt /\
  coordinates (snd (CoordinateCollector p)) =
    match file p with
    | Some (Document v) => if readable p then v else initial_coordinates
    | _ => initial_coordinates
    end.
Proof.
  unfold CoordinateCollector.
  erewrite bind_ok by reflexivity.
  destruct (load_existing_coordinates (with_coordinates initial_coordinates p))
    as [Hr (Hc & _)].
  split; assumption.
Qed.

End StoreFacts.

(* ===================================================================== *)
(** * Facts about what can be written to the file *)
(* ===================================================================== *)

Module EncodingFacts.
Import Text PyFloat Json Collector StoreFacts.

Definition entry_encodable (kv : str * value) : bool :=
  str_encodable (fst kv) && encodable (snd kv).

Lemma encodable_dict d : encodable (VDict d) = forallb entry_encodable d.
Proof. reflexivity. Qed.

Lemma encodable_dict_set k v d :
  forallb entry_encodable d = true ->
  str_encodable k = true -> encodable v = true ->
  forallb entry_encodable (dict_set k v d) = true.
Proof.
  intros Hd Hk Hv. induction d as [|[k' v'] d IH]; simpl in *.
  - unfold entry_encodable. simpl. now rewrite Hk, Hv.
  - apply andb_prop in Hd as [Hkv Hd].
    unfold entry_encodable in Hkv. simpl in Hkv.
    apply andb_prop in Hkv as [Hk' Hv'].
    destruct (str_eqb k k'); simpl; unfold entry_encodable at 1; simpl.
    + now rewrite Hk', Hv, Hd.
    + now rewrite Hk', Hv', IH.
Qed.

Lemma encodable_dict_get k v d :
  forallb entry_encodable d = true ->
  dict_get k d = Some v -> encodable v = true.
Proof.
  intros Hd. induction d as [|[k' v'] d IH]; simpl in *; [discriminate|].
  apply andb_prop in Hd as [Hkv Hd].
  destruct (str_eqb k k').
  - intros [= <-]. unfold entry_encodable in Hkv.
    now apply andb_prop in Hkv as [_ Hv'].
  - now apply IH.
Qed.

Lemma str_encodable_app a b :
  str_encodable (a ++ b) = str_encodable a && str_encodable b.
Proof. apply forallb_app. Qed.

Lemma str_encodable_zeros n : str_encodable (zeros n) = true.
Proof. induction n; simpl; auto. Qed.

Lemma str_encodable_cons c s :
  str_encodable (c :: s)
  = (N.ltb c 55296 || N.ltb 57343 c) && str_encodable s.
Proof. reflexivity. Qed.

Lemma str_encodable_digits fuel n acc :
  str_encodable acc = true ->
  str_encodable (digits_of_pos_fuel fuel n acc) = true.
Proof.
  revert n acc. induction fuel as [|fuel IH]; intros n acc Hacc; simpl.
  - assumption.
  - assert (Hd : str_encodable (Z.to_N (48 + n mod 10) :: acc) = true).
    { rewrite str_encodable_cons, Hacc, andb_true_r.
      apply orb_true_iff. left. apply N.ltb_lt.
      pose proof (Z.mod_pos_bound n 10 eq_refl) as Hr.
      generalize dependent (n mod 10)%Z. intros r Hr.
      apply N2Z.inj_lt. rewrite Z2N.id by lia.
      change (Z.of_N 55296) with 55296%Z. lia. }
    destruct (n <? 10)%Z; [assumption|]. now apply IH.
Qed.

Lemma str_encodable_decimal n : str_encodable (decimal_of_Z n) = true.
Proof. apply str_encodable_digits. reflexivity. Qed.

Lemma str_encodable_pad n z :
  str_encodable (pad_left n (decimal_of_Z z)) = true.
Proof.
  unfold pad_left.
  now rewrite str_encodable_app, str_encodable_zeros, str_encodable_decimal.
Qed.

Lemma str_encodable_strftime t : str_encodable (strftime t) = true.
Proof.
  unfold strftime.
  repeat (rewrite str_encodable_app; apply andb_true_intro; split);
    try apply str_encodable_pad; reflexivity.
Qed.

Lemma encodable_coord_data lat lon desc :
  str_encodable desc = true -> encodable (coord_data lat lon desc) = true.
Proof. intros H. cbn. now rewrite H. Qed.

Lemma encodable_with_counts now d n m md :
  forallb entry_encodable d = true ->
  forallb entry_encodable md = true ->
  str_encodable now = true ->
  encodable (with_counts now d n m md) = true.
Proof.
  intros Hd Hmd Hnow. unfold with_counts. rewrite encodable_dict.
  apply encodable_dict_set; [assumption|reflexivity|].
  rewrite encodable_dict.
  repeat (apply encodable_dict_set; try reflexivity; try assumption).
Qed.

Lemma encodable_append key item d l :
  forallb entry_encodable d = true ->
  dict_get key d = Some (VList l) ->
  str_encodable key = true ->
  encodable item = true ->
  forallb entry_encodable (dict_set key (VList (l ++ [item])) d) = true.
Proof.
  intros Hd Hl Hk Hi. apply encodable_dict_set; try assumption.
  pose proof (encodable_dict_get _ _ Hd Hl) as Hl'. cbn in Hl' |- *.
  rewrite forallb_app, Hl'. cbn. now rewrite Hi.
Qed.

End EncodingFacts.

(* ===================================================================== *)
(** * The store: loading, adding, saving *)
(* ===================================================================== *)

Module StoreTheorems.
Import Text PyFloat Json Collector StoreFacts EncodingFacts.

(** A process started in an empty directory, at nine in the morning. *)
Definition morning : datetime :=
  {| year := 2024; month := 3; day := 7; hour := 9; minute := 5;
     second := 0 |}.

Definition boot : process :=
  {| coordinates := VNone; file := None; readable := true;
     writable := WriteOk; stdin := []; stdout := [];
     clock := fun _ => morning; ticks := 0; int_max_str_digits := 4300 |}.

(** The same process with a file already in place. *)
Definition boot_with (fc : file_content) : process :=
  with_file (Some fc) boot.

(** The constructed collector of a fresh process. *)
Definition fresh : process := snd (CoordinateCollector boot).

Definition veracruz_lat : float := S754_finite false 5396944908454776 (-48).
Definition veracruz_lon : float := S754_finite true 6764842926524387 (-46).

(** [total_pools] and [total_no_pools] are the lengths of the two lists. *)
Definition counts_consistent (c : value) : Prop :=
  exists pools no_pools md,
    records k_pools c = Some pools /\
    records k_no_pools c = Some no_pools /\
    metadata c = Some md /\
    dict_get k_total_pools md = Some (VInt (Z.of_nat (List.length pools))) /\
    dict_get k_total_no_pools md
      = Some (VInt (Z.of_nat (List.length no_pools))).

(** C10.  Constructing a collector leaves the empty initial store in place
    when the coordinates file is absent, cannot be read or does not parse;
    when it parses, the parsed value becomes the store whatever its shape.
    The same holds for [load_existing] on its own, with the store it was
    called on in place of the initial one. *)
Theorem load_existing_no_schema_check (p : process) :
  fst (CoordinateCollector p) = Ok tt /\
  coordinates (snd (CoordinateCollector p)) =
    match file p with
    | Some (Document v) => if readable p then v else initial_coordinates
    | _ => initial_coordinates
    end /\
  coordinates (snd (load_existing p)) =
    match file p with
    | Some (Document v) => if readable p then v else coordinates p
    | _ => coordinates p
    end.
Proof.
  destruct (collector_coordinates p) as [Hr Hc].
  destruct (load_existing_coordinates p) as [_ (Hc' & _)].
  repeat split; assumption.
Qed.

(** A file that holds a JSON object without the expected keys: the object
    becomes the store, and the failed look-up of its lists is only
    reported. *)
Definition malformed : value := VDict [(u "version", VInt 1)].

Example load_malformed_file :
  coordinates (snd (CoordinateCollector (boot_with (Document malformed))))
    = malformed /\
  stdout (snd (CoordinateCollector (boot_with (Document malformed))))
    = [LoadError KeyError].
Proof. split; reflexivity. Qed.

Example load_missing_or_unparsable_file :
  coordinates (snd (CoordinateCollector boot)) = initial_coordinates /\
  coordinates (snd (CoordinateCollector (boot_with Garbage)))
    = initial_coordinates.
Proof. split; reflexivity. Qed.


(** The collector of [fresh] after one pool was added, on a disk that
    refuses the write. *)
Definition one_pool : process :=
  snd (add_coordinate veracruz_lat veracruz_lon (u "pool") (u "Casa1") fresh).



(** C4.  [add_coordinate] looks at the lower-cased category token only.  A
    token that, lower-cased, is none of [pool], [piscina], [p], [no_pool],
    [no_piscina], [n] makes it return [False] with the store untouched,
    whatever the store is.  On a store with its two lists, the record with
    the fields [lat], [lon], [description] and [captured] (at [False]) is
    appended to [pools] exactly for [pool], [piscina], [p], to [no_pools]
    exactly for [no_pool], [no_piscina], [n], whatever the description is,
    and the other list is as before.  With the metadata in place as well,
    the call returns [True] for these six tokens when the description can
    be printed; when it cannot, the [print] that follows the append raises
    [UnicodeEncodeError]. *)
Theorem add_coordinate_by_category
  (lat lon : float) (t desc : str) (p : process) :
  let r := add_coordinate lat lon t desc p in
  let record :=
    VDict [(u "lat", VFloat lat);
           (u "lon", VFloat lon);
           (u "description", VStr desc);
           (u "captured", VBool false)] in
  let is_pool := str_in (lower t) [u "pool"; u "piscina"; u "p"] in
  let is_no_pool :=
    str_in (lower t) [u "no_pool"; u "no_piscina"; u "n"] in
  (is_pool = false -> is_no_pool = false ->
   fst r = Ok false /\ coordinates (snd r) = coordinates p) /\
  (forall pools no_pools,
      records (u "pools") (coordinates p) = Some pools ->
      records (u "no_pools") (coordinates p) = Some no_pools ->
      records (u "pools") (coordinates (snd r))
        = Some (if is_pool then pools ++ [record] else pools) /\
      records (u "no_pools") (coordinates (snd r))
        = Some (if is_no_pool then no_pools ++ [record] else no_pools) /\
      (forall md,
          metadata (coordinates p) = Some md ->
          fst r =
            if is_pool || is_no_pool then
              if str_encodable desc then Ok true
              else Err UnicodeEncodeError
            else Ok false)).
Proof.
  cbv zeta. split.
  - intros Hp Hn.
    rewrite (add_coordinate_invalid lat lon t desc p Hp Hn).
    split; reflexivity.
  - intros pools no_pools H1 H2.
    destruct (add_coordinate_lists lat lon t desc p H1 H2) as [Hp Hn].
    split; [exact Hp|]. split; [exact Hn|].
    intros md H3.
    exact (proj1 (add_coordinate_records lat lon t desc p H1 H2 H3)).
Qed.

(** The store of a fresh collector after one call with the token [t]. *)
Definition categorised (t : str) : value :=
  coordinates
    (snd (add_coordinate veracruz_lat veracruz_lon t (u "Casa1") fresh)).

Definition casa1 : value :=
  VDict [(u "lat", VFloat veracruz_lat);
         (u "lon", VFloat veracruz_lon);
         (u "description", VStr (u "Casa1"));
         (u "captured", VBool false)].

Lemma add_coordinate_by_category_witness :
  (forall t,
      In t [u "pool"; u "Piscina"; u "P"; u "PISCINA"] ->
      records (u "pools") (categorised t) = Some [casa1] /\
      records (u "no_pools") (categorised t) = Some []) /\
  (forall t,
      In t [u "NO_POOL"; u "no_piscina"; u "N"; u "n"] ->
      records (u "pools") (categorised t) = Some [] /\
      records (u "no_pools") (categorised t) = Some [casa1]) /\
  (forall t,
      In t [u "castle"; u "pools"; u "no pool"; u ""] ->
      fst (add_coordinate veracruz_lat veracruz_lon t (u "Casa1") fresh)
      = Ok false /\
      categorised t = coordinates fresh).
Proof.
  assert (Hlists :
            forall t,
              records (u "pools") (categorised t)
              = Some (if str_in (lower t) [u "pool"; u "piscina"; u "p"]
                      then [] ++ [casa1] else []) /\
              records (u "no_pools") (categorised t)
              = Some (if str_in (lower t)
                           [u "no_pool"; u "no_piscina"; u "n"]
                      then [] ++ [casa1] else [])).
  { intros t.
    destruct (add_coordinate_by_category veracruz_lat veracruz_lon t
                (u "Casa1") fresh) as [_ H].
    destruct (H [] [] eq_refl eq_refl) as (Hp & Hn & _).
    split; [exact Hp|exact Hn]. }
  split; [|split].
  - intros t [<-|[<-|[<-|[<-|[]]]]]; exact (Hlists _).
  - intros t [<-|[<-|[<-|[<-|[]]]]]; exact (Hlists _).
  - intros t Ht.
    destruct (add_coordinate_by_category veracruz_lat veracruz_lon t
                (u "Casa1") fresh) as [H _].
    destruct Ht as [<-|[<-|[<-|[<-|[]]]]]; exact (H eq_refl eq_refl).
Defined.

Example add_castle_is_refused :
  add_coordinate veracruz_lat veracruz_lon (u "castle") (u "Casa1") fresh
  = (Ok false, with_stdout [InvalidType] fresh).
Proof. reflexivity. Qed.

(** C3, the stale file.  The file holds one pool record and the counts of
    an empty store; the collector loads it and saves it again: the counts
    in the file are still those of an empty store. *)
Definition stale_store : value :=
  VDict [(k_pools, VList [coord_data veracruz_lat veracruz_lon (u "Casa1")]);
         (k_no_pools, VList []);
         (k_metadata,
          VDict [(k_total_pools, VInt 0);
                 (k_total_no_pools, VInt 0);
                 (k_last_updated, VStr [])])].

(** C3: the file after the save holds the stale store, whose counts are
    not the lengths of its lists. *)
Lemma save_keeps_stale_counts :
  file (snd (save_coordinates
               (snd (CoordinateCollector (boot_with (Document stale_store))))))
    = Some (Document stale_store) /\
  ~ counts_consistent stale_store.
Proof.
  split; [reflexivity|].
  intros (pools & no_pools & md & Hp & _ & Hm & Ht & _).
  cbv in Hp. cbv in Hm. injection Hp as <-. injection Hm as <-.
  cbv in Ht. discriminate.
Qed.

Lemma counts_consistent_with_counts now d pools no_pools md :
  dict_get k_pools d = Some (VList pools) ->
  dict_get k_no_pools d = Some (VList no_pools) ->
  counts_consistent
    (with_counts now d (List.length pools) (List.length no_pools) md).
Proof.
  intros Hp Hn. exists pools, no_pools. eexists.
  rewrite !records_with_counts by reflexivity.
  rewrite (records_of_dict _ _ Hp), (records_of_dict _ _ Hn).
  rewrite metadata_with_counts.
  repeat split.
  - rewrite !dict_get_set_other by reflexivity. apply dict_get_set_same.
  - rewrite dict_get_set_other by reflexivity. apply dict_get_set_same.
Qed.

Lemma add_coordinate_counts lat lon t desc p :
  well_formed (coordinates p) ->
  fst (add_coordinate lat lon t desc p) = Ok true ->
  counts_consistent (coordinates (snd (add_coordinate lat lon t desc p))).
Proof.
  intros Hwf Hok.
  destruct (well_formed_inv Hwf)
    as (d & pools & no_pools & md & Hc & Hp & Hn & Hm).
  assert (Hd : str_encodable desc = true).
  { destruct (str_encodable desc) eqn:Ed; [reflexivity|exfalso].
    destruct (str_in (lower t) pool_tokens) eqn:Ep;
      [|destruct (str_in (lower t) no_pool_tokens) eqn:En].
    - destruct (@add_coordinate_unprintable lat lon t desc p d pools Hc Ed)
        as [H _].
      rewrite (H Ep Hp) in Hok. discriminate.
    - destruct (@add_coordinate_unprintable lat lon t desc p d no_pools
                  Hc Ed) as [_ H].
      rewrite (H Ep En Hn) in Hok. discriminate.
    - rewrite (add_coordinate_invalid lat lon t desc p Ep En) in Hok.
      discriminate. }
  destruct (str_in (lower t) pool_tokens) eqn:Ep;
    [|destruct (str_in (lower t) no_pool_tokens) eqn:En].
  - rewrite (add_coordinate_pool lat lon t desc p Hc Hp Hn Hm Ep Hd).
    cbn [snd coordinates with_ticks with_coordinates].
    apply counts_consistent_with_counts.
    + apply dict_get_set_same.
    + rewrite dict_get_set_other by reflexivity. exact Hn.
  - rewrite (add_coordinate_no_pool lat lon t desc p Hc Hp Hn Hm Ep En Hd).
    cbn [snd coordinates with_ticks with_coordinates].
    apply counts_consistent_with_counts.
    + rewrite dict_get_set_other by reflexivity. exact Hp.
    + apply dict_get_set_same.
  - rewrite (add_coordinate_invalid lat lon t desc p Ep En) in Hok.
    discriminate.
Qed.

(** C3, as the code has it.  A save that writes the file puts the store in
    it as it stands, counts included, and does not touch the store.  The
    counts it writes are the lengths of the two lists when the store is the
    empty store of the constructor, and when the store was last changed by
    an [add_coordinate] that returned [True]. *)
Theorem save_writes_store_verbatim (p : process) :
  writable p = WriteOk ->
  encodable (coordinates p) = true ->
  file (snd (save_coordinates p)) = Some (Document (coordinates p)) /\
  coordinates (snd (save_coordinates p)) = coordinates p /\
  ((coordinates p = initial_coordinates \/
    exists p0 lat lon t desc,
      well_formed (coordinates p0) /\
      fst (add_coordinate lat lon t desc p0) = Ok true /\
      coordinates p = coordinates (snd (add_coordinate lat lon t desc p0))) ->
   counts_consistent (coordinates p)).
Proof.
  intros Hw He.
  destruct (save_coordinates_writes p Hw He) as [_ (Hc & Hf & _)].
  split; [exact Hf|]. split; [exact Hc|].
  intros [Hinit|(p0 & lat & lon & t & desc & Hwf & Hok & Heq)].
  - rewrite Hinit. exists [], []. eexists. repeat split.
  - rewrite Heq. now apply add_coordinate_counts.
Qed.

(** Two pools and one area without a pool, entered into a fresh collector
    and saved. *)
Definition two_pools_one_no_pool : process :=
  snd (add_coordinate veracruz_lat veracruz_lon (u "n") (u "Parque")
    (snd (add_coordinate veracruz_lat veracruz_lon (u "p") (u "Casa2")
      one_pool))).

Lemma save_writes_store_verbatim_witness :
  writable two_pools_one_no_pool = WriteOk /\
  encodable (coordinates two_pools_one_no_pool) = true /\
  file (snd (save_coordinates two_pools_one_no_pool))
    = Some (Document (coordinates two_pools_one_no_pool)) /\
  counts_consistent (coordinates two_pools_one_no_pool).
Proof.
  assert (Hw : writable two_pools_one_no_pool = WriteOk)
    by (vm_compute; reflexivity).
  assert (He : encodable (coordinates two_pools_one_no_pool) = true)
    by (vm_compute; reflexivity).
  destruct (save_writes_store_verbatim two_pools_one_no_pool Hw He)
    as (Hf & _ & Hcounts).
  split; [exact Hw|]. split; [exact He|]. split; [exact Hf|].
  apply Hcounts. right.
  exists (snd (add_coordinate veracruz_lat veracruz_lon (u "p") (u "Casa2")
                 one_pool)),
    veracruz_lat, veracruz_lon, (u "n"), (u "Parque").
  split; [|split; vm_compute; reflexivity].
  exists [coord_data veracruz_lat veracruz_lon (u "Casa1");
          coord_data veracruz_lat veracruz_lon (u "Casa2")], [],
    [(k_total_pools, VInt 2); (k_total_no_pools, VInt 0);
     (k_last_updated, VStr (u "2024-03-07 09:05:00"))].
  repeat split; vm_compute; reflexivity.
Defined.

(** The two counts in the coordinates file. *)
Definition persisted_counts (p : process) : option (value * value) :=
  match file p with
  | Some (Document v) =>
      match metadata v with
      | Some md =>
          match dict_get k_total_pools md, dict_get k_total_no_pools md with
          | Some a, Some b => Some (a, b)
          | _, _ => None
          end
      | None => None
      end
  | _ => None
  end.

Example save_two_pools_one_no_pool :
  persisted_counts (snd (save_coordinates two_pools_one_no_pool))
  = Some (VInt 2, VInt 1).
Proof. vm_compute. reflexivity. Qed.

(** The store an add with a recognised category leaves behind: the record
    at the end of its list, the three fields of [update_metadata] rewritten
    and every other metadata field as it was. *)
Lemma add_coordinate_store lat lon t desc p pools no_pools md :
  records k_pools (coordinates p) = Some pools ->
  records k_no_pools (coordinates p) = Some no_pools ->
  metadata (coordinates p) = Some md ->
  str_in (lower t) pool_tokens || str_in (lower t) no_pool_tokens = true ->
  encodable (coordinates p) = true ->
  str_encodable desc = true ->
  let r := add_coordinate lat lon t desc p in
  fst r = Ok true /\
  writable (snd r) = writable p /\
  readable (snd r) = readable p /\
  encodable (coordinates (snd r)) = true /\
  exists md',
    metadata (coordinates (snd r)) = Some md' /\
    forall k,
      str_in k [k_total_pools; k_total_no_pools; k_last_updated] = false ->
      dict_get k md' = dict_get k md.
Proof.
  intros H1 H2 H3 Ht He Hd.
  destruct (well_formed_inv (c := coordinates p))
    as (d & pools' & no_pools' & md0 & Hc & Hp & Hn & Hm).
  { now exists pools, no_pools, md. }
  assert (md0 = md) as ->.
  { unfold metadata in H3. rewrite Hc in H3. cbn [getitem] in H3.
    rewrite Hm in H3. congruence. }
  rewrite Hc, encodable_dict in He.
  pose proof (encodable_dict_get _ _ He Hm) as Hmd.
  rewrite encodable_dict in Hmd.
  assert (Hextra : forall now n m k,
    str_in k [k_total_pools; k_total_no_pools; k_last_updated] = false ->
    dict_get k (dict_set k_last_updated (VStr now)
                  (dict_set k_total_no_pools (VInt m)
                     (dict_set k_total_pools (VInt n) md)))
    = dict_get k md).
  { intros now n m k Hk. cbn [str_in existsb] in Hk.
    rewrite orb_false_r in Hk.
    apply orb_false_elim in Hk as [Hk1 Hk].
    apply orb_false_elim in Hk as [Hk2 Hk3].
    now rewrite !dict_get_set_other by assumption. }
  cbv zeta.
  destruct (str_in (lower t) pool_tokens) eqn:Ep.
  - rewrite (add_coordinate_pool lat lon t desc p Hc Hp Hn Hm Ep Hd).
    cbn [fst snd coordinates writable readable with_ticks with_coordinates
         with_stdout].
    repeat (split; [reflexivity|]). split.
    + apply encodable_with_counts; try assumption.
      * apply encodable_append; try assumption; try reflexivity.
        now apply encodable_coord_data.
      * apply str_encodable_strftime.
    + eexists. split; [apply metadata_with_counts|]. intros k Hk.
      now apply Hextra.
  - cbn [orb] in Ht.
    rewrite (add_coordinate_no_pool lat lon t desc p Hc Hp Hn Hm Ep Ht Hd).
    cbn [fst snd coordinates writable readable with_ticks with_coordinates
         with_stdout].
    repeat (split; [reflexivity|]). split.
    + apply encodable_with_counts; try assumption.
      * apply encodable_append; try assumption; try reflexivity.
        now apply encodable_coord_data.
      * apply str_encodable_strftime.
    + eexists. split; [apply metadata_with_counts|]. intros k Hk.
      now apply Hextra.
Qed.

(** C2.  On a store with its two lists and its metadata, an add with a
    recognised category, then a save that writes the file, then a load
    (by [load_existing] on the same collector, or by constructing a new
    collector when the file can be read) gives back the store as it was
    after the add: the two lists with the new record at the end of its
    list, every record unchanged, and every metadata field other than the
    three that [update_metadata] rewrites as it was before the add. *)
Theorem add_save_load_round_trip
  (lat lon : float) (t desc : str) (p : process)
  (pools no_pools : list value) (md : list (str * value)) :
  records k_pools (coordinates p) = Some pools ->
  records k_no_pools (coordinates p) = Some no_pools ->
  metadata (coordinates p) = Some md ->
  str_in (lower t) pool_tokens || str_in (lower t) no_pool_tokens = true ->
  writable p = WriteOk ->
  encodable (coordinates p) = true ->
  str_encodable desc = true ->
  let item := coord_data lat lon desc in
  let p1 := snd (add_coordinate lat lon t desc p) in
  let p2 := snd (save_coordinates p1) in
  let p3 := snd (load_existing p2) in
  fst (add_coordinate lat lon t desc p) = Ok true /\
  file p2 = Some (Document (coordinates p1)) /\
  coordinates p3 = coordinates p1 /\
  (readable p = true ->
   coordinates (snd (CoordinateCollector p2)) = coordinates p1) /\
  records k_pools (coordinates p3)
    = Some (if str_in (lower t) pool_tokens then pools ++ [item] else pools) /\
  records k_no_pools (coordinates p3)
    = Some (if str_in (lower t) no_pool_tokens then no_pools ++ [item]
            else no_pools) /\
  exists md',
    metadata (coordinates p3) = Some md' /\
    forall k,
      str_in k [k_total_pools; k_total_no_pools; k_last_updated] = false ->
      dict_get k md' = dict_get k md.
Proof.
  intros H1 H2 H3 Ht Hw He Hd item p1 p2 p3.
  destruct (add_coordinate_store lat lon t desc p H1 H2 H3 Ht He Hd)
    as (Hok & Hw1 & Hr1 & He1 & md' & Hmd' & Hextra).
  fold p1 in Hw1, Hr1, He1, Hmd'.
  rewrite Hw in Hw1.
  destruct (save_coordinates_writes p1 Hw1 He1) as [_ (Hc2 & Hf2 & Hr2 & _)].
  fold p2 in Hc2, Hf2, Hr2. cbn [coordinates file readable with_file] in *.
  destruct (collector_coordinates p2) as (_ & Hnew).
  destruct (load_existing_coordinates p2) as (_ & Hload & _).
  fold p3 in Hload. cbn [coordinates with_coordinates] in Hload.
  rewrite Hf2 in Hnew, Hload.
  assert (Hc3 : coordinates p3 = coordinates p1).
  { rewrite Hload. destruct (readable p2); congruence. }
  destruct (add_coordinate_records lat lon t desc p H1 H2 H3)
    as (_ & Hp1 & Hn1).
  fold item p1 in Hp1, Hn1.
  split; [exact Hok|]. split; [exact Hf2|]. split; [exact Hc3|].
  split.
  { intros Hr. rewrite Hnew, Hr2, Hr1, Hr. reflexivity. }
  rewrite Hc3. split; [exact Hp1|]. split; [exact Hn1|].
  exists md'. split; assumption.
Qed.

Lemma add_save_load_round_trip_witness :
  file (snd (save_coordinates one_pool))
    = Some (Document (coordinates one_pool)) /\
  coordinates (snd (load_existing (snd (save_coordinates one_pool))))
    = coordinates one_pool /\
  records k_pools
    (coordinates (snd (load_existing (snd (save_coordinates one_pool)))))
    = Some [coord_data veracruz_lat veracruz_lon (u "Casa1")].
Proof.
  destruct (@add_save_load_round_trip veracruz_lat veracruz_lon
              (u "pool") (u "Casa1") fresh [] []
              [(k_total_pools, VInt 0); (k_total_no_pools, VInt 0);
               (k_last_updated, VStr [])])
    as (_ & Hf & Hc & _ & Hp & _); try (vm_compute; reflexivity).
  split; [exact Hf|]. split; [exact Hc|exact Hp].
Defined.

(** The capture driver's two metadata fields survive an add, a save and a
    load by a new collector. *)
Definition captured_store : value :=
  VDict [(k_pools,
          VList [VDict [(u "lat", VFloat veracruz_lat);
                        (u "lon", VFloat veracruz_lon);
                        (u "description", VStr (u "Casa1"));
                        (u "captured", VBool true)]]);
         (k_no_pools, VList []);
         (k_metadata,
          VDict [(k_total_pools, VInt 1);
                 (k_total_no_pools, VInt 0);
                 (k_last_updated, VStr (u "2024-03-06 18:00:00"));
                 (u "last_capture", VStr (u "2024-03-06 19:30:00"));
                 (u "capture_completed", VBool true)])].

Definition capture_fields (c : value) : option (value * value) :=
  match metadata c with
  | Some md =>
      match dict_get (u "last_capture") md,
            dict_get (u "capture_completed") md with
      | Some a, Some b => Some (a, b)
      | _, _ => None
      end
  | None => None
  end.

Example capture_metadata_survives :
  let p := snd (CoordinateCollector (boot_with (Document captured_store))) in
  let p1 := snd (add_coordinate veracruz_lat veracruz_lon (u "n")
                   (u "Parque") p) in
  let p2 := snd (save_coordinates p1) in
  capture_fields (coordinates (snd (CoordinateCollector p2)))
  = Some (VStr (u "2024-03-06 19:30:00"), VBool true).
Proof. vm_compute. reflexivity. Qed.

(** C2, a store the claim does not cover.  The coordinates file may hold
    a description written with the escape of a lone surrogate (a backslash,
    the letter u and the four hexadecimal digits d800): [json.load] turns
    it into a string of that one code point, which UTF-8 cannot encode. *)
Definition surrogate_store : value :=
  VDict [(k_pools,
          VList [VDict [(u "lat", VFloat veracruz_lat);
                        (u "lon", VFloat veracruz_lon);
                        (u "description", VStr [55296%N]);
                        (u "captured", VBool true)]]);
         (k_no_pools, VList []);
         (k_metadata,
          VDict [(k_total_pools, VInt 1);
                 (k_total_no_pools, VInt 0);
                 (k_last_updated, VStr (u "2024-03-06 18:00:00"));
                 (u "last_capture", VStr (u "2024-03-06 19:30:00"));
                 (u "capture_completed", VBool true)])].

(** C2: a collector that loaded that store adds a pool and returns [True],
    with two records in the list; [save_coordinates] opens the file, the
    dump stops at the surrogate and the handler prints the error, so the
    file no longer holds a document; the collector constructed next, whose
    [load_existing] reads that file, has no records and has lost the two
    fields of the capture driver. *)
Lemma round_trip_loses_unencodable_store :
  let p := snd (CoordinateCollector (boot_with (Document surrogate_store))) in
  let r := add_coordinate veracruz_lat veracruz_lon (u "pool") (u "Casa1") p in
  let p2 := snd (save_coordinates (snd r)) in
  let p3 := snd (CoordinateCollector p2) in
  coordinates p = surrogate_store /\
  fst r = Ok true /\
  option_map (@length value) (records k_pools (coordinates (snd r)))
    = Some 2 /\
  fst (save_coordinates (snd r)) = Ok tt /\
  stdout p2 = stdout (snd r) ++ [SaveError UnicodeEncodeError] /\
  file p2 = Some Garbage /\
  stdout p3 = stdout p2 ++ [LoadError JSONDecodeError] /\
  records k_pools (coordinates p3) = Some [] /\
  records k_no_pools (coordinates p3) = Some [] /\
  capture_fields (coordinates p3) = None.
Proof. vm_compute. repeat split. Qed.

End StoreTheorems.

(* ===================================================================== *)
(** * Facts about splitting and matching *)
(* ===================================================================== *)

Module ParseFacts.
Import Text PyFloat Regex Json Collector StoreFacts.

(** A non-empty run of decimal digits, as [\d+] matches it. *)
Definition number (ds : str) : Prop :=
  ds <> [] /\ forallb is_digit ds = true.

(** ** The longest prefix of digits *)

(** The longest prefix of decimal digits of a string, and what follows
    it: what a greedy [\d+] takes when nothing makes it give back. *)
Fixpoint take_digits (s : str) : str * str :=
  match s with
  | x :: s' =>
      if is_digit x then let (ds, r) := take_digits s' in (x :: ds, r)
      else ([], s)
  | [] => ([], [])
  end.


Lemma take_digits_app s :
  fst (take_digits s) ++ snd (take_digits s) = s.
Proof.
  induction s as [|x s IH]; simpl; [reflexivity|].
  destruct (is_digit x); [|reflexivity].
  destruct (take_digits s) as [ds r]. simpl in *. now rewrite IH.
Qed.

Lemma take_digits_digits s : forallb is_digit (fst (take_digits s)) = true.
Proof.
  induction s as [|x s IH]; simpl; [reflexivity|].
  destruct (is_digit x) eqn:E; [|reflexivity].
  destruct (take_digits s) as [ds r]. simpl in *. now rewrite E, IH.
Qed.

Lemma take_digits_none s r : take_digits s = ([], r) -> r = s.
Proof.
  intros H. pose proof (take_digits_app s) as Happ.
  rewrite H in Happ. now symmetry.
Qed.

Lemma take_digits_stop ds c r :
  forallb is_digit ds = true -> is_digit c = false ->
  take_digits (ds ++ c :: r) = (ds, c :: r).
Proof.
  intros Hds Hc. induction ds as [|x ds IH]; simpl.
  - now rewrite Hc.
  - simpl in Hds. apply andb_prop in Hds as [Hx Hds].
    now rewrite Hx, IH.
Qed.

(** ** [(\d+)] in front of something that no digit starts *)

Lemma greedy_digits_sep (k : str -> option (list str)) taken s :
  (forall x s', is_digit x = true -> k (x :: s') = None) ->
  greedy_digits k taken s =
    match take_digits s with
    | ([], _) => None
    | (ds, r) => option_map (cons (taken ++ ds)) (k r)
    end.
Proof.
  intros Hk. revert taken. induction s as [|x s IH]; intros taken; simpl.
  - reflexivity.
  - destruct (is_digit x) eqn:Ex; [|reflexivity].
    rewrite IH. destruct (take_digits s) as [ds r] eqn:Et.
    destruct ds as [|y ds].
    + apply take_digits_none in Et. now subst r.
    + rewrite <- app_assoc. simpl.
      destruct (k r) as [g|]; simpl; [reflexivity|].
      pose proof (take_digits_app s) as Happ.
      pose proof (take_digits_digits s) as Hdig.
      rewrite Et in Happ, Hdig. simpl in Happ, Hdig.
      apply andb_prop in Hdig as [Hy _].
      rewrite <- Happ. now rewrite Hk.
Qed.

Lemma rmatch_digits_lit c p s g :
  is_digit c = false ->
  rmatch (Digits :: Lit c :: p) s = Some g <->
  exists ds r g',
    number ds /\ s = ds ++ c :: r /\ rmatch p r = Some g' /\ g = ds :: g'.
Proof.
  intros Hc. cbn [rmatch].
  rewrite greedy_digits_sep.
  2:{ intros x s' Hx. destruct (N.eqb x c) eqn:E; [|reflexivity].
      apply N.eqb_eq in E. subst x. congruence. }
  split.
  - destruct (take_digits s) as [ds r0] eqn:Et.
    pose proof (take_digits_app s) as Happ.
    pose proof (take_digits_digits s) as Hdig.
    rewrite Et in Happ, Hdig. simpl in Happ, Hdig.
    destruct ds as [|y ds]; [discriminate|].
    destruct r0 as [|x r]; [discriminate|].
    destruct (N.eqb x c) eqn:E; [|discriminate].
    apply N.eqb_eq in E. subst x.
    destruct (rmatch p r) as [g'|] eqn:Er; [|discriminate].
    simpl. intros [= <-].
    exists (y :: ds), r, g'. repeat split; auto. discriminate.
  - intros (ds & r & g' & [Hne Hds] & -> & Hr & ->).
    rewrite (@take_digits_stop ds c r Hds Hc).
    destruct ds as [|y ds]; [congruence|].
    now rewrite N.eqb_refl, Hr.
Qed.

Lemma rmatch_one_of cs s g :
  rmatch [OneOf cs] s = Some g <->
  exists h tail, s = h :: tail /\ char_in h cs = true /\ g = [[h]].
Proof.
  cbn [rmatch]. split.
  - destruct s as [|h tail]; [discriminate|].
    destruct (char_in h cs) eqn:E; [|discriminate].
    simpl. intros [= <-]. now exists h, tail.
  - intros (h & tail & -> & Hh & ->). now rewrite Hh.
Qed.

(** The two DMS patterns match a string exactly when it begins with
    digits, the degree sign, digits, an apostrophe, digits, a double quote
    and one of the hemisphere letters; the groups are the three runs of
    digits and the letter. *)
Lemma rmatch_dms_iff hs tok g :
  rmatch (dms_pattern hs) tok = Some g <->
  exists d m s h tail,
    number d /\ number m /\ number s /\ char_in h hs = true /\
    tok = d ++ deg :: m ++ apos :: s ++ dquote :: h :: tail /\
    g = [d; m; s; [h]].
Proof.
  unfold dms_pattern. split.
  - intros H.
    apply rmatch_digits_lit in H as (d & r1 & g1 & Hd & -> & H & ->);
      [|reflexivity].
    apply rmatch_digits_lit in H as (m & r2 & g2 & Hm & -> & H & ->);
      [|reflexivity].
    apply rmatch_digits_lit in H as (s & r3 & g3 & Hs & -> & H & ->);
      [|reflexivity].
    apply rmatch_one_of in H as (h & tail & -> & Hh & ->).
    now exists d, m, s, h, tail.
  - intros (d & m & s & h & tail & Hd & Hm & Hs & Hh & -> & ->).
    apply rmatch_digits_lit; [reflexivity|].
    exists d, (m ++ apos :: s ++ dquote :: h :: tail), [m; s; [h]].
    repeat split; try apply Hd.
    apply rmatch_digits_lit; [reflexivity|].
    exists m, (s ++ dquote :: h :: tail), [s; [h]].
    repeat split; try apply Hm.
    apply rmatch_digits_lit; [reflexivity|].
    exists s, (h :: tail), [[h]].
    repeat split; try apply Hs.
    apply rmatch_one_of. now exists h, tail.
Qed.

(** ** ASCII digits *)

Definition ascii_number (ds : str) : Prop :=
  ds <> [] /\ forallb is_ascii_digit ds = true.

Lemma ascii_digit_bounds c :
  is_ascii_digit c = true -> (48 <= c <= 57)%N.
Proof.
  unfold is_ascii_digit. intros H. apply andb_prop in H as [H1 H2].
  apply N.leb_le in H1, H2. lia.
Qed.

Lemma ascii_digit_value c :
  is_ascii_digit c = true -> digit_value c = Some (Z.of_N c - 48)%Z.
Proof.
  intros H. pose proof (ascii_digit_bounds c H) as Hb.
  unfold digit_value, decimal_zeros. cbn [find].
  replace (N.leb 48 c) with true by (symmetry; apply N.leb_le; lia).
  replace (N.ltb c (48 + 10)) with true by (symmetry; apply N.ltb_lt; lia).
  cbn [andb]. f_equal. lia.
Qed.

Lemma ascii_digit_is_digit c : is_ascii_digit c = true -> is_digit c = true.
Proof. intros H. unfold is_digit. now rewrite (ascii_digit_value c H). Qed.

Lemma ascii_digit_not_space c :
  is_ascii_digit c = true -> is_space c = false.
Proof.
  intros H. apply not_true_is_false. intros Hs.
  unfold is_space in Hs. apply existsb_exists in Hs as (x & Hin & Hx).
  apply N.eqb_eq in Hx. subst x. unfold whitespace in Hin. simpl in Hin.
  repeat (destruct Hin as [<-|Hin]; [discriminate H|]). exact Hin.
Qed.

Lemma ascii_number_number ds : ascii_number ds -> number ds.
Proof.
  intros [Hne H]. split; [assumption|].
  apply forallb_forall. intros c Hc.
  apply ascii_digit_is_digit. revert c Hc. now apply forallb_forall.
Qed.

(** ** [int] on what [\d+] captured *)

Definition int_step (acc : result Z) (c : char) : result Z :=
  match acc, digit_value c with
  | Ok n, Some d => Ok (10 * n + d)%Z
  | Ok _, None => Err ValueError
  | Err e, _ => Err e
  end.

(** The string is not longer than the interpreter lets an integer string
    be. *)
Definition within_limit (limit : nat) (ds : str) : Prop :=
  limit = 0 \/ List.length ds <= limit.

Lemma int_of_digits_fold limit ds :
  ds <> [] -> within_limit limit ds ->
  int_of_digits limit ds = fold_left int_step ds (Ok 0%Z).
Proof.
  intros Hne Hl. unfold int_of_digits.
  replace (negb (Nat.eqb limit 0) && Nat.ltb limit (List.length ds))
    with false.
  - destruct ds; [congruence|reflexivity].
  - symmetry. destruct Hl as [->|Hl]; [reflexivity|].
    apply andb_false_iff. right. apply Nat.ltb_ge. exact Hl.
Qed.

Lemma int_of_digits_within limit ds D :
  int_of_digits limit ds = Ok D -> within_limit limit ds.
Proof.
  unfold int_of_digits, within_limit.
  destruct (Nat.eqb limit 0) eqn:E0; [apply Nat.eqb_eq in E0; now left|].
  destruct (Nat.ltb limit (List.length ds)) eqn:El; [discriminate|].
  apply Nat.ltb_ge in El. now right.
Qed.

Lemma fold_int_step_ascii ds n :
  forallb is_ascii_digit ds = true ->
  fold_left int_step ds (Ok n)
  = Ok (fold_left (fun acc c => 10 * acc + (Z.of_N c - 48))%Z ds n).
Proof.
  revert n. induction ds as [|c ds IH]; intros n H; simpl; [reflexivity|].
  simpl in H. apply andb_prop in H as [Hc Hds].
  rewrite (ascii_digit_value c Hc). now apply IH.
Qed.

Lemma int_of_ascii_number limit ds :
  ascii_number ds -> within_limit limit ds ->
  int_of_digits limit ds = Ok (ascii_digits_to_Z ds).
Proof.
  intros [Hne H] Hl. rewrite int_of_digits_fold by assumption.
  now apply fold_int_step_ascii.
Qed.

Lemma fold_int_step_number ds n :
  forallb is_digit ds = true ->
  exists D, fold_left int_step ds (Ok n) = Ok D.
Proof.
  revert n. induction ds as [|c ds IH]; intros n H; simpl; [eauto|].
  simpl in H. apply andb_prop in H as [Hc Hds].
  unfold is_digit in Hc. destruct (digit_value c) as [d|]; [|discriminate].
  now apply IH.
Qed.

(** [int] accepts every string that [\d+] can capture, up to the limit on
    its length. *)
Lemma int_of_number limit ds :
  number ds -> within_limit limit ds ->
  exists D, int_of_digits limit ds = Ok D.
Proof.
  intros [Hne H] Hl. rewrite int_of_digits_fold by assumption.
  now apply fold_int_step_number.
Qed.

(** ** [split] *)

Definition no_space (w : str) : Prop :=
  forallb (fun c => negb (is_space c)) w = true.

Lemma no_space_cons c w :
  no_space (c :: w) <-> is_space c = false /\ no_space w.
Proof.
  unfold no_space. simpl. rewrite andb_true_iff, negb_true_iff. tauto.
Qed.

Lemma no_space_app a b : no_space (a ++ b) <-> no_space a /\ no_space b.
Proof. unfold no_space. now rewrite forallb_app, andb_true_iff. Qed.

Lemma split_word w : w <> [] -> no_space w -> split w = [w].
Proof.
  induction w as [|x w IH]; intros Hne Hw; [congruence|].
  apply no_space_cons in Hw as [Hx Hw].
  cbn [split]. rewrite Hx. destruct w as [|y w]; [reflexivity|].
  pose proof Hw as Hw'. apply no_space_cons in Hw' as [Hy _]. rewrite Hy.
  now rewrite IH.
Qed.

Lemma split_word_space w c rest :
  w <> [] -> no_space w -> is_space c = true ->
  split (w ++ c :: rest) = w :: split rest.
Proof.
  intros Hne Hw Hc. induction w as [|x w IH]; [congruence|].
  apply no_space_cons in Hw as [Hx Hw].
  cbn [app split]. rewrite Hx. destruct w as [|y w].
  - cbn [app]. rewrite Hc. cbn [split]. now rewrite Hc.
  - pose proof Hw as Hw'. apply no_space_cons in Hw' as [Hy _].
    cbn [app]. rewrite Hy. cbn [app] in IH. rewrite IH; auto. discriminate.
Qed.

(** ** [convert_dms_to_decimal] *)

(** The value of a DMS token whose four parts are known. *)
Definition dms_value (limit : nat) (negative : char) (d m s : str)
  (h : char) : result float :=
  (let? deg_ := int_of_digits limit d in
   let? min_ := int_of_digits limit m in
   let? sec_ := int_of_digits limit s in
   let? decimal := dms_sum deg_ min_ sec_ in
   Ok (if N.eqb h negative then fneg decimal else decimal))%result.

(** [tok] begins with a DMS token of hemisphere [hs] whose value is [x]. *)
Definition dms_prefix (limit : nat) (hs : list char) (negative : char)
  (tok : str) (x : float) : Prop :=
  exists d m s h tail,
    number d /\ number m /\ number s /\ char_in h hs = true /\
    tok = d ++ deg :: m ++ apos :: s ++ dquote :: h :: tail /\
    dms_value limit negative d m s h = Ok x.

Lemma dms_part_groups limit negative d m s h :
  (let? deg_ := int_of_digits limit d in
   let? min_ := int_of_digits limit m in
   let? sec_ := int_of_digits limit s in
   let? decimal := dms_sum deg_ min_ sec_ in
   Ok (if str_eqb [h] [negative] then fneg decimal else decimal))%result
  = dms_value limit negative d m s h.
Proof.
  unfold dms_value. cbn [str_eqb]. now rewrite andb_true_r.
Qed.

Lemma dms_part_prefix limit hs negative d m s h tail :
  number d -> number m -> number s -> char_in h hs = true ->
  dms_part limit hs negative
    (d ++ deg :: m ++ apos :: s ++ dquote :: h :: tail)
  = dms_value limit negative d m s h.
Proof.
  intros Hd Hm Hs Hh. unfold dms_part.
  assert (Hg : rmatch (dms_pattern hs)
                 (d ++ deg :: m ++ apos :: s ++ dquote :: h :: tail)
               = Some [d; m; s; [h]]).
  { apply rmatch_dms_iff. now exists d, m, s, h, tail. }
  rewrite Hg. now apply dms_part_groups.
Qed.

Lemma dms_part_iff limit hs negative tok x :
  dms_part limit hs negative tok = Ok x <->
  dms_prefix limit hs negative tok x.
Proof.
  split.
  - unfold dms_part.
    destruct (rmatch (dms_pattern hs) tok) as [g|] eqn:Hg; [|discriminate].
    apply rmatch_dms_iff in Hg
      as (d & m & s & h & tail & Hd & Hm & Hs & Hh & -> & ->).
    rewrite dms_part_groups. intros Hv.
    now exists d, m, s, h, tail.
  - intros (d & m & s & h & tail & Hd & Hm & Hs & Hh & -> & Hv).
    now rewrite dms_part_prefix.
Qed.

(** [convert_dms_to_decimal] never raises, and what it returns depends on
    the first two tokens only. *)
Lemma convert_dms_fst coord_string p :
  let limit := int_max_str_digits p in
  fst (convert_dms_to_decimal coord_string p) =
    Ok (match split coord_string with
        | tok1 :: tok2 :: _ =>
            match dms_part limit [letter_N; letter_S] letter_S tok1,
                  dms_part limit [letter_E; letter_W] letter_W tok2 with
            | Ok lat, Ok lon => Some (lat, lon)
            | _, _ => None
            end
        | _ => None
        end).
Proof.
  cbv zeta.
  unfold convert_dms_to_decimal, try_except, bind, lift, index, ret, print,
    int_limit.
  destruct (split coord_string) as [|tok1 [|tok2 rest]]; cbn [nth_error].
  - reflexivity.
  - destruct (dms_part _ [letter_N; letter_S] letter_S tok1); reflexivity.
  - destruct (dms_part _ [letter_N; letter_S] letter_S tok1);
      [|reflexivity].
    destruct (dms_part _ [letter_E; letter_W] letter_W tok2); reflexivity.
Qed.

Lemma convert_dms_console coord_string :
  console_only (convert_dms_to_decimal coord_string).
Proof. unfold convert_dms_to_decimal. console. Qed.

End ParseFacts.

(* ===================================================================== *)
(** * The DMS parser *)
(* ===================================================================== *)

Module DmsTheorems.
Import Text PyFloat Regex Json Collector StoreFacts ParseFacts.
Import StoreTheorems.

(** The text of a DMS token: the digits [d], the degree sign, the digits
    [m], an apostrophe, the digits [s], a double quote, the letter [h]. *)
Definition dms_text (d m s : str) (h : char) : str :=
  d ++ deg :: m ++ apos :: s ++ [dquote; h].

(** The number a string of ASCII digits denotes. *)
Definition decimal (ds : str) : Z := ascii_digits_to_Z ds.

Lemma ascii_number_no_space ds : ascii_number ds -> no_space ds.
Proof.
  intros [_ H]. apply forallb_forall. intros c Hc.
  apply negb_true_iff, ascii_digit_not_space.
  revert c Hc. now apply forallb_forall.
Qed.

Lemma dms_text_no_space d m s h :
  ascii_number d -> ascii_number m -> ascii_number s ->
  char_in h [letter_N; letter_S; letter_E; letter_W] = true ->
  no_space (dms_text d m s h).
Proof.
  intros Hd Hm Hs Hh.
  assert (Hh' : is_space h = false).
  { cbn [char_in existsb] in Hh. rewrite orb_false_r in Hh.
    repeat (apply orb_prop in Hh as [Hh|Hh]);
      apply N.eqb_eq in Hh; subst h; reflexivity. }
  unfold dms_text.
  apply no_space_app; split; [now apply ascii_number_no_space|].
  apply no_space_cons; split; [reflexivity|].
  apply no_space_app; split; [now apply ascii_number_no_space|].
  apply no_space_cons; split; [reflexivity|].
  apply no_space_app; split; [now apply ascii_number_no_space|].
  apply no_space_cons; split; [reflexivity|].
  apply no_space_cons; split; [exact Hh'|reflexivity].
Qed.

Lemma dms_text_not_empty d m s h : dms_text d m s h <> [].
Proof. unfold dms_text. destruct d; discriminate. Qed.

Lemma dms_value_ascii limit negative d m s h :
  ascii_number d -> ascii_number m -> ascii_number s ->
  within_limit limit d -> within_limit limit m -> within_limit limit s ->
  dms_value limit negative d m s h =
    match dms_sum (decimal d) (decimal m) (decimal s) with
    | Ok x => Ok (if N.eqb h negative then fneg x else x)
    | Err e => Err e
    end.
Proof.
  intros Hd Hm Hs Ld Lm Ls. unfold dms_value.
  rewrite !int_of_ascii_number by assumption. reflexivity.
Qed.

(** [dms_sum] spelt out: the sum exists when the three conversions to
    double do, and is then [float(D) + M/60] rounded, plus [S/3600],
    rounded. *)
Lemma dms_sum_formula (D M S : Z) (x : float) :
  dms_sum D M S = Ok x <->
  exists fD fM fS,
    float_of_int D = Ok fD /\
    int_truediv M 60 = Ok fM /\
    int_truediv S 3600 = Ok fS /\
    x = fadd (fadd fD fM) fS.
Proof.
  unfold dms_sum, int_add_float, rbind. split.
  - destruct (int_truediv M 60) as [fM|]; [|discriminate].
    destruct (float_of_int D) as [fD|]; [|discriminate].
    destruct (int_truediv S 3600) as [fS|]; [|discriminate].
    intros [= <-]. now exists fD, fM, fS.
  - intros (fD & fM & fS & -> & -> & -> & ->). reflexivity.
Qed.

(** C1, as the code has it.  For a latitude token and a longitude token
    ([dms_text]) separated by a space, the six numbers D1, M1, S1, D2, M2, S2
    written in ASCII digits, [H1] one of N, S and [H2] one of E, W:
    the parser returns the pair of [D + M/60 + S/3600], computed in double
    precision in that order, the latitude negated exactly when [H1] is S
    and the longitude exactly when [H2] is W, provided the conversions of
    the numbers to doubles do not overflow; when one does, the parser
    returns no pair.  (No number is to be longer than the interpreter lets
    an integer string be.) *)
Theorem convert_dms_to_decimal_formula
  (d1 m1 s1 d2 m2 s2 : str) (h1 h2 : char) (p : process) :
  ascii_number d1 -> ascii_number m1 -> ascii_number s1 ->
  ascii_number d2 -> ascii_number m2 -> ascii_number s2 ->
  Forall (within_limit (int_max_str_digits p)) [d1; m1; s1; d2; m2; s2] ->
  h1 = letter_N \/ h1 = letter_S ->
  h2 = letter_E \/ h2 = letter_W ->
  fst (convert_dms_to_decimal
         (dms_text d1 m1 s1 h1 ++ space :: dms_text d2 m2 s2 h2) p)
  = Ok match dms_sum (decimal d1) (decimal m1) (decimal s1),
             dms_sum (decimal d2) (decimal m2) (decimal s2) with
       | Ok lat, Ok lon =>
           Some (if N.eqb h1 letter_S then fneg lat else lat,
                 if N.eqb h2 letter_W then fneg lon else lon)
       | _, _ => None
       end.
Proof.
  intros Hd1 Hm1 Hs1 Hd2 Hm2 Hs2 Hlimit Hh1 Hh2.
  inversion Hlimit as [|? ? Ld1 Hl1]; subst.
  inversion Hl1 as [|? ? Lm1 Hl2]; subst.
  inversion Hl2 as [|? ? Ls1 Hl3]; subst.
  inversion Hl3 as [|? ? Ld2 Hl4]; subst.
  inversion Hl4 as [|? ? Lm2 Hl5]; subst.
  inversion Hl5 as [|? ? Ls2 _]; subst.
  assert (Hc1 : char_in h1 [letter_N; letter_S] = true)
    by (destruct Hh1; subst; reflexivity).
  assert (Hc2 : char_in h2 [letter_E; letter_W] = true)
    by (destruct Hh2; subst; reflexivity).
  rewrite convert_dms_fst. cbv zeta.
  rewrite split_word_space, split_word;
    try apply dms_text_not_empty; try reflexivity;
    try (apply dms_text_no_space; try assumption;
         destruct Hh1, Hh2; subst; reflexivity).
  unfold dms_text.
  rewrite !dms_part_prefix
    by (assumption || now apply ascii_number_number).
  rewrite !dms_value_ascii by assumption.
  destruct (dms_sum (decimal d1) (decimal m1) (decimal s1));
    [|reflexivity].
  destruct (dms_sum (decimal d2) (decimal m2) (decimal s2)); reflexivity.
Qed.

(** The example of the docstring: 19 degrees 11 minutes 19 seconds north,
    96 degrees 07 minutes 32 seconds west. *)
Definition google_earth_example : str :=
  dms_text (u "19") (u "11") (u "19") letter_N
    ++ space :: dms_text (u "96") (u "07") (u "32") letter_W.

Definition example_lat : float := S754_finite false 5401113865609835 (-48).
Definition example_lon : float := S754_finite true 6764234627824717 (-46).

Lemma convert_dms_to_decimal_formula_witness :
  ascii_number (u "19") /\ ascii_number (u "07") /\
  fst (convert_dms_to_decimal google_earth_example boot)
  = Ok (Some (example_lat, example_lon)).
Proof.
  assert (Hn : forall ds, ds <> [] -> forallb is_ascii_digit ds = true ->
                          ascii_number ds) by (intros; now split).
  split; [apply Hn; [discriminate|reflexivity]|].
  split; [apply Hn; [discriminate|reflexivity]|].
  unfold google_earth_example.
  rewrite (convert_dms_to_decimal_formula (h1 := letter_N) (h2 := letter_W)).
  - vm_compute. reflexivity.
  - apply Hn; [discriminate|reflexivity].
  - apply Hn; [discriminate|reflexivity].
  - apply Hn; [discriminate|reflexivity].
  - apply Hn; [discriminate|reflexivity].
  - apply Hn; [discriminate|reflexivity].
  - apply Hn; [discriminate|reflexivity].
  - repeat (apply Forall_cons;
            [right; apply Nat.leb_le; vm_compute; reflexivity|]).
    apply Forall_nil.
  - now left.
  - now right.
Defined.

(** The two doubles print as 19.18861111111111 and -96.12555555555555. *)
Example google_earth_example_printed :
  float_repr example_lat = u "19.18861111111111" /\
  float_repr example_lon = u "-96.12555555555555" /\
  format_fixed 6 example_lat = u "19.188611" /\
  format_fixed 6 example_lon = u "-96.125556".
Proof. vm_compute. repeat split. Qed.

(** C1, the input the claim does not cover: a degree number of 310 digits
    is a non-negative integer, but [int + float] cannot convert it. *)
Definition huge_degrees : str := 49%N :: repeat 48%N 309.

(** C1: the parser returns no pair on that input. *)
Lemma convert_dms_to_decimal_overflow :
  ascii_number huge_degrees /\
  fst (convert_dms_to_decimal
         (dms_text huge_degrees (u "0") (u "0") letter_N
            ++ space :: dms_text (u "0") (u "0") (u "0") letter_E)
         boot)
  = Ok None.
Proof.
  split.
  - split; [discriminate|vm_compute; reflexivity].
  - vm_compute. reflexivity.
Qed.

(** C6, as the code has it.  The parser never raises.  It returns the pair
    [(lat, lon)] exactly when the input has at least two white-space
    separated tokens, the first token begins with digits, the degree sign,
    digits, an apostrophe, digits, a double quote and N or S, the second
    begins with the same pattern and E or W, and the numbers convert to
    integers and to doubles ([dms_prefix]); what follows the hemisphere
    letter in a token,
    and every token after the second, is ignored.  In every other case it
    returns no pair. *)
Theorem convert_dms_to_decimal_prefix_match
  (coord_string : str) (p : process) :
  (fst (convert_dms_to_decimal coord_string p) = Ok None \/
   exists pair, fst (convert_dms_to_decimal coord_string p) = Ok (Some pair))
  /\
  forall lat lon,
    fst (convert_dms_to_decimal coord_string p) = Ok (Some (lat, lon)) <->
    exists tok1 tok2 rest,
      split coord_string = tok1 :: tok2 :: rest /\
      dms_prefix (int_max_str_digits p) [letter_N; letter_S] letter_S
        tok1 lat /\
      dms_prefix (int_max_str_digits p) [letter_E; letter_W] letter_W
        tok2 lon.
Proof.
  rewrite convert_dms_fst. cbv zeta. split.
  - destruct (split coord_string) as [|tok1 [|tok2 rest]]; auto.
    destruct (dms_part _ [letter_N; letter_S] letter_S tok1); auto.
    destruct (dms_part _ [letter_E; letter_W] letter_W tok2); eauto.
  - intros lat lon. split.
    + destruct (split coord_string) as [|tok1 [|tok2 rest]];
        try discriminate.
      destruct (dms_part _ [letter_N; letter_S] letter_S tok1)
        as [x|] eqn:E1; try discriminate.
      destruct (dms_part _ [letter_E; letter_W] letter_W tok2)
        as [y|] eqn:E2; try discriminate.
      intros [= <- <-]. exists tok1, tok2, rest.
      split; [reflexivity|]. split; now apply dms_part_iff.
    + intros (tok1 & tok2 & rest & -> & H1 & H2).
      apply dms_part_iff in H1, H2. now rewrite H1, H2.
Qed.

(** C6, the input the claim does not cover: the two tokens of the
    docstring's example with their hemispheres spelt out.  Neither token is
    a DMS token (each ends in a letter that is no hemisphere letter), and
    the parser returns the coordinates of the example all the same. *)
Definition spelt_out_example : str :=
  dms_text (u "19") (u "11") (u "19") letter_N ++ u "ORTH"
    ++ space :: dms_text (u "96") (u "07") (u "32") letter_W ++ u "EST".

(** The whole token is a DMS token, with nothing after the letter. *)
Definition matches_exactly (hs : list char) (tok : str) : Prop :=
  exists d m s h,
    number d /\ number m /\ number s /\ char_in h hs = true /\
    tok = dms_text d m s h.

Lemma last_dms_text d m s h c : last (dms_text d m s h) c = h.
Proof.
  unfold dms_text.
  replace (d ++ deg :: m ++ apos :: s ++ [dquote; h])
    with ((d ++ deg :: m ++ apos :: s ++ [dquote]) ++ [h]).
  - apply last_last.
  - repeat (rewrite <- app_assoc; cbn [app]). reflexivity.
Qed.

(** C6: the input is accepted, and its first token is not a DMS token. *)
Lemma convert_dms_to_decimal_trailing_text :
  fst (convert_dms_to_decimal spelt_out_example boot)
    = Ok (Some (example_lat, example_lon)) /\
  split spelt_out_example
    = [dms_text (u "19") (u "11") (u "19") letter_N ++ u "ORTH";
       dms_text (u "96") (u "07") (u "32") letter_W ++ u "EST"] /\
  ~ matches_exactly [letter_N; letter_S]
      (dms_text (u "19") (u "11") (u "19") letter_N ++ u "ORTH").
Proof.
  split; [vm_compute; reflexivity|]. split; [vm_compute; reflexivity|].
  intros (d & m & s & h & _ & _ & _ & Hh & Heq).
  apply (f_equal (fun l => last l 0%N)) in Heq.
  rewrite last_dms_text in Heq. subst h. vm_compute in Hh. discriminate.
Qed.

End DmsTheorems.

(* ===================================================================== *)
(** * The input line parser *)
(* ===================================================================== *)

Module InputFacts.
Import Text PyFloat Regex Json Collector StoreFacts ParseFacts.
Local Open Scope stmt_scope.

(** ** [split(',')] and [join] *)

Definition no_sep (sep : char) (w : str) : Prop := char_in sep w = false.

Lemma split_on_not_nil sep s : split_on sep s <> [].
Proof.
  destruct s as [|c s]; simpl; [discriminate|].
  destruct (N.eqb c sep); [discriminate|].
  destruct (split_on sep s); discriminate.
Qed.

Lemma join_cons sep a b rest :
  join sep (a :: b :: rest) = a ++ sep :: join sep (b :: rest).
Proof. reflexivity. Qed.

Lemma join_split_on sep s : join sep (split_on sep s) = s.
Proof.
  induction s as [|c s IH]; [reflexivity|]. cbn [split_on].
  pose proof (split_on_not_nil sep s) as Hne.
  destruct (N.eqb c sep) eqn:E.
  - apply N.eqb_eq in E. subst c.
    destruct (split_on sep s) as [|w ws]; [congruence|].
    rewrite join_cons, IH. reflexivity.
  - destruct (split_on sep s) as [|w ws]; [congruence|].
    destruct ws as [|w2 ws].
    + simpl in *. now rewrite IH.
    + rewrite join_cons in *. cbn [app]. now rewrite IH.
Qed.

Lemma split_on_no_sep sep s : Forall (no_sep sep) (split_on sep s).
Proof.
  induction s as [|c s IH]; cbn [split_on].
  - constructor; [reflexivity|constructor].
  - destruct (N.eqb c sep) eqn:E.
    + constructor; [reflexivity|assumption].
    + destruct (split_on sep s) as [|w ws].
      * constructor; [|constructor]. unfold no_sep. simpl.
        rewrite N.eqb_sym, E. reflexivity.
      * inversion IH as [|? ? Hw Hws]; subst. constructor; [|assumption].
        unfold no_sep in *. simpl. now rewrite N.eqb_sym, E.
Qed.

Lemma split_on_word sep w : no_sep sep w -> split_on sep w = [w].
Proof.
  unfold no_sep. induction w as [|c w IH]; intros H; [reflexivity|].
  simpl in H. apply orb_false_elim in H as [Hc Hw].
  cbn [split_on]. rewrite N.eqb_sym, Hc. now rewrite IH.
Qed.

Lemma split_on_word_sep sep w s :
  no_sep sep w -> split_on sep (w ++ sep :: s) = w :: split_on sep s.
Proof.
  unfold no_sep. induction w as [|c w IH]; intros H; cbn [app split_on].
  - now rewrite N.eqb_refl.
  - simpl in H. apply orb_false_elim in H as [Hc Hw].
    rewrite N.eqb_sym, Hc. now rewrite IH.
Qed.

Lemma split_on_join sep parts :
  parts <> [] -> Forall (no_sep sep) parts ->
  split_on sep (join sep parts) = parts.
Proof.
  induction parts as [|w parts IH]; intros Hne H; [congruence|].
  inversion H as [|? ? Hw Hparts]; subst.
  destruct parts as [|w2 parts].
  - now apply split_on_word.
  - rewrite join_cons, split_on_word_sep by assumption.
    rewrite IH; [reflexivity|discriminate|assumption].
Qed.

Lemma char_in_app c a b : char_in c (a ++ b) = char_in c a || char_in c b.
Proof. apply existsb_app. Qed.

(** A prefix of a line that is not taken for DMS is not taken for DMS. *)
Lemma dms_detected_prefix a b :
  dms_detected (a ++ b) = false -> dms_detected a = false.
Proof.
  unfold dms_detected. rewrite !char_in_app.
  destruct (char_in deg a), (char_in apos a), (char_in dquote a);
    simpl; auto.
Qed.

Lemma join_four_prefix sep p0 p1 p2 p3 rest :
  exists tail,
    join sep (p0 :: p1 :: p2 :: p3 :: rest)
    = join sep [p0; p1; p2; p3] ++ tail.
Proof.
  destruct rest as [|p4 rest].
  - exists []. now rewrite app_nil_r.
  - exists (sep :: join sep (p4 :: rest)).
    rewrite !join_cons. cbn [join].
    repeat (rewrite <- app_assoc; cbn [app]). reflexivity.
Qed.

(** ** [parse_coordinate_input] *)

Lemma ask_console lat lon : console_only (ask_type_and_description lat lon).
Proof. unfold ask_type_and_description. console. Qed.

Lemma parse_console user_input :
  console_only (parse_coordinate_input user_input).
Proof.
  unfold parse_coordinate_input.
  apply console_only_try.
  - destruct (dms_detected user_input).
    + apply console_only_bind; [console|intros _].
      apply console_only_bind; [apply convert_dms_console|intros [[lat lon]|]].
      * apply console_only_bind; [console|intros _]. apply ask_console.
      * console.
    + destruct (split_on comma user_input) as [|p0 [|p1 [|p2 rest]]].
      * console.
      * console.
      * apply console_only_bind; [console|intros lat].
        apply console_only_bind; [console|intros lon].
        apply console_only_bind; [console|intros _]. apply ask_console.
      * console.
  - intros e. destruct (is_ValueError e); console.
Qed.

(** The comma-separated branch with three fields or more. *)
Lemma parse_fields user_input p p0 p1 p2 rest :
  dms_detected user_input = false ->
  split_on comma user_input = p0 :: p1 :: p2 :: rest ->
  parse_coordinate_input user_input p =
    match float_of_str (strip p0) with
    | Ok lat =>
        match float_of_str (strip p1) with
        | Ok lon =>
            (Ok (Some (lat, lon, strip p2,
                       match rest with
                       | p3 :: _ => strip p3
                       | [] => default_description_repr lat lon
                       end)), p)
        | Err e =>
            (Ok None,
             with_stdout
               (stdout p ++ [if is_ValueError e then BadNumber
                             else ParseError e]) p)
        end
    | Err e =>
        (Ok None,
         with_stdout
           (stdout p ++ [if is_ValueError e then BadNumber
                         else ParseError e]) p)
    end.
Proof.
  intros Hd Hs. unfold parse_coordinate_input, try_except.
  rewrite Hd, Hs. unfold bind, lift, ret.
  destruct (float_of_str (strip p0)) as [lat|e].
  - destruct (float_of_str (strip p1)) as [lon|e]; [reflexivity|].
    destruct (is_ValueError e); reflexivity.
  - destruct (is_ValueError e); reflexivity.
Qed.

(** The comma-separated branch with two fields, when a number is wrong. *)
Lemma parse_two_fields_bad user_input p p0 p1 :
  dms_detected user_input = false ->
  split_on comma user_input = [p0; p1] ->
  (exists e, float_of_str (strip p0) = Err e) \/
  (exists e, float_of_str (strip p1) = Err e) ->
  fst (parse_coordinate_input user_input p) = Ok None.
Proof.
  intros Hd Hs Hbad. unfold parse_coordinate_input, try_except.
  rewrite Hd, Hs. unfold bind at 1, lift.
  destruct (float_of_str (strip p0)) as [lat|e].
  - destruct Hbad as [[e He]|[e He]]; [discriminate|].
    unfold bind at 1. rewrite He. destruct (is_ValueError e); reflexivity.
  - destruct (is_ValueError e); reflexivity.
Qed.

End InputFacts.

Module InputTheorems.
Import Text PyFloat Regex Json Collector StoreFacts ParseFacts InputFacts.
Import StoreTheorems.

(** C8.  For a line that is not taken for DMS, cut at its commas:
    - with fewer than two fields the parser returns no result;
    - if the first or the second field (stripped) is not accepted by
      [float], it returns no result, however many fields there are;
    - with three fields and two numbers, the third field (stripped) is the
      category;
    - with four fields or more, the run is the run on the first four
      fields joined by commas, and with two numbers the third field is the
      category and the fourth the description. *)
Theorem parse_coordinate_input_fields (user_input : str) (p : process) :
  dms_detected user_input = false ->
  let parts := split_on comma user_input in
  (List.length parts < 2 ->
   fst (parse_coordinate_input user_input p) = Ok None) /\
  (forall p0 p1 rest,
      parts = p0 :: p1 :: rest ->
      (exists e, float_of_str (strip p0) = Err e) \/
      (exists e, float_of_str (strip p1) = Err e) ->
      fst (parse_coordinate_input user_input p) = Ok None) /\
  (forall p0 p1 p2 lat lon,
      parts = [p0; p1; p2] ->
      float_of_str (strip p0) = Ok lat ->
      float_of_str (strip p1) = Ok lon ->
      fst (parse_coordinate_input user_input p)
      = Ok (Some (lat, lon, strip p2, default_description_repr lat lon))) /\
  (forall p0 p1 p2 p3 rest,
      parts = p0 :: p1 :: p2 :: p3 :: rest ->
      parse_coordinate_input user_input p
      = parse_coordinate_input (join comma [p0; p1; p2; p3]) p /\
      forall lat lon,
        float_of_str (strip p0) = Ok lat ->
        float_of_str (strip p1) = Ok lon ->
        fst (parse_coordinate_input user_input p)
        = Ok (Some (lat, lon, strip p2, strip p3))).
Proof.
  intros Hd parts. subst parts. split; [|split; [|split]].
  - intros Hlen. unfold parse_coordinate_input, try_except. rewrite Hd.
    pose proof (split_on_not_nil comma user_input) as Hne.
    destruct (split_on comma user_input) as [|p0 [|p1 rest]];
      [congruence|reflexivity|simpl in Hlen; lia].
  - intros p0 p1 rest Hs Hbad. destruct rest as [|p2 rest].
    + now apply (parse_two_fields_bad user_input p Hd Hs).
    + rewrite (parse_fields user_input p Hd Hs).
      destruct (float_of_str (strip p0)) as [lat|e].
      * destruct Hbad as [[e He]|[e He]]; [discriminate|].
        now rewrite He.
      * reflexivity.
  - intros p0 p1 p2 lat lon Hs H0 H1.
    rewrite (parse_fields user_input p Hd Hs). now rewrite H0, H1.
  - intros p0 p1 p2 p3 rest Hs. split.
    + assert (Hall : Forall (no_sep comma) (p0 :: p1 :: p2 :: p3 :: rest)).
      { rewrite <- Hs. apply split_on_no_sep. }
      assert (Hfour : Forall (no_sep comma) [p0; p1; p2; p3]).
      { inversion Hall as [|? ? H0 Hall1]; subst.
        inversion Hall1 as [|? ? H1 Hall2]; subst.
        inversion Hall2 as [|? ? H2 Hall3]; subst.
        inversion Hall3 as [|? ? H3 _]; subst.
        repeat constructor; assumption. }
      assert (Hs' : split_on comma (join comma [p0; p1; p2; p3])
                    = [p0; p1; p2; p3])
        by (apply split_on_join; [discriminate|assumption]).
      assert (Hd' : dms_detected (join comma [p0; p1; p2; p3]) = false).
      { destruct (join_four_prefix comma p0 p1 p2 p3 rest) as [tail Ht].
        apply dms_detected_prefix with (b := tail).
        rewrite <- Ht, <- Hs, join_split_on. exact Hd. }
      rewrite (parse_fields user_input p Hd Hs).
      rewrite (parse_fields _ p Hd' Hs'). reflexivity.
    + intros lat lon H0 H1.
      rewrite (parse_fields user_input p Hd Hs). now rewrite H0, H1.
Qed.

Lemma parse_coordinate_input_fields_witness :
  dms_detected (u "19.1738,-96.1342,piscina,Casa1,extra,more") = false /\
  parse_coordinate_input (u "19.1738,-96.1342,piscina,Casa1,extra,more") boot
  = parse_coordinate_input (u "19.1738,-96.1342,piscina,Casa1") boot /\
  fst (parse_coordinate_input
         (u "19.1738,-96.1342,piscina,Casa1,extra,more") boot)
  = Ok (Some (veracruz_lat, veracruz_lon, u "piscina", u "Casa1")).
Proof.
  split; [reflexivity|].
  destruct (parse_coordinate_input_fields
              (u "19.1738,-96.1342,piscina,Casa1,extra,more") boot)
    as (_ & _ & _ & H); [reflexivity|].
  destruct (H (u "19.1738") (u "-96.1342") (u "piscina") (u "Casa1")
              [u "extra"; u "more"]) as [Hrun Hfst]; [reflexivity|].
  split; [exact Hrun|].
  apply Hfst; vm_compute; reflexivity.
Defined.

Example parse_one_field :
  fst (parse_coordinate_input (u "19.1738") boot) = Ok None.
Proof. reflexivity. Qed.

Example parse_not_a_number :
  fst (parse_coordinate_input (u "19.1738,west,pool") boot) = Ok None.
Proof. vm_compute. reflexivity. Qed.

(** C5, the three-field branch.  With the description left out of a line
    of three fields, the default description carries the two numbers as
    [repr] prints them, all their decimals included; the same coordinates
    entered as a line of two fields, with the description left empty at
    the prompt, get the description rounded to four decimals. *)
Theorem default_description_three_fields :
  exists lat lon,
    fst (parse_coordinate_input (u "19.17384567,-96.13421234,pool") boot)
    = Ok (Some (lat, lon, u "pool", u "Coord_19.17384567_-96.13421234")) /\
    fst (parse_coordinate_input (u "19.17384567,-96.13421234")
           (with_stdin [u "pool"; []] boot))
    = Ok (Some (lat, lon, u "pool", u "Coord_19.1738_-96.1342")) /\
    default_description_4f lat lon = u "Coord_19.1738_-96.1342".
Proof.
  exists (S754_finite false 5396957763416962 (-48)),
         (S754_finite true 6764843794874690 (-46)).
  vm_compute. repeat split.
Qed.

(** The example of the claim: the two numbers have four decimals, and
    [repr] prints them as they were typed. *)
Example default_description_four_decimals :
  fst (parse_coordinate_input (u "19.1738,-96.1342,pool") boot)
  = Ok (Some (veracruz_lat, veracruz_lon, u "pool",
              u "Coord_19.1738_-96.1342")).
Proof. vm_compute. reflexivity. Qed.

(** The default of the two branches that prompt for the description. *)
Example default_description_dms :
  fst (parse_coordinate_input DmsTheorems.google_earth_example
         (with_stdin [u "pool"; []] boot))
  = Ok (Some (DmsTheorems.example_lat, DmsTheorems.example_lon, u "pool",
              u "Coord_19.1886_-96.1256")).
Proof. vm_compute. reflexivity. Qed.

(** C7, an input out of range.  A latitude of 200 degrees and a longitude
    of 300 degrees are parsed and the record is added to the pools. *)
Definition degrees (n : Z) : float := decimal_to_float false n 0.

(** C7: the record is in the store, and both numbers are beyond the
    bounds. *)
Lemma collect_out_of_range :
  records k_pools
    (coordinates (snd (collect (u "200.0,300.0,pool") fresh)))
  = Some [coord_data (degrees 200) (degrees 300) (u "Coord_200.0_300.0")] /\
  SFltb (degrees 90) (degrees 200) = true /\
  SFltb (degrees 180) (degrees 300) = true.
Proof. vm_compute. repeat split. Qed.

(** C7, as the code has it.  When the parser returns a result, the record
    that [add_coordinate] then puts in the store carries the latitude and
    the longitude of that result, whatever they are: the record is appended
    to the list of its category and neither number is compared with a
    bound. *)
Theorem collect_stores_parsed_coordinates
  (user_input : str) (p : process) (lat lon : float) (t desc : str)
  (pools no_pools : list value) (md : list (str * value)) :
  fst (parse_coordinate_input user_input p) = Ok (Some (lat, lon, t, desc)) ->
  records k_pools (coordinates p) = Some pools ->
  records k_no_pools (coordinates p) = Some no_pools ->
  metadata (coordinates p) = Some md ->
  let item := coord_data lat lon desc in
  records k_pools (coordinates (snd (collect user_input p)))
    = Some (if str_in (lower t) pool_tokens then pools ++ [item]
            else pools) /\
  records k_no_pools (coordinates (snd (collect user_input p)))
    = Some (if str_in (lower t) no_pool_tokens then no_pools ++ [item]
            else no_pools).
Proof.
  intros Hparse H1 H2 H3 item.
  pose proof (parse_console user_input p) as (Hc & _).
  unfold collect, bind.
  destruct (parse_coordinate_input user_input p) as [r q].
  cbn [fst snd] in *. subst r. rewrite <- Hc in H1, H2, H3.
  destruct (add_coordinate_records lat lon t desc q H1 H2 H3)
    as (_ & Hp & Hn).
  destruct (add_coordinate lat lon t desc q) as [[b|e] q'];
    cbn [fst snd] in *; split; assumption.
Qed.

Lemma collect_stores_parsed_coordinates_witness :
  fst (parse_coordinate_input (u "91.5,-181.25,n,Polo") fresh)
  = Ok (Some (S754_finite false 6438740092256256 (-46),
              S754_finite true 6377167441100800 (-45), u "n", u "Polo")) /\
  records k_no_pools
    (coordinates (snd (collect (u "91.5,-181.25,n,Polo") fresh)))
  = Some [coord_data (S754_finite false 6438740092256256 (-46))
            (S754_finite true 6377167441100800 (-45)) (u "Polo")].
Proof.
  assert (Hparse :
    fst (parse_coordinate_input (u "91.5,-181.25,n,Polo") fresh)
    = Ok (Some (S754_finite false 6438740092256256 (-46),
                S754_finite true 6377167441100800 (-45), u "n", u "Polo")))
    by (vm_compute; reflexivity).
  split; [exact Hparse|].
  exact (proj2 (@collect_stores_parsed_coordinates
                  (u "91.5,-181.25,n,Polo") fresh _ _ _ _ [] []
                  [(k_total_pools, VInt 0); (k_total_no_pools, VInt 0);
                   (k_last_updated, VStr [])]
                  Hparse eq_refl eq_refl eq_refl)).
Defined.

End InputTheorems.

(* ===================================================================== *)
(** * Which parts of the process a statement leaves alone *)
(* ===================================================================== *)

Module Frames.
Import Text PyFloat Json Collector StoreFacts ParseFacts InputFacts.
Local Open Scope stmt_scope.

Section Field.

(** [f] is something read off the process state (a field, or a function of
    some fields). *)
Context {X : Type} (f : process -> X).

(** The statement [m] ends, normally or not, with [f] as it found it. *)
Definition keeps {A} (m : M A) : Prop := forall p, f (snd (m p)) = f p.

Lemma keeps_ret {A} (a : A) : keeps (ret a).
Proof. intros p. reflexivity. Qed.

Lemma keeps_raise {A} e : keeps (@raise A e).
Proof. intros p. reflexivity. Qed.

Lemma keeps_lift {A} (r : result A) : keeps (lift r).
Proof. intros p. reflexivity. Qed.

Lemma keeps_get : keeps get_coordinates.
Proof. intros p. reflexivity. Qed.

Lemma keeps_int_limit : keeps int_limit.
Proof. intros p. reflexivity. Qed.

Lemma keeps_bind {A B} (m : M A) (k : A -> M B) :
  keeps m -> (forall a, keeps (k a)) -> keeps (bind m k).
Proof.
  intros Hm Hk p. unfold bind. specialize (Hm p).
  destruct (m p) as [[a|e] p']; cbn [snd] in *; [|assumption].
  now rewrite Hk.
Qed.

Lemma keeps_try {A} (m : M A) (h : exn -> M A) :
  keeps m -> (forall e, keeps (h e)) -> keeps (try_except m h).
Proof.
  intros Hm Hh p. unfold try_except. specialize (Hm p).
  destruct (m p) as [[a|e] p']; cbn [snd] in *; [assumption|].
  now rewrite Hh.
Qed.

(** What [f] does not depend on. *)
Definition ignores_stdout : Prop := forall l p, f (with_stdout l p) = f p.
Definition ignores_stdin : Prop := forall l p, f (with_stdin l p) = f p.
Definition ignores_coordinates : Prop :=
  forall v p, f (with_coordinates v p) = f p.
Definition ignores_file : Prop := forall v p, f (with_file v p) = f p.
Definition ignores_ticks : Prop := forall n p, f (with_ticks n p) = f p.

Lemma keeps_print m : ignores_stdout -> keeps (print m).
Proof. intros H p. apply H. Qed.

Lemma keeps_input m : ignores_stdout -> ignores_stdin -> keeps (input m).
Proof.
  intros Ho Hi p. unfold input. cbv zeta. destruct (stdin p); cbn [snd].
  - apply Ho.
  - now rewrite Hi, Ho.
Qed.

Lemma keeps_set_coordinates v :
  ignores_coordinates -> keeps (set_coordinates v).
Proof. intros H p. apply H. Qed.

Lemma keeps_datetime_now : ignores_ticks -> keeps datetime_now.
Proof. intros H p. apply H. Qed.

Lemma keeps_read_json_file : keeps read_json_file.
Proof.
  intros p. unfold read_json_file.
  destruct (readable p); [|reflexivity].
  destruct (file p) as [[v|]|]; reflexivity.
Qed.

Lemma keeps_write_json_file v : ignores_file -> keeps (write_json_file v).
Proof.
  intros H p. unfold write_json_file.
  destruct (writable p); [|reflexivity|apply H].
  destruct (encodable v); apply H.
Qed.

Lemma keeps_len_of key : keeps (len_of key).
Proof.
  unfold len_of. apply keeps_bind; [apply keeps_get|intros c].
  apply keeps_bind; intros; apply keeps_lift.
Qed.

Lemma keeps_append_to key item :
  ignores_coordinates -> keeps (append_to key item).
Proof.
  intros H. unfold append_to.
  apply keeps_bind; [apply keeps_get|intros c].
  apply keeps_bind; [apply keeps_lift|intros l].
  apply keeps_bind; [apply keeps_lift|intros l'].
  apply keeps_bind; [apply keeps_lift|intros c'].
  now apply keeps_set_coordinates.
Qed.

Lemma keeps_set_metadata key v :
  ignores_coordinates -> keeps (set_metadata key v).
Proof.
  intros H. unfold set_metadata.
  apply keeps_bind; [apply keeps_get|intros c].
  apply keeps_bind; [apply keeps_lift|intros md].
  apply keeps_bind; [apply keeps_lift|intros md'].
  apply keeps_bind; [apply keeps_lift|intros c'].
  now apply keeps_set_coordinates.
Qed.

Lemma keeps_update_metadata :
  ignores_coordinates -> ignores_ticks -> keeps update_metadata.
Proof.
  intros Hc Ht. unfold update_metadata.
  apply keeps_bind; [apply keeps_len_of|intros n].
  apply keeps_bind; [now apply keeps_set_metadata|intros _].
  apply keeps_bind; [apply keeps_len_of|intros m].
  apply keeps_bind; [now apply keeps_set_metadata|intros _].
  apply keeps_bind; [now apply keeps_datetime_now|intros now].
  now apply keeps_set_metadata.
Qed.

Lemma keeps_print_text s m : ignores_stdout -> keeps (print_text s m).
Proof.
  intros Ho. unfold print_text.
  destruct (str_encodable s); [now apply keeps_print|apply keeps_raise].
Qed.

Lemma keeps_add_coordinate lat lon t desc :
  ignores_coordinates -> ignores_ticks -> ignores_stdout ->
  keeps (add_coordinate lat lon t desc).
Proof.
  intros Hc Ht Ho. unfold add_coordinate.
  destruct (str_in (lower t) pool_tokens);
    [|destruct (str_in (lower t) no_pool_tokens)].
  - apply keeps_bind; [now apply keeps_append_to|intros _].
    apply keeps_bind; [now apply keeps_print_text|intros _].
    apply keeps_bind; [now apply keeps_update_metadata|intros _].
    apply keeps_ret.
  - apply keeps_bind; [now apply keeps_append_to|intros _].
    apply keeps_bind; [now apply keeps_print_text|intros _].
    apply keeps_bind; [now apply keeps_update_metadata|intros _].
    apply keeps_ret.
  - apply keeps_bind; [now apply keeps_print|intros _]. apply keeps_ret.
Qed.

Lemma keeps_save_coordinates :
  ignores_file -> ignores_stdout -> keeps save_coordinates.
Proof.
  intros Hf Ho. unfold save_coordinates.
  apply keeps_try; [|intros e; now apply keeps_print].
  apply keeps_bind; [apply keeps_get|intros c].
  apply keeps_bind; [now apply keeps_write_json_file|intros _].
  apply keeps_bind; [now apply keeps_print|intros _].
  apply keeps_bind; [apply keeps_len_of|intros n].
  apply keeps_bind; [now apply keeps_print|intros _].
  apply keeps_bind; [apply keeps_len_of|intros m].
  now apply keeps_print.
Qed.

Lemma keeps_load_existing :
  ignores_coordinates -> ignores_stdout -> keeps load_existing.
Proof.
  intros Hc Ho p. unfold load_existing.
  destruct (file p); [|reflexivity].
  revert p. apply keeps_try; [|intros e; now apply keeps_print].
  apply keeps_bind; [apply keeps_read_json_file|intros v].
  apply keeps_bind; [now apply keeps_set_coordinates|intros _].
  apply keeps_bind; [apply keeps_get|intros c].
  apply keeps_bind; [apply keeps_lift|intros pools].
  apply keeps_bind; [apply keeps_lift|intros n].
  apply keeps_bind; [apply keeps_get|intros c'].
  apply keeps_bind; [apply keeps_lift|intros no_pools].
  apply keeps_bind; [apply keeps_lift|intros m].
  now apply keeps_print.
Qed.

Lemma keeps_constructor :
  ignores_coordinates -> ignores_stdout -> keeps CoordinateCollector.
Proof.
  intros Hc Ho. unfold CoordinateCollector.
  apply keeps_bind; [now apply keeps_set_coordinates|intros _].
  now apply keeps_load_existing.
Qed.

End Field.

End Frames.

(* ===================================================================== *)
(** * More on the methods of the collector *)
(* ===================================================================== *)

Module CollectorTheorems.
Import Text PyFloat Regex Json Collector StoreFacts EncodingFacts.
Import ParseFacts InputFacts Frames StoreTheorems.
Local Open Scope stmt_scope.

(** The description the two prompting branches settle on. *)
Definition prompted_description (lat lon : float) (answer : str) : str :=
  match strip answer with
  | [] => default_description_4f lat lon
  | d => d
  end.

Lemma ask_run lat lon p :
  ask_type_and_description lat lon p =
    match stdin p with
    | t :: d :: rest =>
        (Ok (Some (lat, lon, strip t, prompted_description lat lon d)),
         with_stdin rest
           (with_stdout (stdout p ++ [PromptType; PromptDescription]) p))
    | [t] =>
        (Err EOFError,
         with_stdout (stdout p ++ [PromptType; PromptDescription])
           (with_stdin [] p))
    | [] => (Err EOFError, with_stdout (stdout p ++ [PromptType]) p)
    end.
Proof.
  unfold ask_type_and_description, bind, input, ret, prompted_description.
  destruct (stdin p) as [|t [|d rest]] eqn:E; cbn [stdin with_stdin with_stdout stdout];
    try reflexivity.
  - unfold with_stdin, with_stdout. cbn. now rewrite <- app_assoc.
  - unfold with_stdin, with_stdout. cbn. rewrite <- app_assoc.
    destruct (strip d); reflexivity.
Qed.

(** X1.  On a store with its two lists and its metadata, [update_metadata]
    returns normally, leaves both lists and the file as they are, sets
    [total_pools] and [total_no_pools] to the lengths of the lists and
    [last_updated] to the reading of the clock, and leaves every other
    metadata field as it is. *)
Theorem update_metadata_rewrites_three_fields
  (p : process) (pools no_pools : list value) (md : list (str * value)) :
  records k_pools (coordinates p) = Some pools ->
  records k_no_pools (coordinates p) = Some no_pools ->
  metadata (coordinates p) = Some md ->
  fst (update_metadata p) = Ok tt /\
  records k_pools (coordinates (snd (update_metadata p))) = Some pools /\
  records k_no_pools (coordinates (snd (update_metadata p)))
    = Some no_pools /\
  file (snd (update_metadata p)) = file p /\
  exists md',
    metadata (coordinates (snd (update_metadata p))) = Some md' /\
    dict_get k_total_pools md'
      = Some (VInt (Z.of_nat (List.length pools))) /\
    dict_get k_total_no_pools md'
      = Some (VInt (Z.of_nat (List.length no_pools))) /\
    dict_get k_last_updated md'
      = Some (VStr (strftime (clock p (ticks p)))) /\
    forall k,
      str_in k [k_total_pools; k_total_no_pools; k_last_updated] = false ->
      dict_get k md' = dict_get k md.
Proof.
  intros H1 H2 H3.
  destruct (well_formed_inv (c := coordinates p))
    as (d & pools' & no_pools' & md0 & Hc & Hp & Hn & Hm).
  { now exists pools, no_pools, md. }
  assert (pools' = pools) as ->.
  { rewrite Hc in H1. rewrite (records_of_dict _ _ Hp) in H1. congruence. }
  assert (no_pools' = no_pools) as ->.
  { rewrite Hc in H2. rewrite (records_of_dict _ _ Hn) in H2. congruence. }
  assert (md0 = md) as ->.
  { unfold metadata in H3. rewrite Hc in H3. cbn [getitem] in H3.
    rewrite Hm in H3. congruence. }
  rewrite (update_metadata_run p Hc Hp Hn Hm).
  cbn [fst snd coordinates file with_ticks with_coordinates].
  rewrite !records_with_counts by reflexivity.
  rewrite (records_of_dict _ _ Hp), (records_of_dict _ _ Hn).
  repeat (split; [reflexivity|]).
  eexists. split; [apply metadata_with_counts|].
  split; [|split; [|split]].
  - rewrite !dict_get_set_other by reflexivity. apply dict_get_set_same.
  - rewrite dict_get_set_other by reflexivity. apply dict_get_set_same.
  - apply dict_get_set_same.
  - intros k Hk. cbn [str_in existsb] in Hk. rewrite orb_false_r in Hk.
    apply orb_false_elim in Hk as [Hk1 Hk].
    apply orb_false_elim in Hk as [Hk2 Hk3].
    now rewrite !dict_get_set_other by assumption.
Qed.

Lemma update_metadata_rewrites_three_fields_witness :
  records k_no_pools (coordinates (with_coordinates captured_store boot))
    = Some [] /\
  exists md',
    metadata
      (coordinates
         (snd (update_metadata
                 (with_coordinates captured_store boot)))) = Some md' /\
    dict_get (u "capture_completed") md' = Some (VBool true) /\
    dict_get k_total_pools md' = Some (VInt 1).
Proof.
  split; [vm_compute; reflexivity|].
  destruct (@update_metadata_rewrites_three_fields
              (with_coordinates captured_store boot)
              [VDict [(u "lat", VFloat veracruz_lat);
                      (u "lon", VFloat veracruz_lon);
                      (u "description", VStr (u "Casa1"));
                      (u "captured", VBool true)]]
              []
              [(k_total_pools, VInt 1);
               (k_total_no_pools, VInt 0);
               (k_last_updated, VStr (u "2024-03-06 18:00:00"));
               (u "last_capture", VStr (u "2024-03-06 19:30:00"));
               (u "capture_completed", VBool true)])
    as (_ & _ & _ & _ & md' & Hmd & Htp & _ & _ & Hother);
    try (vm_compute; reflexivity).
  exists md'. split; [exact Hmd|]. split; [|exact Htp].
  rewrite Hother; vm_compute; reflexivity.
Defined.

Lemma append_to_missing key item p d :
  coordinates p = VDict d -> dict_get key d = None ->
  append_to key item p = (Err KeyError, p).
Proof.
  intros Hc Hk.
  unfold append_to, bind, get_coordinates, lift, getitem.
  now rewrite Hc, Hk.
Qed.

(** X2.  [add_coordinate] with a recognised category on a store that is a
    dictionary but is incomplete: when the list of the category is missing,
    [KeyError] escapes and the store is untouched; when the list of pools is
    there and the metadata is missing, the record is appended to the list
    and the call fails all the same, so the store has changed although the
    call failed: with [KeyError] from [update_metadata] when the
    description can be printed, with [UnicodeEncodeError] from the [print]
    before it when it cannot. *)
Theorem add_coordinate_incomplete_store
  (lat lon : float) (t desc : str) (p : process) (d : list (str * value)) :
  coordinates p = VDict d ->
  let r := add_coordinate lat lon t desc p in
  (str_in (lower t) pool_tokens = true -> dict_get k_pools d = None ->
   fst r = Err KeyError /\ coordinates (snd r) = coordinates p) /\
  (str_in (lower t) no_pool_tokens = true -> dict_get k_no_pools d = None ->
   fst r = Err KeyError /\ coordinates (snd r) = coordinates p) /\
  (forall pools,
      str_in (lower t) pool_tokens = true ->
      dict_get k_pools d = Some (VList pools) ->
      dict_get k_metadata d = None ->
      fst r = Err (if str_encodable desc then KeyError
                   else UnicodeEncodeError) /\
      records k_pools (coordinates (snd r))
        = Some (pools ++ [coord_data lat lon desc])).
Proof.
  intros Hc. cbv zeta. split; [|split].
  - intros Ht Hk. unfold add_coordinate. rewrite Ht.
    erewrite bind_err by (eapply append_to_missing; eassumption).
    split; reflexivity.
  - intros Ht Hk. unfold add_coordinate.
    destruct (str_in (lower t) pool_tokens) eqn:Ep.
    { rewrite (tokens_disjoint _ Ep) in Ht. discriminate. }
    rewrite Ht.
    erewrite bind_err by (eapply append_to_missing; eassumption).
    split; reflexivity.
  - intros pools Ht Hp Hm. unfold add_coordinate. rewrite Ht.
    erewrite bind_ok by (eapply append_to_run; eassumption).
    unfold print_text. destruct (str_encodable desc).
    2:{ erewrite bind_err by reflexivity.
        cbn [fst snd coordinates with_coordinates].
        split; [reflexivity|]. apply records_set_same. }
    erewrite bind_ok by reflexivity.
    unfold update_metadata.
    erewrite bind_err.
    2:{ erewrite bind_ok.
        2:{ eapply len_of_run; [reflexivity|]. apply dict_get_set_same. }
        erewrite bind_err; [reflexivity|].
        unfold set_metadata. erewrite bind_ok by reflexivity.
        erewrite bind_err; [reflexivity|].
        unfold lift, getitem.
        cbn [coordinates with_coordinates with_stdout].
        rewrite dict_get_set_other by reflexivity. now rewrite Hm. }
    cbn [fst snd coordinates with_coordinates with_stdout].
    split; [reflexivity|]. apply records_set_same.
Qed.

(** A file that holds the two lists and nothing else, as the fallback of
    the capture script writes them. *)
Definition lists_only : value :=
  VDict [(k_pools, VList []); (k_no_pools, VList [])].

Lemma add_coordinate_incomplete_store_witness :
  coordinates (with_coordinates lists_only boot) = lists_only /\
  (fst (add_coordinate veracruz_lat veracruz_lon (u "pool") (u "Casa1")
          (with_coordinates lists_only boot)) = Err KeyError /\
   records k_pools
     (coordinates
        (snd (add_coordinate veracruz_lat veracruz_lon (u "pool")
                (u "Casa1") (with_coordinates lists_only boot))))
   = Some [coord_data veracruz_lat veracruz_lon (u "Casa1")]) /\
  (fst (add_coordinate veracruz_lat veracruz_lon (u "pool") [55296%N]
          (with_coordinates lists_only boot)) = Err UnicodeEncodeError /\
   records k_pools
     (coordinates
        (snd (add_coordinate veracruz_lat veracruz_lon (u "pool")
                [55296%N] (with_coordinates lists_only boot))))
   = Some [coord_data veracruz_lat veracruz_lon [55296%N]]).
Proof.
  split; [reflexivity|]. split.
  - destruct (@add_coordinate_incomplete_store veracruz_lat veracruz_lon
                (u "pool") (u "Casa1") (with_coordinates lists_only boot)
                [(k_pools, VList []); (k_no_pools, VList [])] eq_refl)
      as (_ & _ & H).
    exact (H [] eq_refl eq_refl eq_refl).
  - destruct (@add_coordinate_incomplete_store veracruz_lat veracruz_lon
                (u "pool") [55296%N] (with_coordinates lists_only boot)
                [(k_pools, VList []); (k_no_pools, VList [])] eq_refl)
      as (_ & _ & H).
    exact (H [] eq_refl eq_refl eq_refl).
Defined.

(** [save_coordinates] catches what its body raises. *)
Lemma save_coordinates_returns p : fst (save_coordinates p) = Ok tt.
Proof.
  unfold save_coordinates, try_except.
  match goal with
  | |- context [bind get_coordinates ?k] =>
      destruct (bind get_coordinates k p) as [[[]|e] q]
  end; reflexivity.
Qed.

(** The file after [save_coordinates]. *)
Lemma save_coordinates_file p :
  file (snd (save_coordinates p)) =
    match writable p with
    | WriteOk =>
        if encodable (coordinates p) then Some (Document (coordinates p))
        else Some Garbage
    | OpenFails => file p
    | DumpFails => Some Garbage
    end.
Proof.
  destruct (writable p) eqn:Hw.
  - destruct (encodable (coordinates p)) eqn:He.
    + now destruct (save_coordinates_writes p Hw He) as [_ (_ & Hf & _)].
    + unfold save_coordinates, try_except.
      erewrite bind_ok by reflexivity.
      erewrite bind_err
        by (unfold write_json_file; rewrite Hw, He; reflexivity).
      reflexivity.
  - rewrite save_coordinates_fails by congruence. now rewrite Hw.
  - rewrite save_coordinates_fails by congruence. now rewrite Hw.
Qed.

(** X3.  [save_coordinates] always returns normally and never changes the
    store or the pending input.  The file afterwards holds the store when
    the write went through; it holds text that does not parse when the
    write stopped part way (the disk failed, or a string of the store has a
    surrogate that UTF-8 cannot encode); it is as before when it could not
    be opened. *)
Theorem save_coordinates_outcomes (p : process) :
  fst (save_coordinates p) = Ok tt /\
  coordinates (snd (save_coordinates p)) = coordinates p /\
  stdin (snd (save_coordinates p)) = stdin p /\
  file (snd (save_coordinates p)) =
    match writable p with
    | WriteOk =>
        if encodable (coordinates p) then Some (Document (coordinates p))
        else Some Garbage
    | OpenFails => file p
    | DumpFails => Some Garbage
    end.
Proof.
  split; [|split; [|split]].
  - apply save_coordinates_returns.
  - apply (keeps_save_coordinates (f := coordinates));
      intros ? ?; reflexivity.
  - apply (keeps_save_coordinates (f := stdin)); intros ? ?; reflexivity.
  - apply save_coordinates_file.
Qed.

(** ** How many lines of input a statement takes *)

(** The statement reads at most [n] lines, from the front of the pending
    input. *)
Definition consumes (n : nat) {A} (m : M A) : Prop :=
  forall p, exists k, k <= n /\ stdin (snd (m p)) = skipn k (stdin p).

Lemma consumes_keeps {A} (m : M A) : keeps stdin m -> consumes 0 m.
Proof. intros H p. exists 0. split; [lia|]. apply H. Qed.

Lemma consumes_weaken {A} (m : M A) a b :
  a <= b -> consumes a m -> consumes b m.
Proof.
  intros Hab H p. destruct (H p) as (k & Hk & Hs). exists k. split; [lia|].
  exact Hs.
Qed.

Lemma consumes_bind {A B} (m : M A) (k : A -> M B) a b :
  consumes a m -> (forall x, consumes b (k x)) -> consumes (a + b) (bind m k).
Proof.
  intros Hm Hk p. unfold bind. destruct (Hm p) as (i & Hi & Hs).
  destruct (m p) as [[x|e] q]; cbn [snd] in *.
  - destruct (Hk x q) as (j & Hj & Hs'). exists (i + j). split; [lia|].
    rewrite Hs', Hs, skipn_skipn. f_equal. lia.
  - exists i. split; [lia|assumption].
Qed.

Lemma consumes_try {A} (m : M A) (h : exn -> M A) a :
  consumes a m -> (forall e, keeps stdin (h e)) ->
  consumes a (try_except m h).
Proof.
  intros Hm Hh p. unfold try_except. destruct (Hm p) as (i & Hi & Hs).
  destruct (m p) as [[x|e] q]; cbn [snd] in *.
  - exists i. split; [lia|assumption].
  - exists i. split; [lia|]. now rewrite Hh.
Qed.

Lemma consumes_input m : consumes 1 (input m).
Proof.
  intros p. unfold input. cbv zeta. destruct (stdin p) as [|l rest] eqn:E.
  - exists 0. split; [lia|]. cbn. exact E.
  - exists 1. split; [lia|]. reflexivity.
Qed.

Lemma keeps_stdin_print m : keeps stdin (print m).
Proof. intros p. reflexivity. Qed.

Lemma keeps_stdin_convert coord_string :
  keeps stdin (convert_dms_to_decimal coord_string).
Proof.
  unfold convert_dms_to_decimal. apply keeps_try.
  - apply keeps_bind; [apply keeps_int_limit|intros limit].
    apply keeps_bind; [apply keeps_lift|intros lat_part].
    apply keeps_bind; [apply keeps_lift|intros lat].
    apply keeps_bind; [apply keeps_lift|intros lon_part].
    apply keeps_bind; [apply keeps_lift|intros lon].
    apply keeps_ret.
  - intros e. apply keeps_bind; [apply keeps_stdin_print|intros _].
    apply keeps_ret.
Qed.

Lemma consumes_ask lat lon : consumes 2 (ask_type_and_description lat lon).
Proof.
  unfold ask_type_and_description.
  apply consumes_bind with (a := 1) (b := 1); [apply consumes_input|intros t].
  apply consumes_bind with (a := 1) (b := 0); [apply consumes_input|intros d].
  apply consumes_keeps, keeps_ret.
Qed.

Lemma consumes_parse user_input :
  consumes 2 (parse_coordinate_input user_input).
Proof.
  unfold parse_coordinate_input. apply consumes_try.
  - destruct (dms_detected user_input).
    + apply consumes_bind with (a := 0) (b := 2);
        [apply consumes_keeps, keeps_stdin_print|intros _].
      apply consumes_bind with (a := 0) (b := 2);
        [apply consumes_keeps, keeps_stdin_convert|intros [[lat lon]|]].
      * apply consumes_bind with (a := 0) (b := 2);
          [apply consumes_keeps, keeps_stdin_print|intros _].
        apply consumes_ask.
      * apply consumes_weaken with (a := 0); [lia|].
        apply consumes_keeps, keeps_ret.
    + destruct (split_on comma user_input) as [|p0 [|p1 [|p2 rest]]].
      * apply consumes_weaken with (a := 0); [lia|]. apply consumes_keeps.
        apply keeps_bind; [apply keeps_stdin_print|intros _]. apply keeps_ret.
      * apply consumes_weaken with (a := 0); [lia|]. apply consumes_keeps.
        apply keeps_bind; [apply keeps_stdin_print|intros _]. apply keeps_ret.
      * apply consumes_bind with (a := 0) (b := 2);
          [apply consumes_keeps, keeps_lift|intros lat].
        apply consumes_bind with (a := 0) (b := 2);
          [apply consumes_keeps, keeps_lift|intros lon].
        apply consumes_bind with (a := 0) (b := 2);
          [apply consumes_keeps, keeps_stdin_print|intros _].
        apply consumes_ask.
      * apply consumes_weaken with (a := 0); [lia|]. apply consumes_keeps.
        apply keeps_bind; [apply keeps_lift|intros lat].
        apply keeps_bind; [apply keeps_lift|intros lon]. apply keeps_ret.
  - intros e. destruct (is_ValueError e);
      (apply keeps_bind; [apply keeps_stdin_print|intros _]; apply keeps_ret).
Qed.

(** A [try] whose handler always returns never raises. *)
Lemma try_except_returns {A} (m : M A) (h : exn -> M A) p :
  (forall e q, exists r, fst (h e q) = Ok r) ->
  exists r, fst (try_except m h p) = Ok r.
Proof.
  intros Hh. unfold try_except. destruct (m p) as [[a|e] q].
  - exists a. reflexivity.
  - apply Hh.
Qed.

(** X4.  [parse_coordinate_input] never raises, whatever the line and the
    state; it leaves the store and the file as they are, and it reads at
    most two lines of input (the answers to its two prompts). *)
Theorem parse_coordinate_input_is_harmless (user_input : str) (p : process) :
  (exists r, fst (parse_coordinate_input user_input p) = Ok r) /\
  coordinates (snd (parse_coordinate_input user_input p)) = coordinates p /\
  file (snd (parse_coordinate_input user_input p)) = file p /\
  exists k,
    k <= 2 /\
    stdin (snd (parse_coordinate_input user_input p)) = skipn k (stdin p).
Proof.
  split; [|split; [|split]].
  - unfold parse_coordinate_input. apply try_except_returns.
    intros e q. destruct (is_ValueError e); eexists; reflexivity.
  - apply (parse_console user_input p).
  - apply (parse_console user_input p).
  - apply consumes_parse.
Qed.

(** X5.  A line of two comma-separated numbers: the parser prompts twice;
    the first answer, stripped, is the category and the second, stripped,
    the description, replaced by [Coord_<lat>_<lon>] with four decimals
    when it is empty; exactly those two lines are read.  With fewer than
    two lines of input left, the parser returns no result. *)
Theorem parse_two_fields_prompts
  (user_input : str) (p : process) (p0 p1 : str) (lat lon : float) :
  dms_detected user_input = false ->
  split_on comma user_input = [p0; p1] ->
  float_of_str (strip p0) = Ok lat ->
  float_of_str (strip p1) = Ok lon ->
  (forall t d rest,
      stdin p = t :: d :: rest ->
      fst (parse_coordinate_input user_input p)
      = Ok (Some (lat, lon, strip t,
                  match strip d with
                  | [] => default_description_4f lat lon
                  | description => description
                  end)) /\
      stdin (snd (parse_coordinate_input user_input p)) = rest) /\
  (List.length (stdin p) < 2 ->
   fst (parse_coordinate_input user_input p) = Ok None).
Proof.
  intros Hd Hs H0 H1.
  assert (Hrun : parse_coordinate_input user_input p =
    let q := with_stdout (stdout p ++ [CoordinatesDetected lat lon]) p in
    match ask_type_and_description lat lon q with
    | (Ok a, q') => (Ok a, q')
    | (Err e, q') =>
        (Ok None,
         with_stdout
           (stdout q' ++ [if is_ValueError e then BadNumber
                          else ParseError e]) q')
    end).
  { unfold parse_coordinate_input, try_except. rewrite Hd, Hs.
    unfold bind at 1, lift. rewrite H0.
    unfold bind at 1. rewrite H1.
    unfold bind at 1, print. cbv zeta.
    destruct (ask_type_and_description lat lon
                (with_stdout (stdout p ++ [CoordinatesDetected lat lon]) p))
      as [[a|e] q']; [reflexivity|].
    destruct (is_ValueError e); reflexivity. }
  rewrite Hrun. cbv zeta. rewrite ask_run.
  cbn [stdin with_stdout]. split.
  - intros t d rest E. rewrite E. split; reflexivity.
  - intros Hlen. destruct (stdin p) as [|t [|d rest]];
      [reflexivity|reflexivity|simpl in Hlen; lia].
Qed.

Lemma parse_two_fields_prompts_witness :
  dms_detected (u "19.1738, -96.1342") = false /\
  fst (parse_coordinate_input (u "19.1738, -96.1342")
         (with_stdin [u " pool "; u "  "; u "fin"] boot))
  = Ok (Some (veracruz_lat, veracruz_lon, u "pool",
              u "Coord_19.1738_-96.1342")) /\
  stdin (snd (parse_coordinate_input (u "19.1738, -96.1342")
                (with_stdin [u " pool "; u "  "; u "fin"] boot)))
  = [u "fin"].
Proof.
  split; [reflexivity|].
  destruct (@parse_two_fields_prompts (u "19.1738, -96.1342")
              (with_stdin [u " pool "; u "  "; u "fin"] boot)
              (u "19.1738") (u " -96.1342") veracruz_lat veracruz_lon)
    as [H _]; try (vm_compute; reflexivity).
  exact (H (u " pool ") (u "  ") [u "fin"] eq_refl).
Defined.

(** X6.  A line that holds a degree sign, an apostrophe and a double quote
    is handled as DMS and as nothing else, commas or not: the result is
    what [convert_dms_to_decimal] makes of the line, completed with the
    answers to the two prompts, and there is no result when the conversion
    fails or fewer than two lines of input are left. *)
Theorem parse_dms_branch (user_input : str) (p : process) :
  dms_detected user_input = true ->
  fst (parse_coordinate_input user_input p) =
    Ok match fst (convert_dms_to_decimal user_input p) with
       | Ok (Some (lat, lon)) =>
           match stdin p with
           | t :: d :: _ =>
               Some (lat, lon, strip t,
                     match strip d with
                     | [] => default_description_4f lat lon
                     | description => description
                     end)
           | _ => None
           end
       | _ => None
       end.
Proof.
  intros Hd.
  set (q := with_stdout (stdout p ++ [DmsDetected]) p).
  assert (Hfst : fst (convert_dms_to_decimal user_input q)
                 = fst (convert_dms_to_decimal user_input p))
    by (now rewrite !convert_dms_fst).
  assert (Hin : stdin (snd (convert_dms_to_decimal user_input q)) = stdin p)
    by (now rewrite keeps_stdin_convert).
  unfold parse_coordinate_input, try_except. rewrite Hd.
  unfold bind at 1, print. fold q.
  unfold bind at 1. rewrite <- Hfst.
  destruct (convert_dms_to_decimal user_input q) as [[[[lat lon]|]|e] q'];
    cbn [fst snd] in *; try reflexivity.
  - unfold bind at 1, print. rewrite ask_run. cbn [stdin with_stdout].
    rewrite Hin. destruct (stdin p) as [|t [|d rest]]; reflexivity.
  - destruct (is_ValueError e); reflexivity.
Qed.

(** A complete decimal line whose description holds the three marks. *)
Definition marked_line : str :=
  u "19.1738,-96.1342,pool,5" ++ [deg] ++ u " 3' 2" ++ [dquote].

Lemma parse_dms_branch_witness :
  dms_detected marked_line = true /\
  fst (parse_coordinate_input marked_line boot) = Ok None.
Proof.
  split; [reflexivity|].
  rewrite (parse_dms_branch marked_line boot eq_refl).
  vm_compute. reflexivity.
Defined.

End CollectorTheorems.

(* ===================================================================== *)
(** * The summary and the interactive session *)
(* ===================================================================== *)

Module Session.
Import Text PyFloat Json Collector.

(** ** Python on JSON values *)

(** The truth value of an object, as [if obj:] tests it. *)
Definition truthy (v : value) : bool :=
  match v with
  | VNone => false
  | VBool b => b
  | VInt z => negb (Z.eqb z 0)
  | VFloat (S754_zero _) => false
  | VFloat _ => true
  | VStr [] => false
  | VStr _ => true
  | VList [] => false
  | VList _ => true
  | VDict [] => false
  | VDict _ => true
  end.

(** What a [for] loop (or [enumerate]) goes through: the items of a list,
    the keys of a dictionary, the characters of a string. *)
Definition iterate (v : value) : result (list value) :=
  match v with
  | VList l => Ok l
  | VDict d => Ok (map (fun kv => VStr (fst kv)) d)
  | VStr s => Ok (map (fun c => VStr [c]) s)
  | _ => Err TypeError
  end.

(** [format(v, '.6f')]: numbers only; an [int] (or [bool]) goes through
    [float] first. *)
Definition format_6f (v : value) : result str :=
  match v with
  | VFloat x => Ok (format_fixed 6 x)
  | VInt z =>
      (let? x := float_of_int z in Ok (format_fixed 6 x))%result
  | VBool b =>
      (let? x := float_of_int (if b then 1 else 0) in
       Ok (format_fixed 6 x))%result
  | VStr _ => Err ValueError
  | _ => Err TypeError
  end.

(** [str(v)], and [repr(v)] for what a list or a dictionary holds: turning
    an [int] into text fails when it has more decimal digits than the
    interpreter's bound (0 for no bound). *)
Definition int_shown (limit : nat) (z : Z) : bool :=
  Nat.eqb limit 0
  || Nat.leb (List.length (decimal_of_Z (Z.abs z))) limit.

Fixpoint shown (limit : nat) (v : value) : bool :=
  match v with
  | VInt z => int_shown limit z
  | VList l => forallb (shown limit) l
  | VDict d => forallb (fun kv => shown limit (snd kv)) d
  | _ => true
  end.

(** What [print(f"...{v}...")] can raise: [ValueError] while the text is
    built, [UnicodeEncodeError] when it is written to the console, a UTF-8
    stream like the file.  Only a string at top level puts its code points
    in the text as they are; inside a list or a dictionary [repr] escapes
    the surrogates. *)
Definition displayed (limit : nat) (v : value) : result unit :=
  if negb (shown limit v) then Err ValueError
  else
    match v with
    | VStr s => if str_encodable s then Ok tt else Err UnicodeEncodeError
    | _ => Ok tt
    end.

(** ** The console of the session *)

(** Lines on the console: those the methods of [Collector] print, and those
    of [show_summary] and [interactive_collector] (again one constructor
    per kind of line, wording and layout left out). *)
Inductive line :=
| Said (m : message)
| Banner                   (* accepted formats and commands *)
| CommandPrompt            (* the request for a line, and its prompt *)
| Completed
| SummaryTitle
| SummaryTotal (n : nat)
| PoolsHeader (n : nat)
| AreasHeader (n : nat)
| Entry (i : nat) (description : value)
| Position (lat lon : str)
| NoPoolsConfigured
| NoAreasConfigured
| SummaryEnd.

(** The collector, and the console as the session writes it.  The methods
    of [Collector] leave their lines in [stdout (proc s)]; they are moved
    to [screen s], in order, before anything else is written. *)
Record session := {
  proc : process;
  screen : list line
}.

(** Everything printed so far, oldest line first. *)
Definition console (s : session) : list line :=
  screen s ++ map Said (stdout (proc s)).

Definition flush (s : session) : session :=
  {| proc := with_stdout [] (proc s); screen := console s |}.

Definition S (A : Type) : Type := session -> result A * session.

Definition sret {A} (a : A) : S A := fun s => (Ok a, s).

Definition sbind {A B} (m : S A) (k : A -> S B) : S B :=
  fun s =>
    match m s with
    | (Ok a, s') => k a s'
    | (Err e, s') => (Err e, s')
    end.

Definition slift {A} (r : result A) : S A := fun s => (r, s).

Declare Scope session_scope.
Delimit Scope session_scope with session.
Notation "x <- m ;; k" := (sbind m (fun x => k))
  (at level 61, m at next level, right associativity) : session_scope.
Notation "m ;; k" := (sbind m (fun _ => k))
  (at level 61, right associativity) : session_scope.
Local Open Scope session_scope.

(** A method of the collector, called from the session. *)
Definition call {A} (m : M A) : S A :=
  fun s =>
    let (r, p') := m (proc s) in
    (r, flush {| proc := p'; screen := screen s |}).

(** [print] in [show_summary] and [interactive_collector]. *)
Definition say (l : line) : S unit :=
  fun s =>
    (Ok tt, {| proc := proc (flush s); screen := screen (flush s) ++ [l] |}).

(** The check that comes with printing the value [v]. *)
Definition display (v : value) : S unit :=
  fun s => (displayed (int_max_str_digits (proc s)) v, s).

(** ** [show_summary] *)

(** [self.coordinates[key]]. *)
Definition lookup (key : str) : M value :=
  bind get_coordinates (fun c => lift (getitem c key)).

(** The body of the two [for] loops: the numbered description, then the
    position with six decimals. *)
Fixpoint show_entries (i : nat) (items : list value) : S unit :=
  match items with
  | [] => sret tt
  | item :: rest =>
      description <- slift (getitem item (u "description"));;
      display description;;
      say (Entry i description);;
      lat <- slift (getitem item (u "lat"));;
      lat_text <- slift (format_6f lat);;
      lon <- slift (getitem item (u "lon"));;
      lon_text <- slift (format_6f lon);;
      say (Position lat_text lon_text);;
      show_entries (Datatypes.S i) rest
  end.

(** One of the two halves of [show_summary]; they differ in the list and in
    the wording. *)
Definition show_section (key : str) (header : nat -> line) (nothing : line)
  : S unit :=
  n <- call (len_of key);;
  say (header n);;
  l <- call (lookup key);;
  if truthy l then
    l' <- call (lookup key);;
    items <- slift (iterate l');;
    show_entries 1 items
  else say nothing.

Definition show_summary : S unit :=
  say SummaryTitle;;
  n <- call (len_of k_pools);;
  m <- call (len_of k_no_pools);;
  say (SummaryTotal (n + m));;
  show_section k_pools PoolsHeader NoPoolsConfigured;;
  show_section k_no_pools AreasHeader NoAreasConfigured;;
  say SummaryEnd.

(** ** [interactive_collector] *)

(** [input] at the command prompt: no handler is around it. *)
Definition read_line : M str :=
  fun p =>
    match stdin p with
    | l :: rest => (Ok l, with_stdin rest p)
    | [] => (Err EOFError, p)
    end.

(** The [while True] loop, for at most [fuel] turns: [Some tt] when [fin]
    ended it, [None] when the turns ran out. *)
Fixpoint command_loop (fuel : nat) : S (option unit) :=
  match fuel with
  | O => sret None
  | Datatypes.S fuel' =>
      say CommandPrompt;;
      raw <- call read_line;;
      let user_input := strip raw in
      if str_eqb (lower user_input) (u "fin") then sret (Some tt)
      else if str_eqb (lower user_input) (u "mostrar") then
        show_summary;;
        command_loop fuel'
      else if str_eqb (lower user_input) (u "guardar") then
        call save_coordinates;;
        command_loop fuel'
      else if str_eqb (lower user_input) (u "ayuda") then
        say Banner;;
        command_loop fuel'
      else
        call (collect user_input);;
        command_loop fuel'
  end.

Definition interactive_collector (fuel : nat) : S (option unit) :=
  call CoordinateCollector;;
  say Banner;;
  ended <- command_loop fuel;;
  match ended with
  | Some _ =>
      call save_coordinates;;
      say Completed;;
      sret (Some tt)
  | None => sret None
  end.

End Session.

(* ===================================================================== *)
(** * Facts about the session *)
(* ===================================================================== *)

Module SessionFacts.
Import Text PyFloat Json Collector StoreFacts Frames CollectorTheorems.
Import Session.
Local Open Scope session_scope.

Lemma sbind_ok {A B} (m : S A) (k : A -> S B) s a s' :
  m s = (Ok a, s') -> sbind m k s = k a s'.
Proof. unfold sbind. now intros ->. Qed.

Lemma sbind_err {A B} (m : S A) (k : A -> S B) s e s' :
  m s = (Err e, s') -> sbind m k s = (Err e, s').
Proof. unfold sbind. now intros ->. Qed.

(** ** What a statement of the session leaves alone *)

Section Field.

(** [f] is read off the process state and does not look at the console. *)
Context {X : Type} (f : process -> X).
Hypothesis Hout : ignores_stdout f.

Definition skeeps {A} (m : S A) : Prop :=
  forall s, f (proc (snd (m s))) = f (proc s).

Lemma skeeps_sret {A} (a : A) : skeeps (sret a).
Proof. intros s. reflexivity. Qed.

Lemma skeeps_slift {A} (r : result A) : skeeps (slift r).
Proof. intros s. reflexivity. Qed.

Lemma skeeps_display v : skeeps (display v).
Proof. intros s. reflexivity. Qed.

Lemma skeeps_sbind {A B} (m : S A) (k : A -> S B) :
  skeeps m -> (forall a, skeeps (k a)) -> skeeps (sbind m k).
Proof.
  intros Hm Hk s. unfold sbind. specialize (Hm s).
  destruct (m s) as [[a|e] s']; cbn [snd] in *; [|assumption].
  now rewrite Hk.
Qed.

Lemma skeeps_say l : skeeps (say l).
Proof. intros s. cbn. apply Hout. Qed.

Lemma skeeps_call {A} (m : M A) : keeps f m -> skeeps (call m).
Proof.
  intros Hm s. unfold call. specialize (Hm (proc s)).
  destruct (m (proc s)) as [r p']. cbn in *. now rewrite Hout.
Qed.

Lemma keeps_lookup key : keeps f (lookup key).
Proof.
  unfold lookup. apply keeps_bind; [apply keeps_get|intros c].
  apply keeps_lift.
Qed.

Lemma skeeps_show_entries items : forall i, skeeps (show_entries i items).
Proof.
  induction items as [|item rest IH]; intros i; cbn [show_entries].
  - apply skeeps_sret.
  - apply skeeps_sbind; [apply skeeps_slift|intros description].
    apply skeeps_sbind; [apply skeeps_display|intros _].
    apply skeeps_sbind; [apply skeeps_say|intros _].
    apply skeeps_sbind; [apply skeeps_slift|intros lat].
    apply skeeps_sbind; [apply skeeps_slift|intros lat_text].
    apply skeeps_sbind; [apply skeeps_slift|intros lon].
    apply skeeps_sbind; [apply skeeps_slift|intros lon_text].
    apply skeeps_sbind; [apply skeeps_say|intros _].
    apply IH.
Qed.

Lemma skeeps_show_section key header nothing :
  skeeps (show_section key header nothing).
Proof.
  unfold show_section.
  apply skeeps_sbind; [apply skeeps_call, keeps_len_of|intros n].
  apply skeeps_sbind; [apply skeeps_say|intros _].
  apply skeeps_sbind; [apply skeeps_call, keeps_lookup|intros l].
  destruct (truthy l); [|apply skeeps_say].
  apply skeeps_sbind; [apply skeeps_call, keeps_lookup|intros l'].
  apply skeeps_sbind; [apply skeeps_slift|intros items].
  apply skeeps_show_entries.
Qed.

Lemma skeeps_show_summary : skeeps show_summary.
Proof.
  unfold show_summary.
  apply skeeps_sbind; [apply skeeps_say|intros _].
  apply skeeps_sbind; [apply skeeps_call, keeps_len_of|intros n].
  apply skeeps_sbind; [apply skeeps_call, keeps_len_of|intros m].
  apply skeeps_sbind; [apply skeeps_say|intros _].
  apply skeeps_sbind; [apply skeeps_show_section|intros _].
  apply skeeps_sbind; [apply skeeps_show_section|intros _].
  apply skeeps_say.
Qed.

Lemma keeps_read_line : ignores_stdin f -> keeps f read_line.
Proof.
  intros Hin p. unfold read_line. destruct (stdin p); [reflexivity|].
  cbn. apply Hin.
Qed.

Lemma keeps_collect user_input :
  keeps f (parse_coordinate_input user_input) ->
  ignores_coordinates f -> ignores_ticks f ->
  keeps f (collect user_input).
Proof.
  intros Hparse Hc Ht. unfold collect.
  apply keeps_bind; [exact Hparse|intros [[[[lat lon] t] d]|]].
  - apply keeps_bind; [now apply keeps_add_coordinate|intros _].
    apply keeps_ret.
  - apply keeps_ret.
Qed.

End Field.

(** ** Running the summary *)

(** The session [s] after the lines [ls] were printed. *)
Definition shows (s : session) (ls : list line) : session :=
  {| proc := with_stdout [] (proc s); screen := console s ++ ls |}.

Lemma console_shows s ls : console (shows s ls) = console s ++ ls.
Proof. unfold console at 1. cbn. apply app_nil_r. Qed.

Lemma shows_shows s a b : shows (shows s a) b = shows s (a ++ b).
Proof.
  unfold shows at 1. rewrite console_shows. cbn [proc shows].
  unfold shows. now rewrite app_assoc.
Qed.

Lemma say_run l s : say l s = (Ok tt, shows s [l]).
Proof. reflexivity. Qed.

Lemma say_shows l s ls : say l (shows s ls) = (Ok tt, shows s (ls ++ [l])).
Proof. now rewrite say_run, shows_shows. Qed.

Lemma sbind_slift {A B} (r : result A) (k : A -> S B) s :
  sbind (slift r) k s
  = match r with Ok a => k a s | Err e => (Err e, s) end.
Proof. now destruct r. Qed.

Lemma sbind_display {B} v (k : unit -> S B) s :
  sbind (display v) k s
  = match displayed (int_max_str_digits (proc s)) v with
    | Ok a => k a s
    | Err e => (Err e, s)
    end.
Proof. unfold sbind, display. now destruct (displayed _ v). Qed.

(** A call that only reads the store. *)
Lemma call_reads {A} (m : M A) r s :
  m (proc s) = (r, proc s) -> call m s = (r, shows s []).
Proof.
  intros H. unfold call. rewrite H. unfold flush, shows, console. cbn.
  now rewrite app_nil_r.
Qed.

Lemma call_reads_shows {A} (m : M A) r s ls :
  m (proc (shows s ls)) = (r, proc (shows s ls)) ->
  call m (shows s ls) = (r, shows s ls).
Proof.
  intros H. rewrite (call_reads m _ H), shows_shows. now rewrite app_nil_r.
Qed.

Lemma len_of_records key p l :
  records key (coordinates p) = Some l ->
  len_of key p = (Ok (List.length l), p).
Proof.
  intros H. apply records_inv in H as (d & Hc & Hk).
  now apply len_of_run with (d := d).
Qed.

Lemma lookup_records key p l :
  records key (coordinates p) = Some l ->
  lookup key p = (Ok (VList l), p).
Proof.
  intros H. apply records_inv in H as (d & Hc & Hk).
  unfold lookup, bind, get_coordinates, lift, getitem. now rewrite Hc, Hk.
Qed.

(** What [show_summary] prints for one record: the description, and the
    two coordinates with six decimals. *)
Definition entry_of (limit : nat) (r : value)
  : result (value * str * str) :=
  (let? description := getitem r (u "description") in
   let? _ := displayed limit description in
   let? lat := getitem r (u "lat") in
   let? lat_text := format_6f lat in
   let? lon := getitem r (u "lon") in
   let? lon_text := format_6f lon in
   Ok (description, lat_text, lon_text))%result.

Fixpoint entries_of (limit : nat) (items : list value)
  : result (list (value * str * str)) :=
  match items with
  | [] => Ok []
  | r :: rest =>
      (let? t := entry_of limit r in
       let? ts := entries_of limit rest in
       Ok (t :: ts))%result
  end.

Definition entry_lines (i : nat) (t : value * str * str) : list line :=
  let '(description, lat_text, lon_text) := t in
  [Entry i description; Position lat_text lon_text].

(** The lines of a list of records, numbered from [i]. *)
Fixpoint listing (i : nat) (ts : list (value * str * str)) : list line :=
  match ts with
  | [] => []
  | t :: rest => entry_lines i t ++ listing (Datatypes.S i) rest
  end.

Definition section_lines (nothing : line) (ts : list (value * str * str))
  : list line :=
  match ts with
  | [] => [nothing]
  | _ => listing 1 ts
  end.

Lemma entries_of_app limit a b :
  entries_of limit (a ++ b) =
    (let? ta := entries_of limit a in
     let? tb := entries_of limit b in
     Ok (ta ++ tb))%result.
Proof.
  induction a as [|r a IH]; cbn [entries_of app rbind].
  - now destruct (entries_of limit b).
  - destruct (entry_of limit r) as [t|e]; cbn [rbind]; [|reflexivity].
    rewrite IH. destruct (entries_of limit a) as [ta|e]; cbn [rbind];
      [|reflexivity].
    now destruct (entries_of limit b).
Qed.

Lemma entries_of_length limit items ts :
  entries_of limit items = Ok ts -> List.length ts = List.length items.
Proof.
  revert ts. induction items as [|r items IH]; intros ts; cbn [entries_of].
  - now intros [= <-].
  - destruct (entry_of limit r) as [t|e]; cbn [rbind]; [|discriminate].
    destruct (entries_of limit items) as [ts'|e]; cbn [rbind];
      [|discriminate].
    intros [= <-]. cbn. now rewrite (IH ts').
Qed.

(** The loop over the records: all the lines when every record can be
    printed, the exception of the first one that cannot otherwise. *)
Lemma show_entries_run s items :
  forall i ls,
    match entries_of (int_max_str_digits (proc s)) items with
    | Ok ts =>
        show_entries i items (shows s ls)
        = (Ok tt, shows s (ls ++ listing i ts))
    | Err e => fst (show_entries i items (shows s ls)) = Err e
    end.
Proof.
  induction items as [|item rest IH]; intros i ls.
  - cbn. now rewrite app_nil_r.
  - cbn [entries_of show_entries]. unfold entry_of.
    rewrite sbind_slift.
    destruct (getitem item (u "description")) as [d|e]; cbn [rbind fst];
      [|reflexivity].
    rewrite sbind_display. cbn [proc shows].
    change (int_max_str_digits (with_stdout [] (proc s)))
      with (int_max_str_digits (proc s)).
    destruct (displayed (int_max_str_digits (proc s)) d) as [[]|e];
      cbn [rbind fst]; [|reflexivity].
    erewrite sbind_ok by apply say_shows.
    rewrite sbind_slift.
    destruct (getitem item (u "lat")) as [lat|e]; cbn [rbind fst];
      [|reflexivity].
    rewrite sbind_slift.
    destruct (format_6f lat) as [a|e]; cbn [rbind fst]; [|reflexivity].
    rewrite sbind_slift.
    destruct (getitem item (u "lon")) as [lon|e]; cbn [rbind fst];
      [|reflexivity].
    rewrite sbind_slift.
    destruct (format_6f lon) as [b|e]; cbn [rbind fst]; [|reflexivity].
    erewrite sbind_ok by apply say_shows.
    specialize (IH (Datatypes.S i) ((ls ++ [Entry i d]) ++ [Position a b])).
    destruct (entries_of (int_max_str_digits (proc s)) rest) as [ts|e];
      cbn [rbind].
    + rewrite IH. cbn [listing entry_lines]. f_equal. f_equal.
      now rewrite <- !app_assoc.
    + exact IH.
Qed.

(** One half of the summary, on a store that has the list. *)
Lemma show_section_run key header nothing s ls l :
  records key (coordinates (proc s)) = Some l ->
  match entries_of (int_max_str_digits (proc s)) l with
  | Ok ts =>
      show_section key header nothing (shows s ls)
      = (Ok tt,
         shows s (ls ++ header (List.length l) :: section_lines nothing ts))
  | Err e => fst (show_section key header nothing (shows s ls)) = Err e
  end.
Proof.
  intros Hl. unfold show_section.
  erewrite sbind_ok by (apply call_reads_shows, len_of_records; exact Hl).
  erewrite sbind_ok by apply say_shows.
  erewrite sbind_ok by (apply call_reads_shows, lookup_records; exact Hl).
  destruct l as [|r l']; cbn [truthy].
  - cbn [entries_of section_lines]. rewrite say_shows.
    now rewrite <- app_assoc.
  - erewrite sbind_ok by (apply call_reads_shows, lookup_records; exact Hl).
    rewrite sbind_slift. cbn [iterate].
    pose proof (show_entries_run s (r :: l') 1
                  (ls ++ [header (List.length (r :: l'))])) as H.
    destruct (entries_of (int_max_str_digits (proc s)) (r :: l'))
      as [ts|e] eqn:E.
    + rewrite H. f_equal. rewrite <- app_assoc. cbn [app].
      destruct ts as [|t ts]; [|reflexivity].
      apply entries_of_length in E. discriminate.
    + exact H.
Qed.

(** The whole summary, on a store that has the two lists. *)
Lemma show_summary_run s pools no_pools :
  records k_pools (coordinates (proc s)) = Some pools ->
  records k_no_pools (coordinates (proc s)) = Some no_pools ->
  let limit := int_max_str_digits (proc s) in
  match entries_of limit pools, entries_of limit no_pools with
  | Ok ps, Ok ns =>
      show_summary s
      = (Ok tt,
         shows s
           ([SummaryTitle;
             SummaryTotal (List.length pools + List.length no_pools);
             PoolsHeader (List.length pools)]
              ++ section_lines NoPoolsConfigured ps
              ++ [AreasHeader (List.length no_pools)]
              ++ section_lines NoAreasConfigured ns
              ++ [SummaryEnd]))
  | Ok _, Err e => fst (show_summary s) = Err e
  | Err e, _ => fst (show_summary s) = Err e
  end.
Proof.
  intros Hp Hn limit. unfold show_summary.
  erewrite sbind_ok by apply say_run.
  erewrite sbind_ok by (apply call_reads_shows, len_of_records; exact Hp).
  erewrite sbind_ok by (apply call_reads_shows, len_of_records; exact Hn).
  erewrite sbind_ok by apply say_shows.
  pose proof (show_section_run k_pools PoolsHeader NoPoolsConfigured s
                ([SummaryTitle] ++
                 [SummaryTotal (List.length pools + List.length no_pools)])
                Hp) as H1.
  fold limit in H1.
  destruct (entries_of limit pools) as [ps|e].
  - erewrite sbind_ok by exact H1.
    pose proof (show_section_run k_no_pools AreasHeader NoAreasConfigured s
                  (([SummaryTitle] ++
                    [SummaryTotal
                       (List.length pools + List.length no_pools)])
                   ++ PoolsHeader (List.length pools)
                        :: section_lines NoPoolsConfigured ps)
                  Hn) as H2.
    fold limit in H2.
    destruct (entries_of limit no_pools) as [ns|e].
    + erewrite sbind_ok by exact H2. rewrite say_shows. f_equal. f_equal.
      cbn [app]. rewrite <- !app_assoc. reflexivity.
    + unfold sbind at 1.
      destruct (show_section k_no_pools AreasHeader NoAreasConfigured _)
        as [[[]|e'] s']; cbn [fst] in *; congruence.
  - unfold sbind at 1.
    destruct (show_section k_pools PoolsHeader NoPoolsConfigured _)
      as [[[]|e'] s']; cbn [fst] in *; congruence.
Qed.

End SessionFacts.

(* ===================================================================== *)
(** * Theorems: the summary *)
(* ===================================================================== *)

Module SummaryTheorems.
Import Text PyFloat Json Collector StoreFacts Frames CollectorTheorems.
Import StoreTheorems Session SessionFacts.
Local Open Scope session_scope.

(** The record [r] can be printed, as the description [description] and the
    coordinates [lat_text] and [lon_text]. *)
Definition prints (limit : nat) (r : value) (t : value * str * str) : Prop :=
  let '(description, lat_text, lon_text) := t in
  getitem r (u "description") = Ok description /\
  displayed limit description = Ok tt /\
  exists lat lon,
    getitem r (u "lat") = Ok lat /\ format_6f lat = Ok lat_text /\
    getitem r (u "lon") = Ok lon /\ format_6f lon = Ok lon_text.

Definition printable (limit : nat) (r : value) : Prop :=
  exists t, prints limit r t.

Lemma prints_entry_of limit r t : prints limit r t <-> entry_of limit r = Ok t.
Proof.
  destruct t as [[d a] b]. unfold prints, entry_of. split.
  - intros (Hd & Hs & lat & lon & Hlat & Ha & Hlon & Hb).
    rewrite Hd; cbn [rbind]. rewrite Hs; cbn [rbind].
    rewrite Hlat; cbn [rbind]. rewrite Ha; cbn [rbind].
    rewrite Hlon; cbn [rbind]. now rewrite Hb.
  - destruct (getitem r (u "description")) as [d'|]; cbn [rbind];
      [|discriminate].
    destruct (displayed limit d') as [[]|] eqn:Hs; cbn [rbind];
      [|discriminate].
    destruct (getitem r (u "lat")) as [lat|]; cbn [rbind]; [|discriminate].
    destruct (format_6f lat) as [a'|] eqn:Ha; cbn [rbind]; [|discriminate].
    destruct (getitem r (u "lon")) as [lon|]; cbn [rbind]; [|discriminate].
    destruct (format_6f lon) as [b'|] eqn:Hb; cbn [rbind]; [|discriminate].
    intros [= -> -> ->]. split; [reflexivity|]. split; [assumption|].
    exists lat, lon. auto.
Qed.

Lemma prints_entries_of limit items ts :
  Forall2 (prints limit) items ts <-> entries_of limit items = Ok ts.
Proof.
  split.
  - induction 1 as [|r t items ts Hr _ IH]; cbn [entries_of];
      [reflexivity|].
    apply prints_entry_of in Hr. now rewrite Hr, IH.
  - revert ts. induction items as [|r items IH]; intros ts;
      cbn [entries_of].
    + intros [= <-]. constructor.
    + destruct (entry_of limit r) as [t|] eqn:Hr; cbn [rbind];
        [|discriminate].
      destruct (entries_of limit items) as [ts'|]; cbn [rbind];
        [|discriminate].
      intros [= <-]. constructor; [now apply prints_entry_of|now apply IH].
Qed.

Lemma printable_entries_of limit items :
  Forall (printable limit) items <-> exists ts, entries_of limit items = Ok ts.
Proof.
  split.
  - induction 1 as [|r items [t Hr] _ [ts IH]].
    + now exists [].
    + exists (t :: ts). cbn [entries_of]. apply prints_entry_of in Hr.
      now rewrite Hr, IH.
  - intros [ts H]. apply prints_entries_of in H.
    induction H as [|r t items ts Hr _ IH]; constructor; [|assumption].
    now exists t.
Qed.

(** The console only gets longer. *)
Definition extends {A} (m : S A) : Prop :=
  forall s, exists ls, console (snd (m s)) = console s ++ ls.

Lemma extends_pure {A} (m : S A) :
  (forall s, snd (m s) = s) -> extends m.
Proof. intros H s. exists []. now rewrite H, app_nil_r. Qed.

Lemma extends_sbind {A B} (m : S A) (k : A -> S B) :
  extends m -> (forall a, extends (k a)) -> extends (sbind m k).
Proof.
  intros Hm Hk s. unfold sbind. destruct (Hm s) as [l1 H1].
  destruct (m s) as [[a|e] s']; cbn [snd] in *.
  - destruct (Hk a s') as [l2 H2]. exists (l1 ++ l2).
    now rewrite H2, H1, app_assoc.
  - now exists l1.
Qed.

Lemma extends_say l : extends (say l).
Proof. intros s. exists [l]. rewrite say_run. apply console_shows. Qed.

Lemma extends_call_quiet {A} (m : M A) : keeps stdout m -> extends (call m).
Proof.
  intros Hm s. exists []. unfold call. specialize (Hm (proc s)).
  destruct (m (proc s)) as [r p']. cbn [snd] in *.
  unfold flush, console. cbn. now rewrite Hm, !app_nil_r.
Qed.

Lemma extends_show_entries items : forall i, extends (show_entries i items).
Proof.
  induction items as [|item rest IH]; intros i; cbn [show_entries].
  - now apply extends_pure.
  - apply extends_sbind; [now apply extends_pure|intros description].
    apply extends_sbind; [now apply extends_pure|intros _].
    apply extends_sbind; [apply extends_say|intros _].
    apply extends_sbind; [now apply extends_pure|intros lat].
    apply extends_sbind; [now apply extends_pure|intros lat_text].
    apply extends_sbind; [now apply extends_pure|intros lon].
    apply extends_sbind; [now apply extends_pure|intros lon_text].
    apply extends_sbind; [apply extends_say|intros _].
    apply IH.
Qed.

Lemma extends_show_section key header nothing :
  extends (show_section key header nothing).
Proof.
  unfold show_section.
  apply extends_sbind; [apply extends_call_quiet, keeps_len_of|intros n].
  apply extends_sbind; [apply extends_say|intros _].
  apply extends_sbind; [apply extends_call_quiet, keeps_lookup|intros l].
  destruct (truthy l); [|apply extends_say].
  apply extends_sbind; [apply extends_call_quiet, keeps_lookup|intros l'].
  apply extends_sbind; [now apply extends_pure|intros items].
  apply extends_show_entries.
Qed.

Lemma extends_show_summary : extends show_summary.
Proof.
  unfold show_summary.
  apply extends_sbind; [apply extends_say|intros _].
  apply extends_sbind; [apply extends_call_quiet, keeps_len_of|intros n].
  apply extends_sbind; [apply extends_call_quiet, keeps_len_of|intros m].
  apply extends_sbind; [apply extends_say|intros _].
  apply extends_sbind; [apply extends_show_section|intros _].
  apply extends_sbind; [apply extends_show_section|intros _].
  apply extends_say.
Qed.

(** X7.  [show_summary] is read-only: whether it returns or raises, and
    whatever the store holds, it leaves the store, the file, the clock and
    the pending input as they were, and only adds lines to the console. *)
Theorem show_summary_read_only (s : session) :
  same_store (proc s) (proc (snd (show_summary s))) /\
  stdin (proc (snd (show_summary s))) = stdin (proc s) /\
  exists ls, console (snd (show_summary s)) = console s ++ ls.
Proof.
  split; [|split].
  - repeat apply conj; apply skeeps_show_summary; intros l p; reflexivity.
  - apply skeeps_show_summary. intros l p. reflexivity.
  - apply extends_show_summary.
Qed.

(** X8.  On a store whose records can all be printed, [show_summary]
    returns, and prints: the title, the total of the two lists, the number
    of pools, the pools in the order of the list, numbered from 1, each
    with its description and its position to six decimals (or one line
    saying there are none), then the same for the other list, then the
    closing line. *)
Theorem show_summary_lists_records
  (s : session) (pools no_pools : list value)
  (ps ns : list (value * str * str)) :
  records k_pools (coordinates (proc s)) = Some pools ->
  records k_no_pools (coordinates (proc s)) = Some no_pools ->
  Forall2 (prints (int_max_str_digits (proc s))) pools ps ->
  Forall2 (prints (int_max_str_digits (proc s))) no_pools ns ->
  fst (show_summary s) = Ok tt /\
  console (snd (show_summary s)) =
    console s
      ++ [SummaryTitle;
          SummaryTotal (List.length pools + List.length no_pools);
          PoolsHeader (List.length pools)]
      ++ section_lines NoPoolsConfigured ps
      ++ [AreasHeader (List.length no_pools)]
      ++ section_lines NoAreasConfigured ns
      ++ [SummaryEnd].
Proof.
  intros Hp Hn Hps Hns.
  apply prints_entries_of in Hps. apply prints_entries_of in Hns.
  pose proof (show_summary_run s Hp Hn) as H. cbv zeta in H.
  rewrite Hps, Hns in H. rewrite H. cbn [fst snd].
  split; [reflexivity|]. apply console_shows.
Qed.

(** A record as [add_coordinate] builds it is printed with its description
    and its two coordinates. *)
Lemma prints_coord_data limit lat lon desc :
  str_encodable desc = true ->
  prints limit (coord_data lat lon desc)
    (VStr desc, format_fixed 6 lat, format_fixed 6 lon).
Proof.
  intros Hd. unfold prints. split; [reflexivity|]. split.
  - unfold displayed. cbn [shown negb]. now rewrite Hd.
  - exists (VFloat lat), (VFloat lon). now repeat split.
Qed.

Definition summary_session : session :=
  {| proc := one_pool; screen := [] |}.

Lemma show_summary_lists_records_witness :
  console (snd (show_summary summary_session)) =
    [Said (PoolAdded (u "Casa1") veracruz_lat veracruz_lon);
     SummaryTitle; SummaryTotal 1; PoolsHeader 1;
     Entry 1 (VStr (u "Casa1"));
     Position (u "19.173800") (u "-96.134200");
     AreasHeader 0; NoAreasConfigured; SummaryEnd].
Proof.
  assert (Hp : records k_pools (coordinates (proc summary_session))
               = Some [coord_data veracruz_lat veracruz_lon (u "Casa1")])
    by (vm_compute; reflexivity).
  assert (Hn : records k_no_pools (coordinates (proc summary_session))
               = Some [])
    by (vm_compute; reflexivity).
  assert (Ht : prints (int_max_str_digits (proc summary_session))
                 (coord_data veracruz_lat veracruz_lon (u "Casa1"))
                 (VStr (u "Casa1"), u "19.173800", u "-96.134200")).
  { split; [vm_compute; reflexivity|]. split; [vm_compute; reflexivity|].
    exists (VFloat veracruz_lat), (VFloat veracruz_lon).
    repeat apply conj; vm_compute; reflexivity. }
  destruct (@show_summary_lists_records summary_session _ _
              [(VStr (u "Casa1"), u "19.173800", u "-96.134200")] []
              Hp Hn (Forall2_cons _ _ Ht (Forall2_nil _)) (Forall2_nil _))
    as [_ H].
  rewrite H. vm_compute. reflexivity.
Defined.

(** X9.  On a store that has the two lists, [show_summary] returns if and
    only if every record of both lists can be printed: it is a dictionary
    with a description that can be shown and numbers under [lat] and
    [lon].  In every other case the exception leaves the method. *)
Theorem show_summary_returns_iff_printable
  (s : session) (pools no_pools : list value) :
  records k_pools (coordinates (proc s)) = Some pools ->
  records k_no_pools (coordinates (proc s)) = Some no_pools ->
  (fst (show_summary s) = Ok tt <->
   Forall (printable (int_max_str_digits (proc s))) (pools ++ no_pools)).
Proof.
  intros Hp Hn. pose proof (show_summary_run s Hp Hn) as H. cbv zeta in H.
  rewrite printable_entries_of, entries_of_app.
  destruct (entries_of (int_max_str_digits (proc s)) pools) as [ps|e];
    cbn [rbind].
  - destruct (entries_of (int_max_str_digits (proc s)) no_pools) as [ns|e];
      cbn [rbind].
    + rewrite H. cbn [fst]. split; [eauto|reflexivity].
    + rewrite H. split; [discriminate|]. intros [ts Hts]. discriminate.
  - rewrite H. split; [discriminate|]. intros [ts Hts]. discriminate.
Qed.

(** A record without coordinates, as a hand-edited file can hold. *)
Definition nameless_session : session :=
  {| proc :=
       with_coordinates
         (VDict [(k_pools, VList [VDict [(u "description", VStr (u "x"))]]);
                 (k_no_pools, VList [])])
         boot;
     screen := [] |}.

Lemma show_summary_returns_iff_printable_witness :
  fst (show_summary summary_session) = Ok tt /\
  fst (show_summary nameless_session) = Err KeyError /\
  ~ printable 4300 (VDict [(u "description", VStr (u "x"))]).
Proof.
  assert (Hp : records k_pools (coordinates (proc summary_session))
               = Some [coord_data veracruz_lat veracruz_lon (u "Casa1")])
    by (vm_compute; reflexivity).
  assert (Hn : records k_no_pools (coordinates (proc summary_session))
               = Some [])
    by (vm_compute; reflexivity).
  split; [|split].
  - apply (proj2 (show_summary_returns_iff_printable summary_session Hp Hn)).
    constructor; [|constructor].
    exists (VStr (u "Casa1"), format_fixed 6 veracruz_lat,
            format_fixed 6 veracruz_lon).
    apply prints_coord_data. vm_compute. reflexivity.
  - vm_compute. reflexivity.
  - intros [[[d a] b] (_ & _ & lat & lon & Hlat & _)]. vm_compute in Hlat.
    discriminate.
Defined.

End SummaryTheorems.

(* ===================================================================== *)
(** * Facts about the command loop *)
(* ===================================================================== *)

Module LoopFacts.
Import Text PyFloat Json Collector StoreFacts Frames CollectorTheorems.
Import InputFacts Session SessionFacts.
Local Open Scope session_scope.

(** ** One turn of the loop *)

(** The command a line stands for. *)
Definition command (raw : str) : str := lower (strip raw).

(** What the loop does with a stripped line that is not [fin]. *)
Definition turn (user_input : str) : S unit :=
  if str_eqb (lower user_input) (u "mostrar") then show_summary
  else if str_eqb (lower user_input) (u "guardar") then call save_coordinates
  else if str_eqb (lower user_input) (u "ayuda") then say Banner
  else call (collect user_input).

(** The session after the prompt and the read. *)
Definition asked (s : session) : session :=
  snd (call read_line (shows s [CommandPrompt])).

Lemma command_loop_step fuel s :
  command_loop (Datatypes.S fuel) s =
    match stdin (proc s) with
    | [] => (Err EOFError, asked s)
    | raw :: _ =>
        if str_eqb (command raw) (u "fin") then (Ok (Some tt), asked s)
        else sbind (turn (strip raw)) (fun _ => command_loop fuel) (asked s)
    end.
Proof.
  cbn [command_loop]. erewrite sbind_ok by apply say_run.
  unfold asked, sbind at 1, call, read_line. cbn [proc shows stdin with_stdout].
  destruct (stdin (proc s)) as [|raw rest]; [reflexivity|].
  cbn [fst snd]. unfold command, turn.
  destruct (str_eqb (lower (strip raw)) (u "fin")); [reflexivity|].
  destruct (str_eqb (lower (strip raw)) (u "mostrar")); [reflexivity|].
  destruct (str_eqb (lower (strip raw)) (u "guardar")); [reflexivity|].
  destruct (str_eqb (lower (strip raw)) (u "ayuda")); reflexivity.
Qed.

Lemma stdin_asked s : stdin (proc (asked s)) = tl (stdin (proc s)).
Proof.
  unfold asked, call, read_line. cbn [proc shows stdin with_stdout].
  destruct (stdin (proc s)) eqn:E; cbn; [exact E|reflexivity].
Qed.

Lemma asked_keeps {X} (f : process -> X) s :
  ignores_stdout f -> ignores_stdin f -> f (proc (asked s)) = f (proc s).
Proof.
  intros Ho Hi. unfold asked.
  rewrite (skeeps_call Ho (keeps_read_line (f := f) Hi)).
  cbn [proc shows]. apply Ho.
Qed.

(** ** What a turn leaves alone *)

Section Field.

(** [f] is a part of the state that neither the console, nor the store, nor
    the file, nor the clock reading count enters. *)
Context {X : Type} (f : process -> X).
Hypothesis Hout : ignores_stdout f.
Hypothesis Hin : ignores_stdin f.
Hypothesis Hc : ignores_coordinates f.
Hypothesis Hf : ignores_file f.
Hypothesis Ht : ignores_ticks f.

Lemma keeps_parse_fixed user_input :
  keeps f (parse_coordinate_input user_input).
Proof.
  unfold parse_coordinate_input. apply keeps_try.
  - destruct (dms_detected user_input).
    + apply keeps_bind; [now apply keeps_print|intros _].
      apply keeps_bind.
      * unfold convert_dms_to_decimal. apply keeps_try.
        -- apply keeps_bind; [apply keeps_int_limit|intros limit].
           apply keeps_bind; [apply keeps_lift|intros lat_part].
           apply keeps_bind; [apply keeps_lift|intros lat].
           apply keeps_bind; [apply keeps_lift|intros lon_part].
           apply keeps_bind; [apply keeps_lift|intros lon].
           apply keeps_ret.
        -- intros e. apply keeps_bind; [now apply keeps_print|intros _].
           apply keeps_ret.
      * intros [[lat lon]|]; [|apply keeps_ret].
        apply keeps_bind; [now apply keeps_print|intros _].
        unfold ask_type_and_description.
        apply keeps_bind; [now apply keeps_input|intros t].
        apply keeps_bind; [now apply keeps_input|intros d].
        apply keeps_ret.
    + destruct (split_on comma user_input) as [|p0 [|p1 [|p2 rest]]].
      * apply keeps_bind; [now apply keeps_print|intros _]. apply keeps_ret.
      * apply keeps_bind; [now apply keeps_print|intros _]. apply keeps_ret.
      * apply keeps_bind; [apply keeps_lift|intros lat].
        apply keeps_bind; [apply keeps_lift|intros lon].
        apply keeps_bind; [now apply keeps_print|intros _].
        unfold ask_type_and_description.
        apply keeps_bind; [now apply keeps_input|intros t].
        apply keeps_bind; [now apply keeps_input|intros d].
        apply keeps_ret.
      * apply keeps_bind; [apply keeps_lift|intros lat].
        apply keeps_bind; [apply keeps_lift|intros lon]. apply keeps_ret.
  - intros e. destruct (is_ValueError e);
      (apply keeps_bind; [now apply keeps_print|intros _]; apply keeps_ret).
Qed.

Lemma skeeps_turn user_input : skeeps f (turn user_input).
Proof.
  unfold turn.
  destruct (str_eqb (lower user_input) (u "mostrar"));
    [now apply skeeps_show_summary|].
  destruct (str_eqb (lower user_input) (u "guardar"));
    [now apply skeeps_call, keeps_save_coordinates|].
  destruct (str_eqb (lower user_input) (u "ayuda"));
    [now apply skeeps_say|].
  apply skeeps_call; [assumption|].
  apply keeps_collect; try assumption. apply keeps_parse_fixed.
Qed.

Lemma skeeps_command_loop fuel : skeeps f (command_loop fuel).
Proof.
  induction fuel as [|fuel IH]; intros s; [reflexivity|].
  rewrite command_loop_step.
  destruct (stdin (proc s)) as [|raw rest]; cbn [snd].
  - now apply asked_keeps.
  - destruct (str_eqb (command raw) (u "fin")); cbn [snd].
    + now apply asked_keeps.
    + transitivity (f (proc (asked s))); [|now apply asked_keeps].
      apply (skeeps_sbind (m := turn (strip raw)));
        [apply skeeps_turn|intros _; exact IH].
Qed.

Lemma skeeps_interactive_collector fuel :
  skeeps f (interactive_collector fuel).
Proof.
  unfold interactive_collector.
  apply skeeps_sbind;
    [now apply skeeps_call, keeps_constructor|intros _].
  apply skeeps_sbind; [now apply skeeps_say|intros _].
  apply skeeps_sbind; [apply skeeps_command_loop|intros [[]|]].
  - apply skeeps_sbind;
      [now apply skeeps_call, keeps_save_coordinates|intros _].
    apply skeeps_sbind; [now apply skeeps_say|intros _].
    apply skeeps_sret.
  - apply skeeps_sret.
Qed.

End Field.

(** ** The pending input *)

(** The statement reads from the front of the pending input. *)
Definition reads {A} (m : S A) : Prop :=
  forall s, exists k, stdin (proc (snd (m s))) = skipn k (stdin (proc s)).

Lemma reads_keeps {A} (m : S A) : skeeps stdin m -> reads m.
Proof. intros H s. exists 0. apply H. Qed.

Lemma reads_call {A} n (m : M A) : consumes n m -> reads (call m).
Proof.
  intros Hm s. unfold call. destruct (Hm (proc s)) as (k & _ & Hk).
  destruct (m (proc s)) as [r p']. exists k. exact Hk.
Qed.

Lemma keeps_stdin_add_coordinate lat lon t d :
  keeps stdin (add_coordinate lat lon t d).
Proof. apply keeps_add_coordinate; intros ? ?; reflexivity. Qed.

Lemma consumes_collect user_input : consumes 2 (collect user_input).
Proof.
  unfold collect.
  apply consumes_bind with (a := 2) (b := 0);
    [apply consumes_parse|intros [[[[lat lon] t] d]|]].
  - apply consumes_keeps.
    apply keeps_bind; [apply keeps_stdin_add_coordinate|intros _].
    apply keeps_ret.
  - apply consumes_keeps, keeps_ret.
Qed.

Lemma reads_turn user_input : reads (turn user_input).
Proof.
  unfold turn.
  destruct (str_eqb (lower user_input) (u "mostrar")).
  { apply reads_keeps, skeeps_show_summary. intros ? ?; reflexivity. }
  destruct (str_eqb (lower user_input) (u "guardar")).
  { apply reads_call with (n := 0), consumes_keeps.
    apply keeps_save_coordinates; intros ? ?; reflexivity. }
  destruct (str_eqb (lower user_input) (u "ayuda")).
  { apply reads_keeps, skeeps_say. intros ? ?; reflexivity. }
  apply reads_call with (n := 2), consumes_collect.
Qed.

Lemma length_skipn_le {A} k (l : list A) :
  List.length (skipn k l) <= List.length l.
Proof. rewrite length_skipn. lia. Qed.

Lemma Forall_skipn {A} (P : A -> Prop) k l :
  Forall P l -> Forall P (skipn k l).
Proof.
  intros H. rewrite <- (firstn_skipn k l) in H.
  now apply Forall_app in H.
Qed.

Lemma sbind_ext {A B} (m : S A) (k k' : A -> S B) s :
  (forall a s', m s = (Ok a, s') -> k a s' = k' a s') ->
  sbind m k s = sbind m k' s.
Proof.
  intros H. unfold sbind. destruct (m s) as [[a|e] s']; [|reflexivity].
  now apply H.
Qed.

(** With more turns than lines of input, the loop does not run out of
    turns, and more turns change nothing. *)
Lemma command_loop_fuel fuel :
  forall s fuel',
    List.length (stdin (proc s)) < fuel -> fuel <= fuel' ->
    fst (command_loop fuel s) <> Ok None /\
    command_loop fuel' s = command_loop fuel s.
Proof.
  induction fuel as [|fuel IH]; intros s fuel' Hlen Hle; [lia|].
  destruct fuel' as [|fuel']; [lia|].
  rewrite !command_loop_step.
  destruct (stdin (proc s)) as [|raw rest] eqn:E.
  - split; [discriminate|reflexivity].
  - destruct (str_eqb (command raw) (u "fin")).
    + split; [discriminate|reflexivity].
    + assert (Hnext : forall a s',
                turn (strip raw) (asked s) = (Ok a, s') ->
                List.length (stdin (proc s')) < fuel).
      { intros a s' Hs'. destruct (reads_turn (strip raw) (asked s)) as [k Hk].
        rewrite Hs' in Hk. cbn [snd] in Hk. rewrite Hk, stdin_asked, E.
        cbn [tl]. pose proof (length_skipn_le k rest). cbn in Hlen. lia. }
      split.
      * unfold sbind.
        destruct (turn (strip raw) (asked s)) as [[a|e] s'] eqn:Hs';
          [|discriminate].
        apply (IH s' fuel); [now apply (Hnext a)|lia].
      * apply sbind_ext. intros a s' Hs'.
        apply (IH s' fuel'); [now apply (Hnext a)|lia].
Qed.

End LoopFacts.

(* ===================================================================== *)
(** * Theorems: the interactive session *)
(* ===================================================================== *)

Module SessionTheorems.
Import Text PyFloat Json Collector StoreFacts Frames CollectorTheorems.
Import InputFacts StoreTheorems Session SessionFacts LoopFacts.
Local Open Scope session_scope.

Lemma stdin_after_banner s a s1 b s2 :
  call CoordinateCollector s = (Ok a, s1) ->
  say Banner s1 = (Ok b, s2) ->
  stdin (proc s2) = stdin (proc s).
Proof.
  intros H1 H2.
  pose proof (skeeps_call (f := stdin) (fun _ _ => eq_refl)
                (keeps_constructor (f := stdin)
                   (fun _ _ => eq_refl) (fun _ _ => eq_refl)) s) as K1.
  rewrite H1 in K1. cbn [snd] in K1. rewrite <- K1.
  rewrite say_run in H2. injection H2 as _ <-. reflexivity.
Qed.

(** X10.  The session always ends on a finite input: given more turns than
    there are lines of input, [interactive_collector] does not run out of
    turns (it returns after [fin], or an exception leaves it), and its
    outcome and final state are the same for any larger number of turns. *)
Theorem interactive_collector_ends (fuel fuel' : nat) (s : session) :
  List.length (stdin (proc s)) < fuel -> fuel <= fuel' ->
  fst (interactive_collector fuel s) <> Ok None /\
  interactive_collector fuel' s = interactive_collector fuel s.
Proof.
  intros Hlen Hle. split.
  - unfold interactive_collector. unfold sbind at 1.
    destruct (call CoordinateCollector s) as [[a|e] s1] eqn:E1;
      [|discriminate].
    unfold sbind at 1.
    destruct (say Banner s1) as [[b|e] s2] eqn:E2; [|discriminate].
    pose proof (@stdin_after_banner _ _ _ _ _ E1 E2) as Hs.
    destruct (@command_loop_fuel fuel s2 fuel) as [Hn _];
      [rewrite Hs; exact Hlen|lia|].
    unfold sbind at 1.
    destruct (command_loop fuel s2) as [[[[]|]|e] s3]; cbn [fst] in *;
      [|congruence|discriminate].
    unfold sbind at 1.
    destruct (call save_coordinates s3) as [[c|e] s4]; [|discriminate].
    unfold sbind. destruct (say Completed s4) as [[d|e] s5]; discriminate.
  - unfold interactive_collector.
    apply sbind_ext. intros a s1 E1. apply sbind_ext. intros b s2 E2.
    pose proof (@stdin_after_banner _ _ _ _ _ E1 E2) as Hs.
    destruct (@command_loop_fuel fuel s2 fuel') as [_ Heq];
      [rewrite Hs; exact Hlen|exact Hle|].
    unfold sbind at 1 3. now rewrite Heq.
Qed.

(** A session on a new disk: one pool is typed in, then [fin]. *)
Definition one_line_session : session :=
  {| proc :=
       with_stdin [u "19.1738,-96.1342,pool,Casa1"; u "fin"] boot;
     screen := [] |}.

Lemma interactive_collector_ends_witness :
  fst (interactive_collector 3 one_line_session) = Ok (Some tt) /\
  interactive_collector 10 one_line_session
  = interactive_collector 3 one_line_session.
Proof.
  split; [vm_compute; reflexivity|].
  apply (@interactive_collector_ends 3 10 one_line_session).
  - vm_compute. lia.
  - lia.
Defined.

(** ** Leaving without [fin] *)

Lemma skeeps_file_turn user_input :
  str_eqb (lower user_input) (u "guardar") = false ->
  skeeps file (turn user_input).
Proof.
  intros Hg. unfold turn. rewrite Hg.
  destruct (str_eqb (lower user_input) (u "mostrar")).
  { apply skeeps_show_summary. intros ? ?; reflexivity. }
  destruct (str_eqb (lower user_input) (u "ayuda")).
  { apply skeeps_say. intros ? ?; reflexivity. }
  apply skeeps_call; [intros ? ?; reflexivity|].
  apply keeps_collect; try (intros ? ?; reflexivity).
  apply keeps_parse_fixed; intros ? ?; reflexivity.
Qed.

(** The line is neither [fin] nor [guardar]. *)
Definition no_save (raw : str) : Prop :=
  str_eqb (command raw) (u "fin") = false /\
  str_eqb (command raw) (u "guardar") = false.

Lemma command_loop_no_save fuel :
  forall s,
    Forall no_save (stdin (proc s)) ->
    List.length (stdin (proc s)) < fuel ->
    exists e,
      fst (command_loop fuel s) = Err e /\
      file (proc (snd (command_loop fuel s))) = file (proc s).
Proof.
  induction fuel as [|fuel IH]; intros s Hall Hlen; [lia|].
  rewrite command_loop_step.
  assert (Ha : file (proc (asked s)) = file (proc s))
    by (apply asked_keeps; intros ? ?; reflexivity).
  destruct (stdin (proc s)) as [|raw rest] eqn:E.
  - exists EOFError. split; [reflexivity|exact Ha].
  - inversion Hall as [|? ? [Hfin Hsave] Hrest]; subst.
    rewrite Hfin.
    pose proof (skeeps_file_turn (strip raw) Hsave (asked s)) as Hfile.
    destruct (reads_turn (strip raw) (asked s)) as [k Hk].
    rewrite stdin_asked, E in Hk. cbn [tl] in Hk.
    unfold sbind.
    destruct (turn (strip raw) (asked s)) as [[a|e] s'] eqn:Hs';
      cbn [fst snd] in *.
    + destruct (IH s') as (e & He & Hf).
      * rewrite Hk. now apply Forall_skipn.
      * rewrite Hk. pose proof (length_skipn_le k rest). cbn in Hlen. lia.
      * exists e. split; [exact He|]. now rewrite Hf, Hfile.
    + exists e. split; [reflexivity|]. now rewrite Hfile.
Qed.

(** X11.  Leaving without [fin] saves nothing.  When no line of the input
    is the command [fin] or the command [guardar], the session does not
    return: an exception leaves [interactive_collector] (the one [input]
    raises at the end of the input, if none came before), the final save
    does not run, and the file is what it was when the session began:
    every coordinate typed in is lost. *)
Theorem session_without_fin_saves_nothing (fuel : nat) (s : session) :
  Forall no_save (stdin (proc s)) ->
  List.length (stdin (proc s)) < fuel ->
  exists e,
    fst (interactive_collector fuel s) = Err e /\
    file (proc (snd (interactive_collector fuel s))) = file (proc s).
Proof.
  intros Hall Hlen. unfold interactive_collector.
  pose proof (skeeps_call (f := file) (fun _ _ => eq_refl)
                (keeps_constructor (f := file)
                   (fun _ _ => eq_refl) (fun _ _ => eq_refl)) s) as K1.
  destruct (call CoordinateCollector s) as [[a|e] s1] eqn:E1;
    cbn [fst snd] in *.
  - erewrite sbind_ok by exact E1.
    erewrite sbind_ok by apply say_run.
    destruct (@command_loop_no_save fuel (shows s1 [Banner]))
      as (e & He & Hf).
    + pose proof (@stdin_after_banner _ _ _ _ _ E1 (say_run Banner s1)) as Hs.
      now rewrite Hs.
    + pose proof (@stdin_after_banner _ _ _ _ _ E1 (say_run Banner s1)) as Hs.
      now rewrite Hs.
    + destruct (command_loop fuel (shows s1 [Banner])) as [[r|e'] s3] eqn:E3;
        cbn [fst snd] in *; [discriminate|].
      erewrite sbind_err by exact E3.
      exists e'. split; [reflexivity|]. cbn [snd]. now rewrite Hf, <- K1.
  - erewrite sbind_err by exact E1. exists e. split; [reflexivity|exact K1].
Qed.

(** The same session when the input ends after the coordinates. *)
Definition unfinished_session : session :=
  {| proc := with_stdin [u "19.1738,-96.1342,pool,Casa1"] boot;
     screen := [] |}.

Lemma session_without_fin_saves_nothing_witness :
  fst (interactive_collector 2 unfinished_session) = Err EOFError /\
  records k_pools
    (coordinates (proc (snd (interactive_collector 2 unfinished_session))))
  = Some [coord_data veracruz_lat veracruz_lon (u "Casa1")] /\
  file (proc (snd (interactive_collector 2 unfinished_session))) = None.
Proof.
  split; [vm_compute; reflexivity|]. split; [vm_compute; reflexivity|].
  destruct (@session_without_fin_saves_nothing 2 unfinished_session)
    as (e & _ & Hf).
  - repeat constructor.
  - vm_compute. lia.
  - exact Hf.
Defined.

(** X12.  A session that returns has saved.  When [interactive_collector]
    returns and the file can be opened and written, the file holds the
    final store (or text that does not parse, when a string of the store
    cannot be encoded), and the last line on the console is the closing
    one. *)
Theorem finished_session_is_saved (fuel : nat) (s : session) :
  fst (interactive_collector fuel s) = Ok (Some tt) ->
  writable (proc s) = WriteOk ->
  let s' := snd (interactive_collector fuel s) in
  file (proc s') =
    Some (if encodable (coordinates (proc s'))
          then Document (coordinates (proc s')) else Garbage) /\
  exists ls, console s' = ls ++ [Completed].
Proof.
  intros Hr Hw. cbv zeta. revert Hr. unfold interactive_collector.
  pose proof (skeeps_call (f := writable) (fun _ _ => eq_refl)
                (keeps_constructor (f := writable)
                   (fun _ _ => eq_refl) (fun _ _ => eq_refl)) s) as K1.
  destruct (call CoordinateCollector s) as [[a|e] s1] eqn:E1;
    cbn [fst snd] in *;
    [|erewrite sbind_err by exact E1; discriminate].
  erewrite sbind_ok by exact E1.
  erewrite sbind_ok by apply say_run.
  pose proof (skeeps_command_loop (f := writable)
                (fun _ _ => eq_refl) (fun _ _ => eq_refl)
                (fun _ _ => eq_refl) (fun _ _ => eq_refl)
                (fun _ _ => eq_refl) fuel (shows s1 [Banner])) as K3.
  destruct (command_loop fuel (shows s1 [Banner])) as [[[[]|]|e] s3] eqn:E3;
    cbn [fst snd proc shows] in *;
    [|erewrite sbind_ok by exact E3; discriminate
     |erewrite sbind_err by exact E3; discriminate].
  erewrite sbind_ok by exact E3. cbn beta iota.
  change (writable (with_stdout [] (proc s1))) with (writable (proc s1)) in K3.
  assert (Hw3 : writable (proc s3) = WriteOk) by congruence.
  pose proof (save_coordinates_returns (proc s3)) as Hret.
  pose proof (save_coordinates_file (proc s3)) as Hfile.
  pose proof (keeps_save_coordinates (f := coordinates)
                (fun _ _ => eq_refl) (fun _ _ => eq_refl) (proc s3)) as Hc.
  assert (E4 : call save_coordinates s3
               = (Ok tt,
                  flush {| proc := snd (save_coordinates (proc s3));
                           screen := screen s3 |})).
  { unfold call. destruct (save_coordinates (proc s3)) as [r4 p4].
    cbn [fst snd] in *. now subst r4. }
  erewrite sbind_ok by exact E4.
  erewrite sbind_ok by apply say_run.
  intros _. cbn [snd sret]. rewrite Hw3 in Hfile. split.
  - cbn [proc shows flush]. 
    change (file (with_stdout [] (with_stdout [] ?p))) with (file p).
    change (coordinates (with_stdout [] (with_stdout [] ?p)))
      with (coordinates p).
    rewrite Hfile, Hc.
    now destruct (encodable (coordinates (proc s3))).
  - rewrite console_shows. eauto.
Qed.

Lemma finished_session_is_saved_witness :
  file (proc (snd (interactive_collector 3 one_line_session)))
  = Some (Document
            (coordinates
               (proc (snd (interactive_collector 3 one_line_session))))) /\
  records k_pools
    (coordinates (proc (snd (interactive_collector 3 one_line_session))))
  = Some [coord_data veracruz_lat veracruz_lon (u "Casa1")].
Proof.
  assert (Hr : fst (interactive_collector 3 one_line_session) = Ok (Some tt))
    by (vm_compute; reflexivity).
  assert (Hw : writable (proc one_line_session) = WriteOk)
    by reflexivity.
  destruct (@finished_session_is_saved 3 one_line_session Hr Hw) as [Hf _].
  assert (He : encodable
                 (coordinates
                    (proc (snd (interactive_collector 3 one_line_session))))
               = true)
    by (vm_compute; reflexivity).
  rewrite He in Hf. split; [exact Hf|]. vm_compute. reflexivity.
Defined.

(** ** Records are only added *)

(** A record as [add_coordinate] builds it: not captured. *)
Definition fresh_record (r : value) : Prop :=
  exists lat lon description, r = coord_data lat lon description.

(** The two lists of [c'] are those of [c] with new records at the end. *)
Definition extended (c c' : value) : Prop :=
  forall key,
    key = k_pools \/ key = k_no_pools ->
    forall l,
      records key c = Some l ->
      exists l', records key c' = Some (l ++ l') /\ Forall fresh_record l'.

Lemma extended_same c c' :
  (forall key, key = k_pools \/ key = k_no_pools ->
               records key c' = records key c) ->
  extended c c'.
Proof.
  intros H key Hkey l Hl. exists []. rewrite app_nil_r.
  split; [now rewrite H|constructor].
Qed.

Lemma extended_refl c : extended c c.
Proof. now apply extended_same. Qed.

Lemma extended_trans c1 c2 c3 :
  extended c1 c2 -> extended c2 c3 -> extended c1 c3.
Proof.
  intros H12 H23 key Hkey l Hl.
  destruct (H12 key Hkey l Hl) as (l1 & H1 & F1).
  destruct (H23 key Hkey _ H1) as (l2 & H2 & F2).
  exists (l1 ++ l2). rewrite app_assoc. split; [exact H2|].
  apply Forall_app. now split.
Qed.

Definition grows {A} (m : M A) : Prop :=
  forall p, extended (coordinates p) (coordinates (snd (m p))).

Lemma grows_keeps {A} (m : M A) : keeps coordinates m -> grows m.
Proof. intros H p. rewrite H. apply extended_refl. Qed.

Lemma grows_bind {A B} (m : M A) (k : A -> M B) :
  grows m -> (forall a, grows (k a)) -> grows (bind m k).
Proof.
  intros Hm Hk p. unfold bind. specialize (Hm p).
  destruct (m p) as [[a|e] p']; cbn [snd] in *; [|assumption].
  eapply extended_trans; [eassumption|apply Hk].
Qed.

Lemma set_metadata_records k key v :
  str_eqb k k_metadata = false ->
  keeps (fun p => records k (coordinates p)) (set_metadata key v).
Proof.
  intros Hk p.
  unfold set_metadata, bind, get_coordinates, lift, set_coordinates.
  destruct (getitem (coordinates p) k_metadata) as [md|]; [|reflexivity].
  destruct (setitem md key v) as [md'|]; [|reflexivity].
  destruct (setitem (coordinates p) k_metadata md') as [c'|] eqn:E;
    [|reflexivity].
  cbn [snd coordinates with_coordinates]. unfold setitem in E.
  destruct (coordinates p); try discriminate. injection E as <-.
  now apply records_set_other.
Qed.

Lemma update_metadata_records k :
  str_eqb k k_metadata = false ->
  keeps (fun p => records k (coordinates p)) update_metadata.
Proof.
  intros Hk. unfold update_metadata.
  apply keeps_bind; [apply keeps_len_of|intros n].
  apply keeps_bind; [now apply set_metadata_records|intros _].
  apply keeps_bind; [apply keeps_len_of|intros m].
  apply keeps_bind; [now apply set_metadata_records|intros _].
  apply keeps_bind; [apply keeps_datetime_now; intros ? ?; reflexivity|].
  intros now. now apply set_metadata_records.
Qed.

Lemma grows_update_metadata : grows update_metadata.
Proof.
  intros p. apply extended_same. intros key [->| ->].
  - exact (@update_metadata_records k_pools eq_refl p).
  - exact (@update_metadata_records k_no_pools eq_refl p).
Qed.

Lemma grows_append_to key item :
  fresh_record item -> grows (append_to key item).
Proof.
  intros Hitem p.
  unfold append_to, bind, get_coordinates, lift, set_coordinates.
  destruct (getitem (coordinates p) key) as [l0|] eqn:Eg;
    [|apply extended_refl].
  destruct (append l0 item) as [l1|] eqn:Ea; [|apply extended_refl].
  destruct (setitem (coordinates p) key l1) as [c'|] eqn:Es;
    [|apply extended_refl].
  cbn [snd coordinates with_coordinates].
  unfold append in Ea. destruct l0 as [| | | | |l|]; try discriminate.
  injection Ea as <-.
  unfold setitem in Es. destruct (coordinates p) as [| | | | | |d] eqn:Ec;
    try discriminate.
  injection Es as <-.
  assert (Hl : records key (VDict d) = Some l)
    by (unfold records; now rewrite Eg).
  intros key' Hkey' l' Hl'.
  destruct (str_eqb key' key) eqn:E.
  - apply str_eqb_eq in E. subst key'.
    assert (l' = l) as -> by congruence.
    exists [item]. rewrite records_set_same. split; [reflexivity|].
    now constructor.
  - exists []. rewrite app_nil_r, records_set_other by exact E.
    split; [exact Hl'|constructor].
Qed.

Lemma grows_add_coordinate lat lon t d : grows (add_coordinate lat lon t d).
Proof.
  assert (Hitem : fresh_record (coord_data lat lon d))
    by now exists lat, lon, d.
  unfold add_coordinate.
  destruct (str_in (lower t) pool_tokens);
    [|destruct (str_in (lower t) no_pool_tokens)].
  - apply grows_bind; [now apply grows_append_to|intros _].
    apply grows_bind;
      [apply grows_keeps, keeps_print_text; intros ? ?; reflexivity
      |intros _].
    apply grows_bind; [apply grows_update_metadata|intros _].
    now apply grows_keeps.
  - apply grows_bind; [now apply grows_append_to|intros _].
    apply grows_bind;
      [apply grows_keeps, keeps_print_text; intros ? ?; reflexivity
      |intros _].
    apply grows_bind; [apply grows_update_metadata|intros _].
    now apply grows_keeps.
  - apply grows_bind; [now apply grows_keeps|intros _].
    now apply grows_keeps.
Qed.

Lemma grows_collect user_input : grows (collect user_input).
Proof.
  unfold collect. apply grows_bind.
  - apply grows_keeps.
    apply keeps_parse_fixed; intros ? ?; reflexivity.
  - intros [[[[lat lon] t] d]|]; [|now apply grows_keeps].
    apply grows_bind; [apply grows_add_coordinate|intros _].
    now apply grows_keeps.
Qed.

Definition sgrows {A} (m : S A) : Prop :=
  forall s, extended (coordinates (proc s)) (coordinates (proc (snd (m s)))).

Lemma sgrows_keeps {A} (m : S A) : skeeps coordinates m -> sgrows m.
Proof. intros H s. rewrite H. apply extended_refl. Qed.

Lemma sgrows_call {A} (m : M A) : grows m -> sgrows (call m).
Proof.
  intros Hm s. unfold call. specialize (Hm (proc s)).
  destruct (m (proc s)) as [r p']. exact Hm.
Qed.

Lemma sgrows_sbind {A B} (m : S A) (k : A -> S B) :
  sgrows m -> (forall a, sgrows (k a)) -> sgrows (sbind m k).
Proof.
  intros Hm Hk s. unfold sbind. specialize (Hm s).
  destruct (m s) as [[a|e] s']; cbn [snd] in *; [|assumption].
  eapply extended_trans; [eassumption|apply Hk].
Qed.

Lemma sgrows_turn user_input : sgrows (turn user_input).
Proof.
  unfold turn.
  destruct (str_eqb (lower user_input) (u "mostrar")).
  { apply sgrows_keeps, skeeps_show_summary. intros ? ?; reflexivity. }
  destruct (str_eqb (lower user_input) (u "guardar")).
  { apply sgrows_call, grows_keeps.
    apply keeps_save_coordinates; intros ? ?; reflexivity. }
  destruct (str_eqb (lower user_input) (u "ayuda")).
  { apply sgrows_keeps, skeeps_say. intros ? ?; reflexivity. }
  apply sgrows_call, grows_collect.
Qed.

Lemma sgrows_command_loop fuel : sgrows (command_loop fuel).
Proof.
  induction fuel as [|fuel IH]; intros s; [apply extended_refl|].
  rewrite command_loop_step.
  assert (Ha : coordinates (proc (asked s)) = coordinates (proc s))
    by (apply asked_keeps; intros ? ?; reflexivity).
  destruct (stdin (proc s)) as [|raw rest]; cbn [snd].
  - rewrite Ha. apply extended_refl.
  - destruct (str_eqb (command raw) (u "fin")); cbn [snd].
    + rewrite Ha. apply extended_refl.
    + rewrite <- Ha.
      apply (sgrows_sbind (m := turn (strip raw)));
        [apply sgrows_turn|intros _; exact IH].
Qed.

(** X13.  The session only adds records.  Started on a file that parses,
    [interactive_collector] ends, in whatever way, with a store whose two
    lists begin with the records the file had, in the same order and
    unchanged; every record after them is one that [add_coordinate] built,
    so none of the new records is marked as captured. *)
Theorem session_only_appends (fuel : nat) (s : session) (c : value) :
  file (proc s) = Some (Document c) ->
  readable (proc s) = true ->
  extended c (coordinates (proc (snd (interactive_collector fuel s)))).
Proof.
  intros Hfile Hread.
  assert (Hc : coordinates (snd (CoordinateCollector (proc s))) = c).
  { destruct (collector_coordinates (proc s)) as [_ H].
    now rewrite H, Hfile, Hread. }
  rewrite <- Hc. unfold interactive_collector, sbind at 1, call at 1.
  destruct (CoordinateCollector (proc s)) as [[[]|e] p1]; cbn [snd];
    [|apply extended_refl].
  set (s1 := flush _).
  change (coordinates p1) with (coordinates (proc s1)).
  apply (sgrows_sbind (m := say Banner)).
  - apply sgrows_keeps, skeeps_say. intros ? ?; reflexivity.
  - intros _. apply sgrows_sbind; [apply sgrows_command_loop|].
    intros [[]|]; [|now apply sgrows_keeps].
    apply sgrows_sbind.
    + apply sgrows_call, grows_keeps.
      apply keeps_save_coordinates; intros ? ?; reflexivity.
    + intros _. apply sgrows_sbind.
      * apply sgrows_keeps, skeeps_say. intros ? ?; reflexivity.
      * intros _. now apply sgrows_keeps.
Qed.

(** A session on a disk that holds the file the capture script left. *)
Definition second_session : session :=
  {| proc :=
       with_stdin [u "19.1738,-96.1342,pool,Casa2"; u "fin"]
         (boot_with (Document captured_store));
     screen := [] |}.

Lemma session_only_appends_witness :
  exists l',
    records k_pools
      (coordinates (proc (snd (interactive_collector 3 second_session))))
    = Some ([VDict [(u "lat", VFloat veracruz_lat);
                    (u "lon", VFloat veracruz_lon);
                    (u "description", VStr (u "Casa1"));
                    (u "captured", VBool true)]] ++ l') /\
    Forall fresh_record l'.
Proof.
  apply (@session_only_appends 3 second_session captured_store
           eq_refl eq_refl k_pools (or_introl eq_refl)).
  vm_compute. reflexivity.
Defined.

End SessionTheorems.

(* ===================================================================== *)
(** * The capture script: [02_mass_capture.py] *)
(* ===================================================================== *)

Module Capture.
Import Text PyFloat Json Collector.

(** ** The world of the script

    The script shares the coordinates file with the collector, so its state
    is a [process] (for the file, the clock, the pending input and the
    interpreter's bound on integer texts; the script has no store in memory
    and prints its own lines) and, beside it, what lies outside the
    repository: the map service and the image library, and the directories
    the images are moved to.  Image files are kept apart from the
    coordinates file: every path the script writes an image to or renames
    one to ends in [.jpg]. *)

(** What one pass through the body of [capture_single_image] meets: the
    service answers 200 and the image is decoded, resized and saved; the
    service answers with another status; or one of these steps raises. *)
Inductive outcome := Captured | BadStatus (code : Z) | Failed.

(** Lines printed by the script, one constructor per [print] call or group
    of consecutive calls (wording and layout left out). *)
Inductive notice :=
| NoFile
| RunCollectorFirst
| LoadFailed (e : exn)
| ImageCaptured (description lat lon : value)
| CaptureError (lat lon : value) (code : Z)
| CaptureFailed (lat lon : value)
| Processing (description lat lon : value)
| NothingToCapture
| Starting
| PoolsToProcess (n : nat)
| AreasToProcess (n : nat)
| OnePerCoordinate
| CapturingPools
| CapturingAreas
| Turn (coord_type : str) (i n : nat)
| StatusUpdated
| StatusError (e : exn)
| CaptureSummaryTitle
| ConfiguredPools (n : nat)
| ConfiguredAreas (n : nat)
| PoolsTitle
| AreasTitle
| Item (description : value) (captured : bool)
| Menu
| ChoicePrompt
| ContinuePrompt
| CaptureIntro
| ConfirmPrompt
| CaptureCompleted
| TotalImages (v : value)
| PoolImages (v : value)
| AreaImages (v : value)
| Cancelled
| Usage
| Goodbye
| InvalidOption.

Record world := {
  machine : process;             (* the file, the clock, the input *)
  printed : list notice;         (* lines printed so far, oldest first *)
  fetch : nat -> outcome;        (* what the successive requests meet *)
  requests : nat;                (* requests made so far *)
  rename : nat -> bool;          (* whether the successive os.rename work *)
  renames : nat;                 (* calls of os.rename so far *)
  moved : list (value * bool);   (* images moved: description, to pools/ *)
  makedirs : bool                (* os.makedirs succeeds *)
}.

Definition with_machine (p : process) (w : world) : world :=
  {| machine := p; printed := printed w; fetch := fetch w;
     requests := requests w; rename := rename w; renames := renames w;
     moved := moved w; makedirs := makedirs w |}.

Definition with_printed (l : list notice) (w : world) : world :=
  {| machine := machine w; printed := l; fetch := fetch w;
     requests := requests w; rename := rename w; renames := renames w;
     moved := moved w; makedirs := makedirs w |}.

Definition with_requests (n : nat) (w : world) : world :=
  {| machine := machine w; printed := printed w; fetch := fetch w;
     requests := n; rename := rename w; renames := renames w;
     moved := moved w; makedirs := makedirs w |}.

Definition with_move (n : nat) (l : list (value * bool)) (w : world)
  : world :=
  {| machine := machine w; printed := printed w; fetch := fetch w;
     requests := requests w; rename := rename w; renames := n;
     moved := l; makedirs := makedirs w |}.

(** ** Statements of the script *)

Definition C (A : Type) : Type := world -> result A * world.

Definition cret {A} (a : A) : C A := fun w => (Ok a, w).

Definition craise {A} (e : exn) : C A := fun w => (Err e, w).

Definition cbind {A B} (m : C A) (k : A -> C B) : C B :=
  fun w =>
    match m w with
    | (Ok a, w') => k a w'
    | (Err e, w') => (Err e, w')
    end.

(** [try: body except Exception as e: handler(e)]. *)
Definition ctry {A} (body : C A) (handler : exn -> C A) : C A :=
  fun w =>
    match body w with
    | (Ok a, w') => (Ok a, w')
    | (Err e, w') => handler e w'
    end.

Definition clift {A} (r : result A) : C A := fun w => (r, w).

Declare Scope capture_scope.
Delimit Scope capture_scope with capture.
Notation "x <- m ;; k" := (cbind m (fun x => k))
  (at level 61, m at next level, right associativity) : capture_scope.
Notation "m ;; k" := (cbind m (fun _ => k))
  (at level 61, right associativity) : capture_scope.
Local Open Scope capture_scope.

(** A statement on the file or the clock, as the collector has them. *)
Definition run {A} (m : M A) : C A :=
  fun w => let (r, p) := m (machine w) in (r, with_machine p w).

(** [print] of a line without values in it. *)
Definition tell (l : notice) : C unit :=
  fun w => (Ok tt, with_printed (printed w ++ [l]) w).

(** A string at top level goes to the console as it is. *)
Definition written (v : value) : bool :=
  match v with
  | VStr s => str_encodable s
  | _ => true
  end.

(** Building a text out of values, as an f-string does. *)
Definition convert (vs : list value) : C unit :=
  fun w =>
    if forallb (Session.shown (int_max_str_digits (machine w))) vs
    then (Ok tt, w)
    else (Err ValueError, w).

(** [print(f"...")] of a line made of the values [vs], converted here, and
    of the texts of the values [texts], converted before. *)
Definition report (vs texts : list value) (l : notice) : C unit :=
  convert vs;;
  if forallb written (vs ++ texts) then tell l
  else craise UnicodeEncodeError.

(** [input(prompt)]. *)
Definition ask (prompt : notice) : C str :=
  tell prompt;;
  run (fun p =>
         match stdin p with
         | line :: rest => (Ok line, with_stdin rest p)
         | [] => (Err EOFError, p)
         end).

(** ** [MassImageCapture] *)

(** [__init__]: the two [os.makedirs]. *)
Definition MassImageCapture : C unit :=
  fun w => if makedirs w then (Ok tt, w) else (Err OSError, w).

Definition empty_coordinates : value :=
  VDict [(k_pools, VList []); (k_no_pools, VList [])].

(** [load_coordinates]: a missing file has a handler of its own. *)
Definition load_coordinates : C value :=
  fun w =>
    match file (machine w) with
    | None =>
        (tell NoFile;;
         tell RunCollectorFirst;;
         cret empty_coordinates) w
    | Some _ =>
        ctry (run read_json_file)
             (fun e => tell (LoadFailed e);; cret empty_coordinates) w
    end.

(** [requests.get] and what follows it up to [img.save]. *)
Definition request : C outcome :=
  fun w =>
    let w' := with_requests (Datatypes.S (requests w)) w in
    match fetch w (requests w) with
    | Failed => (Err OSError, w')
    | o => (Ok o, w')
    end.

(** [capture_single_image(lat, lon, filename=filename)], where [filename]
    is the text of [description] followed by [.jpg], built by the
    caller. *)
Definition capture_single_image (lat lon description : value) : C bool :=
  ctry
    (convert [lat; lon];;
     o <- request;;
     match o with
     | Captured =>
         report [lat; lon] [description]
           (ImageCaptured description lat lon);;
         cret true
     | BadStatus code =>
         report [lat; lon] [] (CaptureError lat lon code);;
         cret false
     | Failed => cret false
     end)
    (fun e =>
       report [lat; lon] [] (CaptureFailed lat lon);;
       cret false).

(** [os.rename(source_path, dest_path)]. *)
Definition os_rename (description : value) (to_pools : bool) : C unit :=
  fun w =>
    if rename w (renames w)
    then (Ok tt,
          with_move (Datatypes.S (renames w))
            (moved w ++ [(description, to_pools)]) w)
    else (Err OSError, with_move (Datatypes.S (renames w)) (moved w) w).

Definition capture_single_coordinate (coord_data : value) (coord_type : str)
  : C Z :=
  lat <- clift (getitem coord_data (u "lat"));;
  lon <- clift (getitem coord_data (u "lon"));;
  description <- clift (getitem coord_data (u "description"));;
  report [description; lat; lon] [] (Processing description lat lon);;
  convert [description];;
  ok <- capture_single_image lat lon description;;
  if ok then
    os_rename description (str_eqb coord_type (u "pool"));;
    cret 1%Z
  else cret 0%Z.

(** [x["captured"] = True] for every [x] the loop goes through; the records
    of a list are changed where they are. *)
Fixpoint mark_each (items : list value) : result (list value) :=
  match items with
  | [] => Ok []
  | x :: rest =>
      (let? x' := setitem x (u "captured") (VBool true) in
       let? rest' := mark_each rest in
       Ok (x' :: rest'))%result
  end.

Definition mark_all (container : value) : result value :=
  (let? items := Session.iterate container in
   let? items' := mark_each items in
   Ok match container with
      | VList _ => VList items'
      | _ => container
      end)%result.

(** [coordinates[key] = v] on the object read from the file. *)
Definition mark_list (key : str) (c : value) : result value :=
  (let? l := getitem c key in
   let? l' := mark_all l in
   setitem c key l')%result.

(** [coordinates["metadata"][key] = v], [v] evaluated before. *)
Definition stamp (key : str) (v : value) (c : value) : result value :=
  (let? md := getitem c k_metadata in
   let? md' := setitem md key v in
   setitem c k_metadata md')%result.

Definition update_capture_status : C unit :=
  ctry
    (c <- run read_json_file;;
     c <- clift (mark_list k_pools c);;
     c <- clift (mark_list k_no_pools c);;
     now <- run datetime_now;;
     c <- clift (stamp (u "last_capture") (VStr now) c);;
     c <- clift (stamp (u "capture_completed") (VBool true) c);;
     run (write_json_file c);;
     tell StatusUpdated)
    (fun e => tell (StatusError e)).

(** The two [for] loops of [mass_capture_all]. *)
Fixpoint capture_each (coord_type : str) (container : value)
  (i : nat) (items : list value) (total : Z) : C Z :=
  match items with
  | [] => cret total
  | item :: rest =>
      n <- clift (len container);;
      tell (Turn coord_type i n);;
      captured <- capture_single_coordinate item coord_type;;
      capture_each coord_type container (Datatypes.S i) rest
        (total + captured)%Z
  end.

Definition mass_capture_all : C value :=
  coordinates <- load_coordinates;;
  pools <- clift (getitem coordinates k_pools);;
  nothing <-
    (if Session.truthy pools then cret false
     else
       no_pools <- clift (getitem coordinates k_no_pools);;
       cret (negb (Session.truthy no_pools)));;
  if nothing : bool then
    tell NothingToCapture;;
    cret (VDict [(k_pools, VInt 0); (k_no_pools, VInt 0)])
  else
    tell Starting;;
    pools <- clift (getitem coordinates k_pools);;
    n <- clift (len pools);;
    tell (PoolsToProcess n);;
    no_pools <- clift (getitem coordinates k_no_pools);;
    m <- clift (len no_pools);;
    tell (AreasToProcess m);;
    tell OnePerCoordinate;;
    tell CapturingPools;;
    pools <- clift (getitem coordinates k_pools);;
    items <- clift (Session.iterate pools);;
    total_pools_captured <- capture_each (u "pool") pools 1 items 0;;
    tell CapturingAreas;;
    no_pools <- clift (getitem coordinates k_no_pools);;
    items <- clift (Session.iterate no_pools);;
    total_no_pools_captured <-
      capture_each (u "no_pool") no_pools 1 items 0;;
    update_capture_status;;
    cret (VDict [(k_pools, VInt total_pools_captured);
                 (k_no_pools, VInt total_no_pools_captured);
                 (u "total",
                  VInt (total_pools_captured + total_no_pools_captured))]).

(** [obj.get("captured", False)], as a truth value. *)
Definition get_captured (obj : value) : result bool :=
  match obj with
  | VDict d =>
      match dict_get (u "captured") d with
      | Some v => Ok (Session.truthy v)
      | None => Ok false
      end
  | _ => Err AttributeError
  end.

Fixpoint show_items (items : list value) : C unit :=
  match items with
  | [] => cret tt
  | item :: rest =>
      status <- clift (get_captured item);;
      description <- clift (getitem item (u "description"));;
      report [description] [] (Item description status);;
      show_items rest
  end.

Definition show_capture_summary : C unit :=
  coordinates <- load_coordinates;;
  tell CaptureSummaryTitle;;
  pools <- clift (getitem coordinates k_pools);;
  n <- clift (len pools);;
  tell (ConfiguredPools n);;
  no_pools <- clift (getitem coordinates k_no_pools);;
  m <- clift (len no_pools);;
  tell (ConfiguredAreas m);;
  pools <- clift (getitem coordinates k_pools);;
  (if Session.truthy pools then
     tell PoolsTitle;;
     pools <- clift (getitem coordinates k_pools);;
     items <- clift (Session.iterate pools);;
     show_items items
   else cret tt);;
  no_pools <- clift (getitem coordinates k_no_pools);;
  if Session.truthy no_pools then
    tell AreasTitle;;
    no_pools <- clift (getitem coordinates k_no_pools);;
    items <- clift (Session.iterate no_pools);;
    show_items items
  else cret tt.

(** ** [main] *)

(** [str.lower] for the answer to the confirmation: as [lower], and
    U+00CD, the one code point that lower-cases to the i with acute accent
    of the accepted answers. *)
Definition lower_answer (s : str) : str :=
  flat_map (fun c => if N.eqb c 205 then [237%N] else lower_char c) s.

Definition i_acute : char := 237%N.

Definition confirmations : list str :=
  [u "s"; u "si"; u "s" ++ [i_acute]; u "y"; u "yes"].

(** The [while True] loop of [main], for at most [fuel] turns: [Some tt]
    when option 4 ended it, [None] when the turns ran out. *)
Fixpoint menu_loop (fuel : nat) : C (option unit) :=
  match fuel with
  | O => cret None
  | Datatypes.S fuel' =>
      tell Menu;;
      raw <- ask ChoicePrompt;;
      let choice := strip raw in
      if str_eqb choice (u "1") then
        show_capture_summary;;
        ask ContinuePrompt;;
        menu_loop fuel'
      else if str_eqb choice (u "2") then
        tell CaptureIntro;;
        raw <- ask ConfirmPrompt;;
        let confirm := lower_answer (strip raw) in
        if str_in confirm confirmations then
          results <- mass_capture_all;;
          tell CaptureCompleted;;
          total <- clift (getitem results (u "total"));;
          report [total] [] (TotalImages total);;
          pools <- clift (getitem results k_pools);;
          report [pools] [] (PoolImages pools);;
          no_pools <- clift (getitem results k_no_pools);;
          report [no_pools] [] (AreaImages no_pools);;
          ask ContinuePrompt;;
          menu_loop fuel'
        else
          tell Cancelled;;
          menu_loop fuel'
      else if str_eqb choice (u "3") then
        tell Usage;;
        ask ContinuePrompt;;
        menu_loop fuel'
      else if str_eqb choice (u "4") then
        tell Goodbye;;
        cret (Some tt)
      else
        tell InvalidOption;;
        menu_loop fuel'
  end.

(** [main]: the key in the source is not the placeholder, so the first
    [if] is not taken. *)
Definition main (fuel : nat) : C (option unit) :=
  MassImageCapture;;
  menu_loop fuel.

End Capture.

(* ===================================================================== *)
(** * Facts about the capture script *)
(* ===================================================================== *)

Module CaptureFacts.
Import Text PyFloat Json Collector StoreFacts EncodingFacts Frames Capture.
Local Open Scope capture_scope.

Lemma cbind_ok {A B} (m : C A) (k : A -> C B) w a w' :
  m w = (Ok a, w') -> cbind m k w = k a w'.
Proof. unfold cbind. now intros ->. Qed.

Lemma cbind_err {A B} (m : C A) (k : A -> C B) w e w' :
  m w = (Err e, w') -> cbind m k w = (Err e, w').
Proof. unfold cbind. now intros ->. Qed.

Lemma cbind_clift {A B} (r : result A) (k : A -> C B) w :
  cbind (clift r) k w
  = match r with Ok a => k a w | Err e => (Err e, w) end.
Proof. now destruct r. Qed.

Lemma with_machine_same w : with_machine (machine w) w = w.
Proof. now destruct w. Qed.

(** ** What a statement leaves alone *)

Section Field.

Context {X : Type} (f : world -> X).

Definition ckeeps {A} (m : C A) : Prop := forall w, f (snd (m w)) = f w.

Definition unprinted : Prop := forall l w, f (with_printed l w) = f w.
Definition unrequested : Prop := forall n w, f (with_requests n w) = f w.
Definition unmoved : Prop := forall n l w, f (with_move n l w) = f w.

Lemma ckeeps_cret {A} (a : A) : ckeeps (cret a).
Proof. intros w. reflexivity. Qed.

Lemma ckeeps_craise {A} e : ckeeps (@craise A e).
Proof. intros w. reflexivity. Qed.

Lemma ckeeps_clift {A} (r : result A) : ckeeps (clift r).
Proof. intros w. reflexivity. Qed.

Lemma ckeeps_cbind {A B} (m : C A) (k : A -> C B) :
  ckeeps m -> (forall a, ckeeps (k a)) -> ckeeps (cbind m k).
Proof.
  intros Hm Hk w. unfold cbind. specialize (Hm w).
  destruct (m w) as [[a|e] w']; cbn [snd] in *; [|assumption].
  now rewrite Hk.
Qed.

Lemma ckeeps_ctry {A} (m : C A) (h : exn -> C A) :
  ckeeps m -> (forall e, ckeeps (h e)) -> ckeeps (ctry m h).
Proof.
  intros Hm Hh w. unfold ctry. specialize (Hm w).
  destruct (m w) as [[a|e] w']; cbn [snd] in *; [assumption|].
  now rewrite Hh.
Qed.

Lemma ckeeps_tell l : unprinted -> ckeeps (tell l).
Proof. intros H w. apply H. Qed.

Lemma ckeeps_convert vs : ckeeps (convert vs).
Proof. intros w. unfold convert. now destruct (forallb _ vs). Qed.

Lemma ckeeps_report vs texts l : unprinted -> ckeeps (report vs texts l).
Proof.
  intros H. unfold report.
  apply ckeeps_cbind; [apply ckeeps_convert|intros _].
  destruct (forallb written (vs ++ texts));
    [now apply ckeeps_tell|apply ckeeps_craise].
Qed.

Lemma ckeeps_request : unrequested -> ckeeps request.
Proof.
  intros H w. unfold request. destruct (fetch w (requests w)); apply H.
Qed.

Lemma ckeeps_os_rename description to_pools :
  unmoved -> ckeeps (os_rename description to_pools).
Proof.
  intros H w. unfold os_rename. destruct (rename w (renames w)); apply H.
Qed.

Lemma ckeeps_capture_single_image lat lon description :
  unprinted -> unrequested ->
  ckeeps (capture_single_image lat lon description).
Proof.
  intros Hp Hr. unfold capture_single_image. apply ckeeps_ctry.
  - apply ckeeps_cbind; [apply ckeeps_convert|intros _].
    apply ckeeps_cbind; [now apply ckeeps_request|intros [|code|]].
    + apply ckeeps_cbind; [now apply ckeeps_report|intros _].
      apply ckeeps_cret.
    + apply ckeeps_cbind; [now apply ckeeps_report|intros _].
      apply ckeeps_cret.
    + apply ckeeps_cret.
  - intros e. apply ckeeps_cbind; [now apply ckeeps_report|intros _].
    apply ckeeps_cret.
Qed.

Lemma ckeeps_capture_single_coordinate coord_data coord_type :
  unprinted -> unrequested -> unmoved ->
  ckeeps (capture_single_coordinate coord_data coord_type).
Proof.
  intros Hp Hr Hm. unfold capture_single_coordinate.
  apply ckeeps_cbind; [apply ckeeps_clift|intros lat].
  apply ckeeps_cbind; [apply ckeeps_clift|intros lon].
  apply ckeeps_cbind; [apply ckeeps_clift|intros description].
  apply ckeeps_cbind; [now apply ckeeps_report|intros _].
  apply ckeeps_cbind; [apply ckeeps_convert|intros _].
  apply ckeeps_cbind; [now apply ckeeps_capture_single_image|intros [|]].
  - apply ckeeps_cbind; [now apply ckeeps_os_rename|intros _].
    apply ckeeps_cret.
  - apply ckeeps_cret.
Qed.

Lemma ckeeps_capture_each coord_type container items :
  unprinted -> unrequested -> unmoved ->
  forall i total,
    ckeeps (capture_each coord_type container i items total).
Proof.
  intros Hp Hr Hm.
  induction items as [|item rest IH]; intros i total; cbn [capture_each].
  - apply ckeeps_cret.
  - apply ckeeps_cbind; [apply ckeeps_clift|intros n].
    apply ckeeps_cbind; [now apply ckeeps_tell|intros _].
    apply ckeeps_cbind;
      [now apply ckeeps_capture_single_coordinate|intros captured].
    apply IH.
Qed.

End Field.

(** Statements on the machine. *)
Lemma ckeeps_run {X A} (g : process -> X) (m : M A) :
  keeps g m -> ckeeps (fun w => g (machine w)) (run m).
Proof.
  intros H w. unfold run. specialize (H (machine w)).
  destruct (m (machine w)) as [r p]. exact H.
Qed.

Lemma ckeeps_run_outside {X A} (f : world -> X) (m : M A) :
  (forall p w, f (with_machine p w) = f w) -> ckeeps f (run m).
Proof.
  intros H w. unfold run. destruct (m (machine w)) as [r p]. apply H.
Qed.

Lemma read_json_file_state p : snd (read_json_file p) = p.
Proof.
  unfold read_json_file. destruct (readable p); [|reflexivity].
  now destruct (file p) as [[]|].
Qed.

Lemma run_read w :
  run read_json_file w = (fst (read_json_file (machine w)), w).
Proof.
  unfold run. pose proof (read_json_file_state (machine w)) as H.
  destruct (read_json_file (machine w)) as [r p]. cbn [fst snd] in *.
  subst p. now rewrite with_machine_same.
Qed.

(** ** [load_coordinates] *)

(** What [load_coordinates] returns. *)
Definition loaded (p : process) : value :=
  match file p with
  | Some (Document v) => if readable p then v else empty_coordinates
  | _ => empty_coordinates
  end.

Lemma load_coordinates_run w :
  exists ls,
    load_coordinates w
    = (Ok (loaded (machine w)), with_printed (printed w ++ ls) w).
Proof.
  unfold load_coordinates, loaded.
  destruct (file (machine w)) as [fc|] eqn:Ef.
  - unfold ctry. rewrite run_read. unfold read_json_file. rewrite Ef.
    destruct (readable (machine w)).
    + destruct fc as [v|]; cbn [fst].
      * exists []. rewrite app_nil_r. now destruct w.
      * exists [LoadFailed JSONDecodeError]. reflexivity.
    + exists [LoadFailed OSError]. now destruct fc.
  - exists [NoFile; RunCollectorFirst]. cbn.
    now rewrite <- app_assoc.
Qed.

(** ** [update_capture_status] *)

Definition k_captured : str := u "captured".
Definition k_last_capture : str := u "last_capture".
Definition k_capture_completed : str := u "capture_completed".

Definition is_record (r : value) : Prop := exists d, r = VDict d.

(** The record with its flag set: the key stays where it is, or is added
    at the end. *)
Definition marked (r : value) : value :=
  match r with
  | VDict d => VDict (dict_set k_captured (VBool true) d)
  | _ => r
  end.

Lemma mark_each_records l :
  Forall is_record l -> mark_each l = Ok (map marked l).
Proof.
  induction 1 as [|r l [d ->] _ IH]; cbn [mark_each map]; [reflexivity|].
  cbn [setitem rbind]. now rewrite IH.
Qed.

Lemma mark_each_fails l :
  Exists (fun r => ~ is_record r) l -> mark_each l = Err TypeError.
Proof.
  induction 1 as [r l Hr|r l _ IH]; cbn [mark_each].
  - destruct r; try reflexivity. exfalso. apply Hr. now eexists.
  - destruct (setitem r (u "captured") (VBool true)) as [r'|e] eqn:E;
      cbn [rbind].
    + now rewrite IH.
    + destruct r; cbn in E; congruence.
Qed.

Lemma mark_list_records key d l :
  dict_get key d = Some (VList l) ->
  Forall is_record l ->
  mark_list key (VDict d)
  = Ok (VDict (dict_set key (VList (map marked l)) d)).
Proof.
  intros Hk Hl. unfold mark_list, mark_all, getitem. rewrite Hk.
  cbn [rbind Session.iterate]. now rewrite (mark_each_records Hl).
Qed.

Lemma mark_list_fails key d l :
  dict_get key d = Some (VList l) ->
  Exists (fun r => ~ is_record r) l ->
  mark_list key (VDict d) = Err TypeError.
Proof.
  intros Hk Hl. unfold mark_list, mark_all, getitem. rewrite Hk.
  cbn [rbind Session.iterate]. now rewrite (mark_each_fails Hl).
Qed.

(** The document after [update_capture_status], given the clock reading
    [now]. *)
Definition captured_document (now : str) (d : list (str * value))
  (pools no_pools : list value) (md : list (str * value)) : value :=
  VDict
    (dict_set k_metadata
       (VDict
          (dict_set k_capture_completed (VBool true)
             (dict_set k_last_capture (VStr now) md)))
       (dict_set k_no_pools (VList (map marked no_pools))
          (dict_set k_pools (VList (map marked pools)) d))).

(** The world after the status line [l], on the machine [p]. *)
Definition reported (l : notice) (p : process) (w : world) : world :=
  with_printed (printed w ++ [l]) (with_machine p w).

Lemma update_capture_status_returns w :
  fst (update_capture_status w) = Ok tt.
Proof.
  unfold update_capture_status, ctry.
  match goal with
  | |- context [cbind (run read_json_file) ?k] =>
      destruct (cbind (run read_json_file) k w) as [[[]|e] w']
  end; reflexivity.
Qed.

(** The update on a document that has its lists of records and its
    metadata. *)
Lemma update_capture_status_run w d pools no_pools md :
  file (machine w) = Some (Document (VDict d)) ->
  readable (machine w) = true ->
  dict_get k_pools d = Some (VList pools) ->
  dict_get k_no_pools d = Some (VList no_pools) ->
  dict_get k_metadata d = Some (VDict md) ->
  Forall is_record pools -> Forall is_record no_pools ->
  let p := machine w in
  let p1 := with_ticks (Datatypes.S (ticks p)) p in
  let c' :=
    captured_document (strftime (clock p (ticks p))) d pools no_pools md in
  update_capture_status w =
    match write_json_file c' p1 with
    | (Ok _, p2) => (Ok tt, reported StatusUpdated p2 w)
    | (Err e, p2) => (Ok tt, reported (StatusError e) p2 w)
    end.
Proof.
  intros Hf Hr Hp Hn Hm Fp Fn. cbv zeta.
  unfold update_capture_status, ctry.
  erewrite cbind_ok
    by (rewrite run_read; unfold read_json_file; rewrite Hr, Hf;
        reflexivity).
  rewrite cbind_clift, (@mark_list_records k_pools d pools Hp Fp).
  rewrite cbind_clift.
  erewrite (@mark_list_records k_no_pools _ no_pools);
    [|now rewrite dict_get_set_other|assumption].
  erewrite cbind_ok by reflexivity.
  rewrite cbind_clift. unfold stamp, getitem.
  rewrite dict_get_set_other by reflexivity.
  rewrite dict_get_set_other by reflexivity.
  rewrite Hm. cbn [rbind setitem].
  rewrite cbind_clift. rewrite dict_get_set_same. cbn [rbind setitem].
  rewrite !dict_set_set.
  unfold captured_document, k_last_capture, k_capture_completed.
  unfold cbind at 1, run at 1. cbn [machine with_machine].
  destruct (write_json_file _ _) as [[[]|e] p2]; reflexivity.
Qed.

Lemma mark_list_inv key c c' :
  mark_list key c = Ok c' ->
  exists d v v',
    c = VDict d /\ dict_get key d = Some v /\ mark_all v = Ok v' /\
    c' = VDict (dict_set key v' d).
Proof.
  unfold mark_list, getitem. destruct c as [| | | | | |d]; try discriminate.
  destruct (dict_get key d) as [v|] eqn:E; [|discriminate].
  cbn [rbind]. destruct (mark_all v) as [v'|] eqn:E'; [|discriminate].
  cbn [rbind setitem]. intros [= <-]. now exists d, v, v'.
Qed.

Lemma stamp_inv key v c c' :
  stamp key v c = Ok c' ->
  exists d md, c = VDict d /\ dict_get k_metadata d = Some md.
Proof.
  unfold stamp, getitem. destruct c as [| | | | | |d]; try discriminate.
  destruct (dict_get k_metadata d) as [md|] eqn:E; [|discriminate].
  intros _. now exists d, md.
Qed.

(** The file changes only if the update in memory went through. *)
Lemma update_capture_status_file w :
  file (machine (snd (update_capture_status w))) = file (machine w) \/
  exists c c1 c2 now c3,
    fst (read_json_file (machine w)) = Ok c /\
    mark_list k_pools c = Ok c1 /\
    mark_list k_no_pools c1 = Ok c2 /\
    stamp k_last_capture (VStr now) c2 = Ok c3.
Proof.
  unfold update_capture_status, ctry.
  unfold cbind at 1. rewrite run_read.
  destruct (fst (read_json_file (machine w))) as [c|e]; [|now left].
  rewrite cbind_clift.
  destruct (mark_list k_pools c) as [c1|e] eqn:E1; [|now left].
  rewrite cbind_clift.
  destruct (mark_list k_no_pools c1) as [c2|e] eqn:E2; [|now left].
  erewrite cbind_ok by reflexivity.
  rewrite cbind_clift.
  destruct (stamp (u "last_capture") _ c2) as [c3|e] eqn:E3; [|now left].
  right.
  exists c, c1, c2, (strftime (clock (machine w) (ticks (machine w)))), c3.
  repeat split; try reflexivity; assumption.
Qed.

Lemma marked_captured r :
  is_record r -> getitem (marked r) k_captured = Ok (VBool true).
Proof.
  intros [d ->]. unfold marked, getitem. now rewrite dict_get_set_same.
Qed.

Lemma marked_other r key :
  str_eqb key k_captured = false -> getitem (marked r) key = getitem r key.
Proof.
  intros Hk. destruct r; try reflexivity. unfold marked, getitem.
  now rewrite dict_get_set_other.
Qed.

Lemma encodable_marked r : encodable r = true -> encodable (marked r) = true.
Proof.
  destruct r; try (intros; assumption). unfold marked.
  rewrite !encodable_dict. intros H.
  now apply encodable_dict_set.
Qed.

Lemma encodable_map_marked l :
  forallb encodable l = true -> forallb encodable (map marked l) = true.
Proof.
  induction l as [|r l IH]; cbn [map forallb]; [reflexivity|].
  intros H. apply andb_prop in H as [Hr Hl].
  now rewrite (encodable_marked _ Hr), IH.
Qed.

Lemma encodable_captured_document now d pools no_pools md :
  forallb entry_encodable d = true ->
  dict_get k_pools d = Some (VList pools) ->
  dict_get k_no_pools d = Some (VList no_pools) ->
  dict_get k_metadata d = Some (VDict md) ->
  str_encodable now = true ->
  encodable (captured_document now d pools no_pools md) = true.
Proof.
  intros Hd Hp Hn Hm Hnow. unfold captured_document. rewrite encodable_dict.
  pose proof (encodable_dict_get _ _ Hd Hp) as Ep.
  pose proof (encodable_dict_get _ _ Hd Hn) as En.
  pose proof (encodable_dict_get _ _ Hd Hm) as Em.
  cbn [encodable] in Ep, En. rewrite encodable_dict in Em.
  apply encodable_dict_set; [|reflexivity|].
  - apply encodable_dict_set; [|reflexivity|].
    + apply encodable_dict_set; [assumption|reflexivity|].
      cbn [encodable]. now apply encodable_map_marked.
    + cbn [encodable]. now apply encodable_map_marked.
  - rewrite encodable_dict.
    apply encodable_dict_set; [|reflexivity|reflexivity].
    apply encodable_dict_set; [assumption|reflexivity|].
    exact Hnow.
Qed.

(** The file after the update of a store of records. *)
Lemma update_capture_status_document
  (w : world) (c : value) (pools no_pools : list value)
  (md : list (str * value)) :
  file (machine w) = Some (Document c) ->
  readable (machine w) = true ->
  writable (machine w) = WriteOk ->
  encodable c = true ->
  records k_pools c = Some pools ->
  records k_no_pools c = Some no_pools ->
  metadata c = Some md ->
  Forall is_record (pools ++ no_pools) ->
  exists c',
    file (machine (snd (update_capture_status w))) = Some (Document c') /\
    records k_pools c' = Some (map marked pools) /\
    records k_no_pools c' = Some (map marked no_pools) /\
    Forall (fun r => getitem r k_captured = Ok (VBool true))
      (map marked pools ++ map marked no_pools) /\
    metadata c'
    = Some (dict_set k_capture_completed (VBool true)
              (dict_set k_last_capture
                 (VStr (strftime (clock (machine w) (ticks (machine w)))))
                 md)) /\
    forall key,
      str_eqb key k_pools = false -> str_eqb key k_no_pools = false ->
      str_eqb key k_metadata = false ->
      getitem c' key = getitem c key.
Proof.
  intros Hf Hr Hw He Hp Hn Hm Hall.
  destruct (well_formed_inv (c := c))
    as (d & pools' & no_pools' & md' & Hc & Hp' & Hn' & Hm').
  { now exists pools, no_pools, md. }
  subst c.
  assert (pools' = pools) as ->
    by (rewrite (records_of_dict _ _ Hp') in Hp; congruence).
  assert (no_pools' = no_pools) as ->
    by (rewrite (records_of_dict _ _ Hn') in Hn; congruence).
  assert (md' = md) as ->.
  { unfold metadata, getitem in Hm. rewrite Hm' in Hm. congruence. }
  apply Forall_app in Hall as [Fp Fn].
  set (now := strftime (clock (machine w) (ticks (machine w)))).
  exists (captured_document now d pools no_pools md).
  rewrite (update_capture_status_run w Hf Hr Hp' Hn' Hm' Fp Fn).
  fold now. unfold write_json_file.
  change (writable (with_ticks _ (machine w))) with (writable (machine w)).
  rewrite Hw.
  rewrite (@encodable_captured_document now d pools no_pools md)
    by (try assumption; apply str_encodable_strftime).
  cbn [snd reported machine with_machine with_printed file with_file].
  split; [reflexivity|]. unfold captured_document.
  split; [|split; [|split; [|split]]].
  - rewrite records_set_other by reflexivity.
    rewrite records_set_other by reflexivity.
    apply records_set_same.
  - rewrite records_set_other by reflexivity. apply records_set_same.
  - apply Forall_app. split; apply Forall_forall; intros r Hr';
      apply in_map_iff in Hr' as (r0 & <- & Hr0); apply marked_captured;
      [exact (proj1 (Forall_forall _ _) Fp r0 Hr0)
      |exact (proj1 (Forall_forall _ _) Fn r0 Hr0)].
  - unfold metadata, getitem. now rewrite dict_get_set_same.
  - intros key K1 K2 K3. unfold getitem.
    now rewrite !dict_get_set_other by assumption.
Qed.


(** ** The capture loops *)

(** A record the capture can work on: it has the three fields, and they can
    be printed. *)
Definition capturable (limit : nat) (r : value) : Prop :=
  exists lat lon description,
    getitem r (u "lat") = Ok lat /\
    getitem r (u "lon") = Ok lon /\
    getitem r (u "description") = Ok description /\
    forallb (Session.shown limit) [description; lat; lon] = true /\
    forallb written [description; lat; lon] = true.

Definition description_of (r : value) : value :=
  match getitem r (u "description") with
  | Ok description => description
  | Err _ => VNone
  end.

(** The images that arrive in a directory when the records [items] are
    captured one after the other, the first of them by request number
    [start]. *)
Fixpoint arrivals (fetch : nat -> outcome) (start : nat) (to_pools : bool)
  (items : list value) : list (value * bool) :=
  match items with
  | [] => []
  | r :: rest =>
      match fetch start with
      | Captured => [(description_of r, to_pools)]
      | _ => []
      end ++ arrivals fetch (Datatypes.S start) to_pools rest
  end.

(** The world [w'] comes after [w] and [k] requests. *)
Definition follows (k : nat) (w w' : world) : Prop :=
  machine w' = machine w /\ fetch w' = fetch w /\ rename w' = rename w /\
  requests w' = requests w + k.

Lemma follows_refl w : follows 0 w w.
Proof. repeat split. cbn. lia. Qed.

Lemma convert_ok vs w :
  forallb (Session.shown (int_max_str_digits (machine w))) vs = true ->
  convert vs w = (Ok tt, w).
Proof. intros H. unfold convert. now rewrite H. Qed.

Lemma report_ok vs texts l w :
  forallb (Session.shown (int_max_str_digits (machine w))) vs = true ->
  forallb written (vs ++ texts) = true ->
  report vs texts l w = (Ok tt, with_printed (printed w ++ [l]) w).
Proof.
  intros Hs Hw. unfold report.
  erewrite cbind_ok by now apply convert_ok. now rewrite Hw.
Qed.

Lemma capture_single_image_run lat lon description w :
  forallb (Session.shown (int_max_str_digits (machine w))) [lat; lon] = true ->
  forallb written [lat; lon; description] = true ->
  exists ls,
    capture_single_image lat lon description w
    = (Ok match fetch w (requests w) with
          | Captured => true
          | _ => false
          end,
       with_printed (printed w ++ ls)
         (with_requests (Datatypes.S (requests w)) w)).
Proof.
  intros Hs Hw.
  assert (Hw2 : forallb written ([lat; lon] ++ []) = true).
  { cbn [forallb app] in *. apply andb_prop in Hw as [H1 Hw].
    apply andb_prop in Hw as [H2 _]. now rewrite H1, H2. }
  unfold capture_single_image, ctry.
  erewrite cbind_ok by now apply convert_ok.
  unfold cbind at 1, request.
  destruct (fetch w (requests w)) as [|code|] eqn:E.
  - erewrite cbind_ok by (apply report_ok; assumption).
    eexists. reflexivity.
  - erewrite cbind_ok by (apply report_ok; assumption).
    eexists. reflexivity.
  - erewrite cbind_ok by (apply report_ok; assumption).
    eexists. reflexivity.
Qed.

Lemma capture_single_coordinate_run r coord_type w :
  capturable (int_max_str_digits (machine w)) r ->
  rename w (renames w) = true ->
  exists w',
    capture_single_coordinate r coord_type w
    = (Ok (Z.of_nat
             (List.length
                (arrivals (fetch w) (requests w)
                   (str_eqb coord_type (u "pool")) [r]))),
       w') /\
    follows 1 w w' /\
    moved w'
    = moved w ++ arrivals (fetch w) (requests w)
                   (str_eqb coord_type (u "pool")) [r].
Proof.
  intros (lat & lon & description & Hlat & Hlon & Hd & Hs & Hw) Hren.
  unfold capture_single_coordinate.
  rewrite cbind_clift, Hlat, cbind_clift, Hlon, cbind_clift, Hd.
  erewrite cbind_ok
    by (apply report_ok; [exact Hs|rewrite app_nil_r; exact Hw]).
  assert (Hsd : forallb (Session.shown (int_max_str_digits (machine w)))
                  [description] = true).
  { cbn [forallb] in *. apply andb_prop in Hs as [H1 _]. now rewrite H1. }
  assert (Hs2 : forallb (Session.shown (int_max_str_digits (machine w)))
                  [lat; lon] = true).
  { cbn [forallb] in *. apply andb_prop in Hs as [_ H]. exact H. }
  assert (Hw2 : forallb written [lat; lon; description] = true).
  { cbn [forallb] in *. apply andb_prop in Hw as [H1 H].
    apply andb_prop in H as [H2 H]. apply andb_prop in H as [H3 _].
    now rewrite H1, H2, H3. }
  erewrite cbind_ok by (apply convert_ok; exact Hsd).
  destruct (@capture_single_image_run lat lon description
              (with_printed (printed w ++ [Processing description lat lon]) w)
              Hs2 Hw2) as [ls Hrun].
  erewrite cbind_ok by exact Hrun.
  cbn [fetch requests with_printed arrivals]. unfold description_of.
  rewrite Hd.
  destruct (fetch w (requests w)) as [|code|].
  - unfold cbind, os_rename.
    cbn [rename renames with_printed with_requests moved].
    rewrite Hren. eexists. split; [reflexivity|]. split.
    + repeat split. cbn. lia.
    + reflexivity.
  - eexists. split; [reflexivity|]. split.
    + repeat split. cbn. lia.
    + cbn. now rewrite app_nil_r.
  - eexists. split; [reflexivity|]. split.
    + repeat split. cbn. lia.
    + cbn. now rewrite app_nil_r.
Qed.

Lemma arrivals_cons fetch start to_pools r rest :
  arrivals fetch start to_pools (r :: rest)
  = arrivals fetch start to_pools [r]
      ++ arrivals fetch (Datatypes.S start) to_pools rest.
Proof. cbn [arrivals]. now rewrite app_nil_r. Qed.

Lemma capture_each_run coord_type container n items :
  len container = Ok n ->
  forall i total w,
    Forall (capturable (int_max_str_digits (machine w))) items ->
    (forall j, rename w j = true) ->
    exists w',
      capture_each coord_type container i items total w
      = (Ok (total
             + Z.of_nat
                 (List.length
                    (arrivals (fetch w) (requests w)
                       (str_eqb coord_type (u "pool")) items)))%Z,
         w') /\
      follows (List.length items) w w' /\
      moved w'
      = moved w ++ arrivals (fetch w) (requests w)
                     (str_eqb coord_type (u "pool")) items.
Proof.
  intros Hn. induction items as [|r rest IH]; intros i total w Hall Hren.
  - exists w. cbn. rewrite Z.add_0_r, app_nil_r.
    split; [reflexivity|]. split; [apply follows_refl|reflexivity].
  - inversion Hall as [|? ? Hr Hrest]; subst.
    cbn [capture_each]. rewrite cbind_clift, Hn.
    erewrite cbind_ok by reflexivity.
    destruct (@capture_single_coordinate_run r coord_type
                (with_printed (printed w ++ [Turn coord_type i n]) w)
                Hr (Hren _))
      as (w1 & Hrun & (Hm1 & Hf1 & Hr1 & Hq1) & Hmv1).
    erewrite cbind_ok by exact Hrun.
    cbn [machine fetch rename requests moved with_printed] in *.
    destruct (IH (Datatypes.S i)
                (total
                 + Z.of_nat
                     (List.length
                        (arrivals (fetch w) (requests w)
                           (str_eqb coord_type (u "pool")) [r])))%Z
                w1)
      as (w2 & Hrun2 & (Hm2 & Hf2 & Hr2 & Hq2) & Hmv2).
    { now rewrite Hm1. }
    { intros j. now rewrite Hr1. }
    exists w2. rewrite Hrun2.
    rewrite Hf1, Hq1, Nat.add_1_r in *.
    rewrite (arrivals_cons (fetch w) (requests w) _ r rest).
    split; [|split].
    + f_equal. f_equal. rewrite length_app. lia.
    + repeat split; try congruence. cbn [List.length]. lia.
    + rewrite Hmv2, Hmv1. now rewrite app_assoc.
Qed.

(** ** Failing without writing *)

Section Failure.

Context {X : Type} (f : world -> X).

(** When [m] raises, [f] is as [m] found it. *)
Definition fails_clean {A} (m : C A) : Prop :=
  forall w e, fst (m w) = Err e -> f (snd (m w)) = f w.

Lemma fails_clean_keeps {A} (m : C A) : ckeeps f m -> fails_clean m.
Proof. intros H w e _. apply H. Qed.

Lemma fails_clean_total {A} (m : C A) :
  (forall w, exists a, fst (m w) = Ok a) -> fails_clean m.
Proof. intros H w e He. destruct (H w) as [a Ha]. congruence. Qed.

Lemma fails_clean_cbind {A B} (m : C A) (k : A -> C B) :
  ckeeps f m -> (forall a, fails_clean (k a)) -> fails_clean (cbind m k).
Proof.
  intros Hm Hk w e. unfold cbind. specialize (Hm w).
  destruct (m w) as [[a|e'] w']; cbn [fst snd] in *.
  - intros He. now rewrite (Hk a w' e He).
  - intros _. exact Hm.
Qed.

End Failure.

(** ** [mass_capture_all] *)

(** Runs the statements at the head of the goal that are pure or print a
    line. *)
Lemma tell_printed l ls w :
  tell l (with_printed ls w) = (Ok tt, with_printed (ls ++ [l]) w).
Proof. reflexivity. Qed.

Ltac crun :=
  repeat first
    [ rewrite cbind_clift; cbv beta iota; cbn [len Session.iterate]
    | erewrite cbind_ok by apply tell_printed; cbv beta iota
    | erewrite cbind_ok by reflexivity; cbv beta iota ].

Lemma loaded_getitem key p l :
  records key (loaded p) = Some l -> getitem (loaded p) key = Ok (VList l).
Proof.
  intros H. apply records_inv in H as (d & Hc & Hk).
  rewrite Hc. unfold getitem. now rewrite Hk.
Qed.

Lemma mass_capture_all_nothing w a b :
  getitem (loaded (machine w)) k_pools = Ok a ->
  Session.truthy a = false ->
  getitem (loaded (machine w)) k_no_pools = Ok b ->
  Session.truthy b = false ->
  exists ls,
    mass_capture_all w
    = (Ok (VDict [(k_pools, VInt 0); (k_no_pools, VInt 0)]),
       with_printed (printed w ++ ls) w).
Proof.
  intros Ha Ta Hb Tb. destruct (load_coordinates_run w) as [ls Hl].
  unfold mass_capture_all. erewrite cbind_ok by exact Hl.
  rewrite cbind_clift, Ha, Ta.
  erewrite cbind_ok by (rewrite cbind_clift, Hb; reflexivity).
  rewrite Tb. cbn [negb].
  exists (ls ++ [NothingToCapture]). cbn. now rewrite <- app_assoc.
Qed.

Lemma mass_capture_all_run w pools no_pools :
  records k_pools (loaded (machine w)) = Some pools ->
  records k_no_pools (loaded (machine w)) = Some no_pools ->
  pools ++ no_pools <> [] ->
  Forall (capturable (int_max_str_digits (machine w))) (pools ++ no_pools) ->
  (forall j, rename w j = true) ->
  let a := arrivals (fetch w) (requests w) true pools in
  let b :=
    arrivals (fetch w) (requests w + List.length pools) false no_pools in
  exists w2,
    follows (List.length pools + List.length no_pools) w w2 /\
    moved w2 = moved w ++ a ++ b /\
    mass_capture_all w
    = (Ok (VDict [(k_pools, VInt (Z.of_nat (List.length a)));
                  (k_no_pools, VInt (Z.of_nat (List.length b)));
                  (u "total",
                   VInt (Z.of_nat (List.length a)
                         + Z.of_nat (List.length b)))]),
       snd (update_capture_status w2)).
Proof.
  intros Hp Hn Hne Hall Hren. cbv zeta.
  apply Forall_app in Hall as [Fp Fn].
  pose proof (loaded_getitem _ _ Hp) as Gp.
  pose proof (loaded_getitem _ _ Hn) as Gn.
  destruct (load_coordinates_run w) as [ls Hl].
  unfold mass_capture_all. erewrite cbind_ok by exact Hl.
  rewrite cbind_clift, Gp.
  assert (Hnothing :
            forall w0,
              (if Session.truthy (VList pools) then cret false
               else
                 no_pools0 <- clift (getitem (loaded (machine w)) k_no_pools);;
                 cret (negb (Session.truthy no_pools0))) w0
              = (Ok false, w0)).
  { intros w0. destruct pools as [|r pools']; [|reflexivity].
    cbn [Session.truthy]. rewrite cbind_clift, Gn.
    destruct no_pools; [now elim Hne|reflexivity]. }
  erewrite cbind_ok by apply Hnothing. cbv beta iota.
  rewrite Gn. crun.
  match goal with
  | |- context [cbind (capture_each _ _ 1 pools 0) _ ?w0] =>
      destruct (@capture_each_run (u "pool") (VList pools)
                  (List.length pools) pools eq_refl 1 0%Z w0 Fp Hren)
        as (w1 & Hrun1 & (Hm1 & Hf1 & Hr1 & Hq1) & Hmv1)
  end.
  erewrite cbind_ok by exact Hrun1. crun.
  cbn [machine fetch rename requests moved with_printed] in *.
  match goal with
  | |- context [cbind (capture_each _ _ 1 no_pools 0) _ ?w0] =>
      destruct (@capture_each_run (u "no_pool") (VList no_pools)
                  (List.length no_pools) no_pools eq_refl 1 0%Z w0)
        as (w2 & Hrun2 & (Hm2 & Hf2 & Hr2 & Hq2) & Hmv2)
  end.
  { cbn [machine with_printed]. now rewrite Hm1. }
  { intros j. cbn [rename with_printed]. now rewrite Hr1. }
  erewrite cbind_ok by exact Hrun2.
  cbn [machine fetch rename requests moved with_printed] in *.
  exists w2. split; [|split].
  - repeat split; try congruence. lia.
  - rewrite Hmv2, Hmv1, Hf1, Hq1. now rewrite <- app_assoc.
  - unfold cbind.
    pose proof (update_capture_status_returns w2) as Hret.
    destruct (update_capture_status w2) as [r w3]. cbn [fst snd] in *.
    subst r. rewrite Hf1, Hq1. reflexivity.
Qed.

Lemma update_capture_status_outside {X} (f : world -> X) :
  unprinted f -> (forall p w, f (with_machine p w) = f w) ->
  ckeeps f update_capture_status.
Proof.
  intros Hp Hm. unfold update_capture_status. apply ckeeps_ctry.
  - apply ckeeps_cbind; [now apply ckeeps_run_outside|intros c0].
    apply ckeeps_cbind; [apply ckeeps_clift|intros c1].
    apply ckeeps_cbind; [apply ckeeps_clift|intros c2].
    apply ckeeps_cbind; [now apply ckeeps_run_outside|intros now].
    apply ckeeps_cbind; [apply ckeeps_clift|intros c3].
    apply ckeeps_cbind; [apply ckeeps_clift|intros c4].
    apply ckeeps_cbind; [now apply ckeeps_run_outside|intros _].
    now apply ckeeps_tell.
  - intros e. now apply ckeeps_tell.
Qed.

(** Everything before the update of the status leaves the machine alone. *)
Lemma ckeeps_load_coordinates {X} (f : world -> X) :
  unprinted f -> ckeeps f load_coordinates.
Proof.
  intros Hp w. destruct (load_coordinates_run w) as [ls H]. rewrite H.
  apply Hp.
Qed.

Lemma mass_capture_all_fails_clean :
  fails_clean (fun w => file (machine w)) mass_capture_all.
Proof.
  set (f := fun w => file (machine w)).
  assert (Hp : unprinted f) by (intros ? ?; reflexivity).
  assert (Hr : unrequested f) by (intros ? ?; reflexivity).
  assert (Hm : unmoved f) by (intros ? ? ?; reflexivity).
  unfold mass_capture_all.
  apply fails_clean_cbind; [now apply ckeeps_load_coordinates|].
  intros coordinates.
  apply fails_clean_cbind; [apply ckeeps_clift|intros pools].
  apply fails_clean_cbind.
  { destruct (Session.truthy pools); [apply ckeeps_cret|].
    apply ckeeps_cbind; [apply ckeeps_clift|intros ?]. apply ckeeps_cret. }
  intros [|].
  { apply fails_clean_keeps.
    apply ckeeps_cbind; [now apply ckeeps_tell|intros _]. apply ckeeps_cret. }
  apply fails_clean_cbind; [now apply ckeeps_tell|intros _].
  apply fails_clean_cbind; [apply ckeeps_clift|intros pools'].
  apply fails_clean_cbind; [apply ckeeps_clift|intros n].
  apply fails_clean_cbind; [now apply ckeeps_tell|intros _].
  apply fails_clean_cbind; [apply ckeeps_clift|intros no_pools].
  apply fails_clean_cbind; [apply ckeeps_clift|intros m].
  apply fails_clean_cbind; [now apply ckeeps_tell|intros _].
  apply fails_clean_cbind; [now apply ckeeps_tell|intros _].
  apply fails_clean_cbind; [now apply ckeeps_tell|intros _].
  apply fails_clean_cbind; [apply ckeeps_clift|intros pools''].
  apply fails_clean_cbind; [apply ckeeps_clift|intros items].
  apply fails_clean_cbind; [now apply ckeeps_capture_each|intros tp].
  apply fails_clean_cbind; [now apply ckeeps_tell|intros _].
  apply fails_clean_cbind; [apply ckeeps_clift|intros no_pools'].
  apply fails_clean_cbind; [apply ckeeps_clift|intros items'].
  apply fails_clean_cbind; [now apply ckeeps_capture_each|intros tn].
  apply fails_clean_total. intros w. unfold cbind.
  pose proof (update_capture_status_returns w) as Hret.
  destruct (update_capture_status w) as [r w']. cbn [fst] in Hret. subst r.
  eexists. reflexivity.
Qed.

End CaptureFacts.

(* ===================================================================== *)
(** * Theorems: the capture script *)
(* ===================================================================== *)

Module CaptureTheorems.
Import Text PyFloat Json Collector StoreFacts EncodingFacts Frames.
Import StoreTheorems Capture CaptureFacts.
Local Open Scope capture_scope.

(** X14.  [load_coordinates] never raises and checks nothing: it returns
    what the file parses to, whatever that is, and the dictionary with two
    empty lists (and no metadata) when the file is missing, cannot be read
    or does not parse.  It changes nothing but the console. *)
Theorem load_coordinates_falls_back (w : world) :
  fst (load_coordinates w)
  = Ok match file (machine w) with
       | Some (Document v) =>
           if readable (machine w) then v else empty_coordinates
       | _ => empty_coordinates
       end /\
  machine (snd (load_coordinates w)) = machine w /\
  requests (snd (load_coordinates w)) = requests w /\
  moved (snd (load_coordinates w)) = moved w /\
  getitem empty_coordinates k_metadata = Err KeyError.
Proof.
  destruct (load_coordinates_run w) as [ls H]. rewrite H.
  repeat split; reflexivity.
Qed.

(** X15.  [update_capture_status] on a file that holds a store of records
    (two lists of dictionaries and the metadata) and can be rewritten: the
    new file has the same records in the same order, every one of them
    with [captured] set to [True] and its other fields as before; the
    metadata has [last_capture] set to the clock reading and
    [capture_completed] to [True], its other fields (the counts, the date
    of the last update) as before; every other key of the file is as
    before. *)
Theorem update_capture_status_marks_all
  (w : world) (c : value) (pools no_pools : list value)
  (md : list (str * value)) :
  file (machine w) = Some (Document c) ->
  readable (machine w) = true ->
  writable (machine w) = WriteOk ->
  encodable c = true ->
  records k_pools c = Some pools ->
  records k_no_pools c = Some no_pools ->
  metadata c = Some md ->
  Forall is_record (pools ++ no_pools) ->
  exists c',
    file (machine (snd (update_capture_status w))) = Some (Document c') /\
    records k_pools c' = Some (map marked pools) /\
    records k_no_pools c' = Some (map marked no_pools) /\
    Forall (fun r => getitem r k_captured = Ok (VBool true))
      (map marked pools ++ map marked no_pools) /\
    metadata c'
    = Some (dict_set k_capture_completed (VBool true)
              (dict_set k_last_capture
                 (VStr (strftime (clock (machine w) (ticks (machine w)))))
                 md)) /\
    forall key,
      str_eqb key k_pools = false -> str_eqb key k_no_pools = false ->
      str_eqb key k_metadata = false ->
      getitem c' key = getitem c key.
Proof. apply update_capture_status_document. Qed.

(** The file the collector wrote after one pool was added, and a world that
    holds it, where no download works. *)
Definition offline (p : process) : world :=
  {| machine := p; printed := []; fetch := fun _ => Failed; requests := 0;
     rename := fun _ => true; renames := 0; moved := [];
     makedirs := true |}.

Definition one_pool_saved : process := snd (save_coordinates one_pool).

Lemma update_capture_status_marks_all_witness :
  exists c',
    file (machine (snd (update_capture_status (offline one_pool_saved))))
    = Some (Document c') /\
    records k_pools c'
    = Some [VDict [(u "lat", VFloat veracruz_lat);
                   (u "lon", VFloat veracruz_lon);
                   (u "description", VStr (u "Casa1"));
                   (u "captured", VBool true)]] /\
    metadata c'
    = Some [(k_total_pools, VInt 1);
            (k_total_no_pools, VInt 0);
            (k_last_updated, VStr (u "2024-03-07 09:05:00"));
            (k_last_capture, VStr (u "2024-03-07 09:05:00"));
            (k_capture_completed, VBool true)].
Proof.
  assert (Hf : file (machine (offline one_pool_saved))
               = Some (Document (coordinates one_pool)))
    by (vm_compute; reflexivity).
  assert (Hp : records k_pools (coordinates one_pool)
               = Some [coord_data veracruz_lat veracruz_lon (u "Casa1")])
    by (vm_compute; reflexivity).
  assert (Hn : records k_no_pools (coordinates one_pool) = Some [])
    by (vm_compute; reflexivity).
  assert (Hm : metadata (coordinates one_pool)
               = Some [(k_total_pools, VInt 1);
                       (k_total_no_pools, VInt 0);
                       (k_last_updated, VStr (u "2024-03-07 09:05:00"))])
    by (vm_compute; reflexivity).
  assert (He : encodable (coordinates one_pool) = true)
    by (vm_compute; reflexivity).
  destruct (@update_capture_status_marks_all (offline one_pool_saved)
              _ _ _ _ Hf eq_refl eq_refl He Hp Hn Hm)
    as (c' & Hfile & Hpools & _ & _ & Hmd & _).
  { repeat constructor. eexists. reflexivity. }
  exists c'. split; [exact Hfile|]. split; [exact Hpools|].
  rewrite Hmd. vm_compute. reflexivity.
Defined.

(** X16.  [update_capture_status] never raises, and it is all or nothing:
    when one record of either list is not a dictionary, or the file has no
    metadata, no record is marked and the file stays as it was.  It never
    touches the images. *)
Theorem update_capture_status_all_or_nothing
  (w : world) (c : value) (pools no_pools : list value) :
  file (machine w) = Some (Document c) ->
  readable (machine w) = true ->
  records k_pools c = Some pools ->
  records k_no_pools c = Some no_pools ->
  Exists (fun r => ~ is_record r) (pools ++ no_pools) \/
    getitem c k_metadata = Err KeyError ->
  fst (update_capture_status w) = Ok tt /\
  file (machine (snd (update_capture_status w))) = file (machine w) /\
  requests (snd (update_capture_status w)) = requests w /\
  moved (snd (update_capture_status w)) = moved w.
Proof.
  intros Hf Hr Hp Hn Hbad.
  split; [apply update_capture_status_returns|].
  split.
  - destruct (update_capture_status_file w)
      as [H|(c0 & c1 & c2 & now & c3 & H0 & H1 & H2 & H3)];
      [exact H|exfalso].
    unfold read_json_file in H0. rewrite Hr, Hf in H0. cbn in H0.
    injection H0 as <-.
    apply records_inv in Hp as (d & -> & Hp).
    apply records_inv in Hn as (d' & [= <-] & Hn).
    destruct (mark_list_inv _ _ H1) as (d1 & v & v' & [= <-] & Hv & Hv' & ->).
    rewrite Hp in Hv. injection Hv as <-.
    destruct (mark_list_inv _ _ H2) as (d2 & u0 & u' & [= <-] & Hu & Hu' & ->).
    rewrite dict_get_set_other in Hu by reflexivity.
    rewrite Hn in Hu. injection Hu as <-.
    destruct Hbad as [Hex|Hmd].
    + apply Exists_app in Hex as [Hex|Hex].
      * unfold mark_all in Hv'. cbn [Session.iterate rbind] in Hv'.
        now rewrite (mark_each_fails Hex) in Hv'.
      * unfold mark_all in Hu'. cbn [Session.iterate rbind] in Hu'.
        now rewrite (mark_each_fails Hex) in Hu'.
    + destruct (stamp_inv _ _ _ H3) as (d3 & md & [= <-] & Hmd').
      rewrite !dict_get_set_other in Hmd' by reflexivity.
      unfold getitem in Hmd. now rewrite Hmd' in Hmd.
  - split.
    + unfold update_capture_status.
      apply (ckeeps_ctry (f := requests)).
      * apply ckeeps_cbind; [now apply ckeeps_run_outside|intros c0].
        apply ckeeps_cbind; [apply ckeeps_clift|intros c1].
        apply ckeeps_cbind; [apply ckeeps_clift|intros c2].
        apply ckeeps_cbind; [now apply ckeeps_run_outside|intros now].
        apply ckeeps_cbind; [apply ckeeps_clift|intros c3].
        apply ckeeps_cbind; [apply ckeeps_clift|intros c4].
        apply ckeeps_cbind; [now apply ckeeps_run_outside|intros _].
        now apply ckeeps_tell.
      * intros e. now apply ckeeps_tell.
    + unfold update_capture_status.
      apply (ckeeps_ctry (f := moved)).
      * apply ckeeps_cbind; [now apply ckeeps_run_outside|intros c0].
        apply ckeeps_cbind; [apply ckeeps_clift|intros c1].
        apply ckeeps_cbind; [apply ckeeps_clift|intros c2].
        apply ckeeps_cbind; [now apply ckeeps_run_outside|intros now].
        apply ckeeps_cbind; [apply ckeeps_clift|intros c3].
        apply ckeeps_cbind; [apply ckeeps_clift|intros c4].
        apply ckeeps_cbind; [now apply ckeeps_run_outside|intros _].
        now apply ckeeps_tell.
      * intros e. now apply ckeeps_tell.
Qed.

(** A file with its two lists and no metadata, as [load_coordinates] would
    make it up. *)
Definition bare_store : value :=
  VDict [(k_pools, VList [coord_data veracruz_lat veracruz_lon (u "Casa1")]);
         (k_no_pools, VList [])].

Lemma update_capture_status_all_or_nothing_witness :
  file (machine (snd (update_capture_status
                        (offline (boot_with (Document bare_store))))))
  = Some (Document bare_store) /\
  printed (snd (update_capture_status
                  (offline (boot_with (Document bare_store)))))
  = [StatusError KeyError].
Proof.
  split; [|vm_compute; reflexivity].
  apply (@update_capture_status_all_or_nothing
           (offline (boot_with (Document bare_store))) bare_store
           [coord_data veracruz_lat veracruz_lon (u "Casa1")] []
           eq_refl eq_refl eq_refl eq_refl).
  right. reflexivity.
Defined.

Lemma load_coordinates_loaded w c :
  fst (load_coordinates w) = Ok c -> c = loaded (machine w).
Proof.
  destruct (load_coordinates_run w) as [ls H]. rewrite H. cbn [fst].
  congruence.
Qed.

(** X17.  With nothing to capture (the file is missing or unusable, or
    both of its lists are empty), [mass_capture_all] makes no request,
    moves no image, leaves the file and the clock alone, and returns a
    dictionary with the two counts at 0 and without the key [total] that
    the dictionary of the other return statement has. *)
Theorem mass_capture_all_nothing_to_capture (w : world) (c a b : value) :
  fst (load_coordinates w) = Ok c ->
  getitem c k_pools = Ok a -> Session.truthy a = false ->
  getitem c k_no_pools = Ok b -> Session.truthy b = false ->
  let r := mass_capture_all w in
  fst r = Ok (VDict [(k_pools, VInt 0); (k_no_pools, VInt 0)]) /\
  (forall v, fst r = Ok v -> getitem v (u "total") = Err KeyError) /\
  machine (snd r) = machine w /\
  requests (snd r) = requests w /\
  moved (snd r) = moved w.
Proof.
  intros Hc Ha Ta Hb Tb. apply load_coordinates_loaded in Hc. subst c.
  destruct (mass_capture_all_nothing w Ha Ta Hb Tb) as [ls H].
  cbv zeta. rewrite H. cbn [fst snd].
  split; [reflexivity|]. split; [|now repeat split].
  intros v [= <-]. reflexivity.
Qed.

Lemma mass_capture_all_nothing_to_capture_witness :
  fst (mass_capture_all (offline boot))
  = Ok (VDict [(k_pools, VInt 0); (k_no_pools, VInt 0)]) /\
  requests (snd (mass_capture_all (offline boot))) = 0.
Proof.
  destruct (@mass_capture_all_nothing_to_capture (offline boot)
              empty_coordinates (VList []) (VList [])
              eq_refl eq_refl eq_refl eq_refl eq_refl)
    as (H & _ & _ & Hr & _).
  split; [exact H|exact Hr].
Defined.

Lemma ask_line l w line rest :
  stdin (machine w) = line :: rest ->
  ask l w
  = (Ok line,
     with_machine (with_stdin rest (machine w))
       (with_printed (printed w ++ [l]) w)).
Proof.
  intros H. unfold ask. erewrite cbind_ok by reflexivity.
  unfold run. cbn [machine with_printed]. now rewrite H.
Qed.

(** X18.  Option 2 of the menu with nothing to capture ends the program:
    after the confirmation, [main] prints that the capture is complete and
    then subscripts the result with [total], which the result of
    [mass_capture_all] does not have in that case; [KeyError] leaves [main]. *)
Theorem main_fails_with_nothing_to_capture
  (fuel : nat) (w : world) (choice answer : str) (rest : list str)
  (c a b : value) :
  makedirs w = true ->
  stdin (machine w) = choice :: answer :: rest ->
  strip choice = u "2" ->
  str_in (lower_answer (strip answer)) confirmations = true ->
  fst (load_coordinates w) = Ok c ->
  getitem c k_pools = Ok a -> Session.truthy a = false ->
  getitem c k_no_pools = Ok b -> Session.truthy b = false ->
  fst (main (Datatypes.S fuel) w) = Err KeyError /\
  (exists ls, printed (snd (main (Datatypes.S fuel) w))
              = ls ++ [CaptureCompleted]) /\
  file (machine (snd (main (Datatypes.S fuel) w))) = file (machine w).
Proof.
  intros Hdirs Hin Hchoice Hyes Hc Ha Ta Hb Tb.
  apply load_coordinates_loaded in Hc. subst c.
  unfold main. erewrite cbind_ok
    by (unfold MassImageCapture; rewrite Hdirs; reflexivity).
  cbn [menu_loop]. erewrite cbind_ok by reflexivity.
  erewrite cbind_ok by (apply ask_line; exact Hin).
  cbv beta zeta. rewrite Hchoice.
  change (str_eqb (u "2") (u "1")) with false.
  change (str_eqb (u "2") (u "2")) with true. cbv iota.
  erewrite cbind_ok by reflexivity.
  erewrite cbind_ok by (apply ask_line; reflexivity).
  cbv beta zeta. rewrite Hyes.
  match goal with
  | |- context [cbind mass_capture_all _ ?w0] =>
      destruct (@mass_capture_all_nothing w0 a b Ha Ta Hb Tb) as [ls H]
  end.
  erewrite cbind_ok by exact H.
  erewrite cbind_ok by reflexivity.
  rewrite cbind_clift. cbn [fst snd].
  split; [reflexivity|]. split; [|reflexivity].
  eexists. reflexivity.
Qed.

Lemma main_fails_with_nothing_to_capture_witness :
  fst (main 1 (offline (with_stdin [u "2"; u "S"; u "4"] boot)))
  = Err KeyError.
Proof.
  apply (@main_fails_with_nothing_to_capture 0
           (offline (with_stdin [u "2"; u "S"; u "4"] boot))
           (u "2") (u "S") [u "4"] empty_coordinates (VList []) (VList [])
           eq_refl eq_refl eq_refl eq_refl eq_refl eq_refl eq_refl eq_refl
           eq_refl).
Defined.

(** X19.  One request per record, in order, and the counts are those of the
    images that arrived.  On a store with something to capture whose
    records all have their three fields, when the moves work,
    [mass_capture_all] makes exactly one request for each pool, then one
    for each area without pool; an image arrives in [pools/] for each
    request of the first series that succeeds and in [no_pools/] for each
    one of the second; the dictionary returned counts them, and [total] is
    their sum. *)
Theorem mass_capture_all_counts
  (w : world) (c : value) (pools no_pools : list value) :
  fst (load_coordinates w) = Ok c ->
  records k_pools c = Some pools ->
  records k_no_pools c = Some no_pools ->
  pools ++ no_pools <> [] ->
  Forall (capturable (int_max_str_digits (machine w))) (pools ++ no_pools) ->
  (forall j, rename w j = true) ->
  let r := mass_capture_all w in
  let a := arrivals (fetch w) (requests w) true pools in
  let b :=
    arrivals (fetch w) (requests w + List.length pools) false no_pools in
  fst r
  = Ok (VDict [(k_pools, VInt (Z.of_nat (List.length a)));
               (k_no_pools, VInt (Z.of_nat (List.length b)));
               (u "total",
                VInt (Z.of_nat (List.length a) + Z.of_nat (List.length b)))])
  /\ requests (snd r)
     = requests w + List.length pools + List.length no_pools
  /\ moved (snd r) = moved w ++ a ++ b.
Proof.
  intros Hc Hp Hn Hne Hall Hren. apply load_coordinates_loaded in Hc.
  subst c.
  pose proof (mass_capture_all_run w Hp Hn Hne Hall Hren) as H.
  cbv zeta in H. destruct H as (w2 & (_ & _ & _ & Hq) & Hmv & Hrun).
  cbv zeta. rewrite Hrun. cbn [fst snd]. split; [reflexivity|]. split.
  - assert (Hreq : requests (snd (update_capture_status w2)) = requests w2)
      by (apply (@update_capture_status_outside _ requests);
          intros ? ?; reflexivity).
    rewrite Hreq, Hq. lia.
  - assert (Hmoved : moved (snd (update_capture_status w2)) = moved w2)
      by (apply (@update_capture_status_outside _ moved);
          intros ? ?; reflexivity).
    rewrite Hmoved. exact Hmv.
Qed.

(** A world where the first request succeeds and every other fails. *)
Definition first_only (p : process) : world :=
  {| machine := p; printed := [];
     fetch := fun n => match n with O => Captured | _ => Failed end;
     requests := 0; rename := fun _ => true; renames := 0; moved := [];
     makedirs := true |}.

(** The collector's file after a pool and an area were added. *)
Definition pool_and_area : process :=
  snd (save_coordinates
         (snd (add_coordinate veracruz_lat veracruz_lon (u "no_pool")
                 (u "Lote") one_pool))).

Lemma capturable_coord_data limit lat lon description :
  str_encodable description = true ->
  capturable limit (coord_data lat lon description).
Proof.
  intros H. exists (VFloat lat), (VFloat lon), (VStr description).
  repeat split. cbn. now rewrite H.
Qed.

Lemma mass_capture_all_counts_witness :
  fst (mass_capture_all (first_only pool_and_area))
  = Ok (VDict [(k_pools, VInt 1); (k_no_pools, VInt 0);
               (u "total", VInt 1)]) /\
  requests (snd (mass_capture_all (first_only pool_and_area))) = 2 /\
  moved (snd (mass_capture_all (first_only pool_and_area)))
  = [(VStr (u "Casa1"), true)].
Proof.
  assert (Hc : fst (load_coordinates (first_only pool_and_area))
               = Ok (coordinates
                       (snd (add_coordinate veracruz_lat veracruz_lon
                               (u "no_pool") (u "Lote") one_pool))))
    by (vm_compute; reflexivity).
  assert (Hp : records k_pools
                 (coordinates
                    (snd (add_coordinate veracruz_lat veracruz_lon
                            (u "no_pool") (u "Lote") one_pool)))
               = Some [coord_data veracruz_lat veracruz_lon (u "Casa1")])
    by (vm_compute; reflexivity).
  assert (Hn : records k_no_pools
                 (coordinates
                    (snd (add_coordinate veracruz_lat veracruz_lon
                            (u "no_pool") (u "Lote") one_pool)))
               = Some [coord_data veracruz_lat veracruz_lon (u "Lote")])
    by (vm_compute; reflexivity).
  destruct (@mass_capture_all_counts (first_only pool_and_area) _ _ _
              Hc Hp Hn) as (H1 & H2 & H3).
  - discriminate.
  - repeat constructor; apply capturable_coord_data; reflexivity.
  - reflexivity.
  - split; [exact H1|]. split; [exact H2|exact H3].
Defined.

(** X20.  Every record is marked, captured or not.  Under the conditions
    of X19, on a file that has its metadata and can be rewritten,
    [mass_capture_all] ends with every record of both lists marked as
    captured in the file, also those whose request failed. *)
Theorem mass_capture_all_marks_attempted
  (w : world) (c : value) (pools no_pools : list value)
  (md : list (str * value)) :
  file (machine w) = Some (Document c) ->
  readable (machine w) = true ->
  writable (machine w) = WriteOk ->
  encodable c = true ->
  records k_pools c = Some pools ->
  records k_no_pools c = Some no_pools ->
  metadata c = Some md ->
  pools ++ no_pools <> [] ->
  Forall (capturable (int_max_str_digits (machine w))) (pools ++ no_pools) ->
  (forall j, rename w j = true) ->
  exists c',
    file (machine (snd (mass_capture_all w))) = Some (Document c') /\
    records k_pools c' = Some (map marked pools) /\
    records k_no_pools c' = Some (map marked no_pools) /\
    Forall (fun r => getitem r k_captured = Ok (VBool true))
      (map marked pools ++ map marked no_pools).
Proof.
  intros Hf Hr Hw He Hp Hn Hm Hne Hall Hren.
  assert (Hl : loaded (machine w) = c) by (unfold loaded; now rewrite Hf, Hr).
  assert (H : _) by
    (apply (@mass_capture_all_run w pools no_pools);
     try assumption; now rewrite Hl).
  cbv zeta in H. destruct H as (w2 & (Hm2 & _) & _ & Hrun).
  rewrite Hrun. cbn [snd].
  destruct (@update_capture_status_document w2 c pools no_pools md)
    as (c' & H1 & H2 & H3 & H4 & _); try assumption; try now rewrite Hm2.
  - apply Forall_forall. intros r Hr'.
    apply (proj1 (Forall_forall _ _) Hall) in Hr'
      as (lat & lon & description & Hlat & _).
    destruct r; try discriminate. now eexists.
  - exists c'. auto.
Qed.

Lemma mass_capture_all_marks_attempted_witness :
  fst (mass_capture_all (offline one_pool_saved))
  = Ok (VDict [(k_pools, VInt 0); (k_no_pools, VInt 0);
               (u "total", VInt 0)]) /\
  exists c',
    file (machine (snd (mass_capture_all (offline one_pool_saved))))
    = Some (Document c') /\
    records k_pools c'
    = Some [VDict [(u "lat", VFloat veracruz_lat);
                   (u "lon", VFloat veracruz_lon);
                   (u "description", VStr (u "Casa1"));
                   (u "captured", VBool true)]].
Proof.
  split; [vm_compute; reflexivity|].
  assert (Hf : file (machine (offline one_pool_saved))
               = Some (Document (coordinates one_pool)))
    by (vm_compute; reflexivity).
  assert (Hp : records k_pools (coordinates one_pool)
               = Some [coord_data veracruz_lat veracruz_lon (u "Casa1")])
    by (vm_compute; reflexivity).
  assert (Hn : records k_no_pools (coordinates one_pool) = Some [])
    by (vm_compute; reflexivity).
  assert (Hm : metadata (coordinates one_pool)
               = Some [(k_total_pools, VInt 1);
                       (k_total_no_pools, VInt 0);
                       (k_last_updated, VStr (u "2024-03-07 09:05:00"))])
    by (vm_compute; reflexivity).
  assert (He : encodable (coordinates one_pool) = true)
    by (vm_compute; reflexivity).
  destruct (@mass_capture_all_marks_attempted (offline one_pool_saved)
              _ _ _ _ Hf eq_refl eq_refl He Hp Hn Hm)
    as (c' & Hfile & Hpools & _).
  - discriminate.
  - repeat constructor. apply capturable_coord_data. reflexivity.
  - reflexivity.
  - exists c'. split; [exact Hfile|exact Hpools].
Defined.

(** X21.  A capture that fails marks nothing.  Whatever exception leaves
    [mass_capture_all] (a record without coordinates, a move that fails),
    the coordinates file is as it was: the status is written at the very
    end only, so the records captured before the failure are not marked. *)
Theorem mass_capture_all_failure_marks_nothing (w : world) (e : exn) :
  fst (mass_capture_all w) = Err e ->
  file (machine (snd (mass_capture_all w))) = file (machine w).
Proof. apply mass_capture_all_fails_clean. Qed.

(** A world where the image arrives and cannot be moved. *)
Definition unmovable (p : process) : world :=
  {| machine := p; printed := []; fetch := fun _ => Captured;
     requests := 0; rename := fun _ => false; renames := 0; moved := [];
     makedirs := true |}.

Lemma mass_capture_all_failure_marks_nothing_witness :
  fst (mass_capture_all (unmovable one_pool_saved)) = Err OSError /\
  requests (snd (mass_capture_all (unmovable one_pool_saved))) = 1 /\
  file (machine (snd (mass_capture_all (unmovable one_pool_saved))))
  = Some (Document (coordinates one_pool)).
Proof.
  assert (H : fst (mass_capture_all (unmovable one_pool_saved))
              = Err OSError)
    by (vm_compute; reflexivity).
  split; [exact H|]. split; [vm_compute; reflexivity|].
  rewrite (@mass_capture_all_failure_marks_nothing
             (unmovable one_pool_saved) OSError H).
  vm_compute. reflexivity.
Defined.

End CaptureTheorems.

(* ===================================================================== *)
(** * Facts about the capture summary and the menu *)
(* ===================================================================== *)

Module MenuFacts.
Import Text PyFloat Json Collector StoreFacts EncodingFacts Frames.
Import CollectorTheorems LoopFacts Capture CaptureFacts.
Local Open Scope capture_scope.

(** ** [show_capture_summary] *)

Lemma load_coordinates_document w c :
  file (machine w) = Some (Document c) ->
  readable (machine w) = true ->
  load_coordinates w = (Ok c, w).
Proof.
  intros Hf Hr. unfold load_coordinates, ctry. rewrite Hf, run_read.
  unfold read_json_file. now rewrite Hr, Hf.
Qed.

(** The status the summary shows for a record. *)
Definition status_of (r : value) : bool :=
  match get_captured r with
  | Ok b => b
  | Err _ => false
  end.

(** A record the summary can list: a dictionary with a description that can
    be printed. *)
Definition listed (limit : nat) (r : value) : Prop :=
  is_record r /\
  exists description,
    getitem r (u "description") = Ok description /\
    Session.shown limit description = true /\
    written description = true.

Definition item_of (r : value) : notice :=
  Item (description_of r) (status_of r).

Definition items_section (title : notice) (l : list value) : list notice :=
  match l with
  | [] => []
  | _ => title :: map item_of l
  end.

Lemma show_items_run w items :
  Forall (listed (int_max_str_digits (machine w))) items ->
  forall ls,
    show_items items (with_printed ls w)
    = (Ok tt, with_printed (ls ++ map item_of items) w).
Proof.
  induction 1 as [|r items ([d ->] & description & Hd & Hs & Hw) _ IH];
    intros ls.
  - cbn. now rewrite app_nil_r.
  - cbn [show_items map]. rewrite cbind_clift.
    assert (Hg : get_captured (VDict d) = Ok (status_of (VDict d))).
    { unfold status_of, get_captured.
      now destruct (dict_get (u "captured") d). }
    rewrite Hg. rewrite cbind_clift, Hd.
    erewrite cbind_ok.
    2:{ apply report_ok.
        - cbn [forallb machine with_printed]. now rewrite Hs.
        - cbn [forallb app]. now rewrite Hw. }
    change (with_printed
              (printed (with_printed ls w)
               ++ [Item description (status_of (VDict d))])
              (with_printed ls w))
      with (with_printed (ls ++ [Item description (status_of (VDict d))]) w).
    rewrite IH. unfold item_of at 2, description_of. rewrite Hd.
    now rewrite <- app_assoc.
Qed.

Lemma show_capture_summary_run w c pools no_pools :
  file (machine w) = Some (Document c) ->
  readable (machine w) = true ->
  records k_pools c = Some pools ->
  records k_no_pools c = Some no_pools ->
  Forall (listed (int_max_str_digits (machine w))) (pools ++ no_pools) ->
  show_capture_summary w
  = (Ok tt,
     with_printed
       (printed w
          ++ [CaptureSummaryTitle; ConfiguredPools (List.length pools);
              ConfiguredAreas (List.length no_pools)]
          ++ items_section PoolsTitle pools
          ++ items_section AreasTitle no_pools)
       w).
Proof.
  intros Hf Hr Hp Hn Hall. apply Forall_app in Hall as [Fp Fn].
  assert (Gp : getitem c k_pools = Ok (VList pools)).
  { apply records_inv in Hp as (d & -> & Hk). unfold getitem.
    now rewrite Hk. }
  assert (Gn : getitem c k_no_pools = Ok (VList no_pools)).
  { apply records_inv in Hn as (d & -> & Hk). unfold getitem.
    now rewrite Hk. }
  unfold show_capture_summary.
  erewrite cbind_ok by (apply load_coordinates_document; eassumption).
  erewrite cbind_ok by reflexivity.
  rewrite Gp, Gn. crun.
  assert (Hsec :
            forall title l ls (k : unit -> C unit),
              Forall (listed (int_max_str_digits (machine w))) l ->
              cbind
                (if Session.truthy (VList l) then
                   tell title;;
                   x <- clift (Ok (VList l));;
                   items <- clift (Session.iterate x);;
                   show_items items
                 else cret tt) k (with_printed ls w)
              = k tt (with_printed (ls ++ items_section title l) w)).
  { intros title l ls k Fl. destruct l as [|r l'].
    - cbn [Session.truthy items_section]. rewrite app_nil_r. reflexivity.
    - cbn [Session.truthy]. erewrite cbind_ok; [reflexivity|].
      erewrite cbind_ok by apply tell_printed. crun.
      rewrite show_items_run by exact Fl. cbn [items_section].
      now rewrite <- app_assoc. }
  rewrite Hsec by exact Fp.
  crun.
  destruct no_pools as [|r l'].
  - cbn [Session.truthy items_section]. unfold cret.
    rewrite app_nil_r, <- !app_assoc. reflexivity.
  - cbn [Session.truthy].
    erewrite cbind_ok by apply tell_printed. crun.
    rewrite show_items_run by exact Fn. cbn [items_section].
    f_equal. f_equal. rewrite <- !app_assoc. reflexivity.
Qed.

(** ** What the script leaves alone on the machine *)

(** A part of the machine, seen from the world. *)
Definition on_machine {X} (g : process -> X) : world -> X :=
  fun w => g (machine w).

Section Machine.

(** [g] is a part of the machine that neither the file nor the count of
    clock readings enters. *)
Context {X : Type} (g : process -> X).
Hypothesis Hfile : ignores_file g.
Hypothesis Hticks : ignores_ticks g.

Lemma on_machine_unprinted : unprinted (on_machine g).
Proof. intros l w. reflexivity. Qed.

Lemma on_machine_unrequested : unrequested (on_machine g).
Proof. intros n w. reflexivity. Qed.

Lemma on_machine_unmoved : unmoved (on_machine g).
Proof. intros n l w. reflexivity. Qed.

Lemma ckeeps_update_capture_status :
  ckeeps (on_machine g) update_capture_status.
Proof.
  pose proof on_machine_unprinted as Hp.
  unfold update_capture_status. apply ckeeps_ctry.
  - apply ckeeps_cbind;
      [apply (ckeeps_run (g := g)), keeps_read_json_file|intros c0].
    apply ckeeps_cbind; [apply ckeeps_clift|intros c1].
    apply ckeeps_cbind; [apply ckeeps_clift|intros c2].
    apply ckeeps_cbind;
      [apply (ckeeps_run (g := g)), keeps_datetime_now, Hticks|intros now].
    apply ckeeps_cbind; [apply ckeeps_clift|intros c3].
    apply ckeeps_cbind; [apply ckeeps_clift|intros c4].
    apply ckeeps_cbind;
      [apply (ckeeps_run (g := g)), keeps_write_json_file, Hfile|intros _].
    now apply ckeeps_tell.
  - intros e. now apply ckeeps_tell.
Qed.

Lemma ckeeps_mass_capture_all : ckeeps (on_machine g) mass_capture_all.
Proof.
  pose proof on_machine_unprinted as Hp.
  pose proof on_machine_unrequested as Hr.
  pose proof on_machine_unmoved as Hm.
  unfold mass_capture_all.
  apply ckeeps_cbind; [now apply ckeeps_load_coordinates|].
  intros coordinates.
  apply ckeeps_cbind; [apply ckeeps_clift|intros pools].
  apply ckeeps_cbind.
  { destruct (Session.truthy pools); [apply ckeeps_cret|].
    apply ckeeps_cbind; [apply ckeeps_clift|intros ?]. apply ckeeps_cret. }
  intros [|].
  { apply ckeeps_cbind; [now apply ckeeps_tell|intros _]. apply ckeeps_cret. }
  apply ckeeps_cbind; [now apply ckeeps_tell|intros _].
  apply ckeeps_cbind; [apply ckeeps_clift|intros pools'].
  apply ckeeps_cbind; [apply ckeeps_clift|intros n].
  apply ckeeps_cbind; [now apply ckeeps_tell|intros _].
  apply ckeeps_cbind; [apply ckeeps_clift|intros no_pools].
  apply ckeeps_cbind; [apply ckeeps_clift|intros m].
  apply ckeeps_cbind; [now apply ckeeps_tell|intros _].
  apply ckeeps_cbind; [now apply ckeeps_tell|intros _].
  apply ckeeps_cbind; [now apply ckeeps_tell|intros _].
  apply ckeeps_cbind; [apply ckeeps_clift|intros pools''].
  apply ckeeps_cbind; [apply ckeeps_clift|intros items].
  apply ckeeps_cbind; [now apply ckeeps_capture_each|intros tp].
  apply ckeeps_cbind; [now apply ckeeps_tell|intros _].
  apply ckeeps_cbind; [apply ckeeps_clift|intros no_pools'].
  apply ckeeps_cbind; [apply ckeeps_clift|intros items'].
  apply ckeeps_cbind; [now apply ckeeps_capture_each|intros tn].
  apply ckeeps_cbind; [apply ckeeps_update_capture_status|intros _].
  apply ckeeps_cret.
Qed.

End Machine.

Lemma ckeeps_show_items {X} (f : world -> X) items :
  unprinted f -> ckeeps f (show_items items).
Proof.
  intros Hp. induction items as [|item rest IH]; cbn [show_items].
  - apply ckeeps_cret.
  - apply ckeeps_cbind; [apply ckeeps_clift|intros status].
    apply ckeeps_cbind; [apply ckeeps_clift|intros description].
    apply ckeeps_cbind; [now apply ckeeps_report|intros _].
    exact IH.
Qed.

Lemma ckeeps_show_capture_summary {X} (f : world -> X) :
  unprinted f -> ckeeps f show_capture_summary.
Proof.
  intros Hp. unfold show_capture_summary.
  apply ckeeps_cbind; [now apply ckeeps_load_coordinates|].
  intros coordinates.
  apply ckeeps_cbind; [now apply ckeeps_tell|intros _].
  apply ckeeps_cbind; [apply ckeeps_clift|intros pools].
  apply ckeeps_cbind; [apply ckeeps_clift|intros n].
  apply ckeeps_cbind; [now apply ckeeps_tell|intros _].
  apply ckeeps_cbind; [apply ckeeps_clift|intros no_pools].
  apply ckeeps_cbind; [apply ckeeps_clift|intros m].
  apply ckeeps_cbind; [now apply ckeeps_tell|intros _].
  apply ckeeps_cbind; [apply ckeeps_clift|intros pools'].
  apply ckeeps_cbind.
  { destruct (Session.truthy pools'); [|apply ckeeps_cret].
    apply ckeeps_cbind; [now apply ckeeps_tell|intros _].
    apply ckeeps_cbind; [apply ckeeps_clift|intros pools''].
    apply ckeeps_cbind; [apply ckeeps_clift|intros items].
    now apply ckeeps_show_items. }
  intros _.
  apply ckeeps_cbind; [apply ckeeps_clift|intros no_pools'].
  destruct (Session.truthy no_pools'); [|apply ckeeps_cret].
  apply ckeeps_cbind; [now apply ckeeps_tell|intros _].
  apply ckeeps_cbind; [apply ckeeps_clift|intros no_pools''].
  apply ckeeps_cbind; [apply ckeeps_clift|intros items].
  now apply ckeeps_show_items.
Qed.

(** ** The pending input of the menu *)

Definition cstdin : world -> list str := on_machine stdin.

(** The statement reads from the front of the pending input. *)
Definition creads {A} (m : C A) : Prop :=
  forall w, exists k, cstdin (snd (m w)) = skipn k (cstdin w).

Lemma creads_keeps {A} (m : C A) : ckeeps cstdin m -> creads m.
Proof. intros H w. exists 0. apply H. Qed.

Lemma creads_tell l : creads (tell l).
Proof. apply creads_keeps, ckeeps_tell. intros ? ?; reflexivity. Qed.

Lemma creads_clift {A} (r : result A) : creads (clift r).
Proof. apply creads_keeps, ckeeps_clift. Qed.

Lemma creads_report vs texts l : creads (report vs texts l).
Proof. apply creads_keeps, ckeeps_report. intros ? ?; reflexivity. Qed.

Lemma creads_ask l : creads (ask l).
Proof.
  intros w. unfold ask, cbind, tell, run, cstdin, on_machine.
  cbn [machine with_printed].
  destruct (stdin (machine w)) as [|line rest] eqn:E.
  - exists 0. cbn. exact E.
  - exists 1. reflexivity.
Qed.

Lemma creads_show_capture_summary : creads show_capture_summary.
Proof.
  apply creads_keeps, ckeeps_show_capture_summary. intros ? ?; reflexivity.
Qed.

Lemma creads_mass_capture_all : creads mass_capture_all.
Proof.
  apply creads_keeps. unfold cstdin.
  apply ckeeps_mass_capture_all; intros ? ?; reflexivity.
Qed.

(** With fewer than [n] lines of input, the statement [K] does not run out
    of turns, and [K'], which has more turns, does the same. *)
Definition settled (n : nat) (K K' : C (option unit)) : Prop :=
  forall w,
    List.length (cstdin w) < n ->
    fst (K w) <> Ok None /\ K' w = K w.

Lemma settled_cbind {A} n (m : C A) (k k' : A -> C (option unit)) :
  creads m -> (forall a, settled n (k a) (k' a)) ->
  settled n (cbind m k) (cbind m k').
Proof.
  intros Hm Hk w Hlen. unfold cbind. destruct (Hm w) as [j Hj].
  destruct (m w) as [[a|e] w']; cbn [snd] in Hj.
  - apply Hk. rewrite Hj. pose proof (length_skipn_le j (cstdin w)). lia.
  - split; [discriminate|reflexivity].
Qed.

Lemma settled_ask n l (k k' : str -> C (option unit)) :
  (forall a, settled n (k a) (k' a)) ->
  settled (Datatypes.S n) (cbind (ask l) k) (cbind (ask l) k').
Proof.
  intros Hk w Hlen. unfold cstdin, on_machine in Hlen.
  destruct (stdin (machine w)) as [|line rest] eqn:E.
  - assert (H : ask l w
                = (Err EOFError, with_machine (machine w)
                                   (with_printed (printed w ++ [l]) w))).
    { unfold ask, cbind, tell, run. cbn [machine with_printed].
      now rewrite E. }
    rewrite (@cbind_err _ _ (ask l) k w _ _ H).
    rewrite (@cbind_err _ _ (ask l) k' w _ _ H).
    split; [discriminate|reflexivity].
  - assert (H : ask l w
                = (Ok line,
                   with_machine (with_stdin rest (machine w))
                     (with_printed (printed w ++ [l]) w))).
    { unfold ask, cbind, tell, run. cbn [machine with_printed].
      now rewrite E. }
    rewrite (@cbind_ok _ _ (ask l) k w _ _ H).
    rewrite (@cbind_ok _ _ (ask l) k' w _ _ H). apply Hk.
    unfold cstdin, on_machine. cbn. cbn in Hlen. lia.
Qed.

Lemma settled_done n : settled n (cret (Some tt)) (cret (Some tt)).
Proof. intros w _. split; [discriminate|reflexivity]. Qed.

Lemma menu_loop_settled fuel :
  forall fuel', fuel <= fuel' ->
                settled fuel (menu_loop fuel) (menu_loop fuel').
Proof.
  induction fuel as [|fuel IH]; intros fuel' Hle.
  { intros w Hlen. lia. }
  destruct fuel' as [|fuel']; [lia|].
  assert (Hnext : settled fuel (menu_loop fuel) (menu_loop fuel'))
    by (apply IH; lia).
  cbn [menu_loop].
  apply settled_cbind; [apply creads_tell|intros _].
  apply settled_ask. intros raw. cbv zeta.
  destruct (str_eqb (strip raw) (u "1")).
  { apply settled_cbind; [apply creads_show_capture_summary|intros _].
    apply settled_cbind; [apply creads_ask|intros _]. exact Hnext. }
  destruct (str_eqb (strip raw) (u "2")).
  { apply settled_cbind; [apply creads_tell|intros _].
    apply settled_cbind; [apply creads_ask|intros answer].
    destruct (str_in (lower_answer (strip answer)) confirmations).
    - apply settled_cbind; [apply creads_mass_capture_all|intros results].
      apply settled_cbind; [apply creads_tell|intros _].
      apply settled_cbind; [apply creads_clift|intros total].
      apply settled_cbind; [apply creads_report|intros _].
      apply settled_cbind; [apply creads_clift|intros pools].
      apply settled_cbind; [apply creads_report|intros _].
      apply settled_cbind; [apply creads_clift|intros no_pools].
      apply settled_cbind; [apply creads_report|intros _].
      apply settled_cbind; [apply creads_ask|intros _]. exact Hnext.
    - apply settled_cbind; [apply creads_tell|intros _]. exact Hnext. }
  destruct (str_eqb (strip raw) (u "3")).
  { apply settled_cbind; [apply creads_tell|intros _].
    apply settled_cbind; [apply creads_ask|intros _]. exact Hnext. }
  destruct (str_eqb (strip raw) (u "4")).
  { apply settled_cbind; [apply creads_tell|intros _]. apply settled_done. }
  apply settled_cbind; [apply creads_tell|intros _]. exact Hnext.
Qed.

End MenuFacts.

(* ===================================================================== *)
(** * Theorems: the capture summary and the menu *)
(* ===================================================================== *)

Module MenuTheorems.
Import Text PyFloat Json Collector StoreFacts EncodingFacts Frames.
Import StoreTheorems Capture CaptureFacts CaptureTheorems MenuFacts.
Local Open Scope capture_scope.

(** X22.  [show_capture_summary] on a file of records that can be listed:
    it returns, and prints the title, the two lengths, then, for each list
    that is not empty, its heading and one line per record, in the order of
    the file, with the description and the status: captured when the
    record has a [captured] field that counts as true, pending otherwise
    (also when the field is missing).  It changes nothing but the
    console. *)
Theorem show_capture_summary_lists_status
  (w : world) (c : value) (pools no_pools : list value) :
  file (machine w) = Some (Document c) ->
  readable (machine w) = true ->
  records k_pools c = Some pools ->
  records k_no_pools c = Some no_pools ->
  Forall (listed (int_max_str_digits (machine w))) (pools ++ no_pools) ->
  let r := show_capture_summary w in
  fst r = Ok tt /\
  printed (snd r)
  = printed w
      ++ [CaptureSummaryTitle; ConfiguredPools (List.length pools);
          ConfiguredAreas (List.length no_pools)]
      ++ items_section PoolsTitle pools
      ++ items_section AreasTitle no_pools /\
  machine (snd r) = machine w /\
  requests (snd r) = requests w /\
  moved (snd r) = moved w.
Proof.
  intros Hf Hr Hp Hn Hall. cbv zeta.
  rewrite (show_capture_summary_run w Hf Hr Hp Hn Hall).
  now repeat split.
Qed.

Lemma show_capture_summary_lists_status_witness :
  printed (snd (show_capture_summary
                  (offline (boot_with (Document captured_store)))))
  = [CaptureSummaryTitle; ConfiguredPools 1; ConfiguredAreas 0;
     PoolsTitle; Item (VStr (u "Casa1")) true].
Proof.
  destruct (@show_capture_summary_lists_status
              (offline (boot_with (Document captured_store)))
              captured_store
              [VDict [(u "lat", VFloat veracruz_lat);
                      (u "lon", VFloat veracruz_lon);
                      (u "description", VStr (u "Casa1"));
                      (u "captured", VBool true)]]
              [] eq_refl eq_refl eq_refl eq_refl)
    as (_ & H & _).
  - repeat constructor.
    + eexists. reflexivity.
    + exists (VStr (u "Casa1")). repeat split.
  - rewrite H. reflexivity.
Defined.

(** The same summary before the capture: the record is pending. *)
Example show_capture_summary_pending :
  printed (snd (show_capture_summary (offline one_pool_saved)))
  = [CaptureSummaryTitle; ConfiguredPools 1; ConfiguredAreas 0;
     PoolsTitle; Item (VStr (u "Casa1")) false].
Proof. vm_compute. reflexivity. Qed.

(** X23.  [main] always ends on a finite input: every turn of the menu
    reads a line, so with more turns than there are lines of input [main]
    does not run out of turns (it returns after option 4, or an exception
    leaves it, [EOFError] at the latest), and its outcome and final state
    are the same for any larger number of turns. *)
Theorem main_ends (fuel fuel' : nat) (w : world) :
  List.length (stdin (machine w)) < fuel -> fuel <= fuel' ->
  fst (main fuel w) <> Ok None /\ main fuel' w = main fuel w.
Proof.
  intros Hlen Hle. unfold main.
  apply (@settled_cbind unit fuel MassImageCapture
           (fun _ => menu_loop fuel) (fun _ => menu_loop fuel')).
  - apply creads_keeps. intros w0. unfold MassImageCapture.
    now destruct (makedirs w0).
  - intros _. now apply menu_loop_settled.
  - exact Hlen.
Qed.

Lemma main_ends_witness :
  fst (main 4 (offline (with_stdin [u "3"; u ""; u " 4 "] boot)))
  = Ok (Some tt) /\
  main 10 (offline (with_stdin [u "3"; u ""; u " 4 "] boot))
  = main 4 (offline (with_stdin [u "3"; u ""; u " 4 "] boot)).
Proof.
  split; [vm_compute; reflexivity|].
  apply (@main_ends 4 10 (offline (with_stdin [u "3"; u ""; u " 4 "] boot))).
  - vm_compute. lia.
  - lia.
Defined.

End MenuTheorems.

(* ===================================================================== *)
(** * Theorems: one image *)
(* ===================================================================== *)

Module ImageTheorems.
Import Text PyFloat Json Collector StoreFacts Frames.
Import StoreTheorems Capture CaptureFacts CaptureTheorems.
Local Open Scope capture_scope.

(** One pass through [capture_single_image], whatever the values. *)
Lemma capture_single_image_outcome lat lon description w :
  forallb (Session.shown (int_max_str_digits (machine w))) [lat; lon]
  = true ->
  exists ls,
    capture_single_image lat lon description w
    = (if forallb written [lat; lon] then
         Ok match fetch w (requests w) with
            | Captured => written description
            | _ => false
            end
       else Err UnicodeEncodeError,
       with_printed (printed w ++ ls)
         (with_requests (Datatypes.S (requests w)) w)).
Proof.
  intros Hs.
  assert (Hrep : forall texts l ls,
             report [lat; lon] texts l
               (with_printed (printed w ++ ls)
                  (with_requests (Datatypes.S (requests w)) w))
             = if forallb written ([lat; lon] ++ texts)
               then (Ok tt,
                     with_printed (printed w ++ ls ++ [l])
                       (with_requests (Datatypes.S (requests w)) w))
               else (Err UnicodeEncodeError,
                     with_printed (printed w ++ ls)
                       (with_requests (Datatypes.S (requests w)) w))).
  { intros texts l ls. unfold report.
    erewrite cbind_ok by (apply convert_ok; exact Hs).
    destruct (forallb written ([lat; lon] ++ texts)); [|reflexivity].
    unfold tell. cbn [printed with_printed]. now rewrite <- app_assoc. }
  assert (Hnil : with_requests (Datatypes.S (requests w)) w
                 = with_printed (printed w ++ [])
                     (with_requests (Datatypes.S (requests w)) w)).
  { rewrite app_nil_r. now destruct w. }
  assert (Hhandler :
            forall ls,
              exists ls',
                (report [lat; lon] [] (CaptureFailed lat lon);; cret false)
                  (with_printed (printed w ++ ls)
                     (with_requests (Datatypes.S (requests w)) w))
                = (if forallb written [lat; lon] then Ok false
                   else Err UnicodeEncodeError,
                   with_printed (printed w ++ ls')
                     (with_requests (Datatypes.S (requests w)) w))).
  { intros ls. unfold cbind. rewrite Hrep, app_nil_r.
    destruct (forallb written [lat; lon]); eexists; reflexivity. }
  unfold capture_single_image, ctry.
  erewrite cbind_ok by now apply convert_ok.
  unfold cbind at 1, request. rewrite Hnil.
  destruct (fetch w (requests w)) as [|code|].
  - unfold cbind at 1. rewrite Hrep.
    change ([lat; lon] ++ [description]) with [lat; lon; description].
    destruct (forallb written [lat; lon]) eqn:E.
    + assert (Hd : forallb written [lat; lon; description]
                   = written description).
      { cbn [forallb] in *. apply andb_prop in E as [E1 E2].
        apply andb_prop in E2 as [E2 _].
        now rewrite E1, E2, andb_true_r. }
      rewrite Hd. destruct (written description).
      * eexists. reflexivity.
      * destruct (Hhandler []) as [ls' H]. rewrite H. exists ls'. reflexivity.
    + assert (Hd : forallb written [lat; lon; description] = false).
      { cbn [forallb] in *. destruct (written lat); [|reflexivity].
        destruct (written lon); [discriminate|reflexivity]. }
      rewrite Hd. destruct (Hhandler []) as [ls' H]. rewrite H.
      exists ls'. reflexivity.
  - unfold cbind at 1. rewrite Hrep, app_nil_r.
    destruct (forallb written [lat; lon]) eqn:E.
    + eexists. reflexivity.
    + destruct (Hhandler []) as [ls' H]. rewrite H. exists ls'. reflexivity.
  - destruct (Hhandler []) as [ls' H]. rewrite H.
    exists ls'. now destruct (forallb written [lat; lon]).
Qed.

(** X24.  [capture_single_image] when the two coordinates can be turned
    into text: it makes exactly one request and never touches the machine;
    when the coordinates can also be written to the console it returns,
    with [True] exactly when the image was fetched and saved and the file
    name could be printed, so an image saved under a name that cannot be
    printed is reported as a failure; when a coordinate cannot be written,
    the [print] of the handler raises in its turn and [UnicodeEncodeError]
    leaves the method, after the request. *)
Theorem capture_single_image_one_request
  (lat lon description : value) (w : world) :
  forallb (Session.shown (int_max_str_digits (machine w))) [lat; lon]
  = true ->
  let r := capture_single_image lat lon description w in
  requests (snd r) = Datatypes.S (requests w) /\
  machine (snd r) = machine w /\
  moved (snd r) = moved w /\
  fst r =
    if forallb written [lat; lon] then
      Ok match fetch w (requests w) with
         | Captured => written description
         | _ => false
         end
    else Err UnicodeEncodeError.
Proof.
  intros Hs. cbv zeta.
  destruct (capture_single_image_outcome lat lon description w Hs)
    as [ls H].
  rewrite H. now repeat split.
Qed.

(** A description with a lone surrogate, as [json.load] builds from an
    escape. *)
Definition unprintable : value := VStr [55296%N].

Lemma capture_single_image_one_request_witness :
  fst (capture_single_image (VFloat veracruz_lat) (VFloat veracruz_lon)
         unprintable (unmovable boot))
  = Ok false /\
  requests (snd (capture_single_image (VFloat veracruz_lat)
                   (VFloat veracruz_lon) unprintable (unmovable boot)))
  = 1.
Proof.
  destruct (@capture_single_image_one_request
              (VFloat veracruz_lat) (VFloat veracruz_lon) unprintable
              (unmovable boot) eq_refl)
    as (Hr & _ & _ & H).
  split; [exact H|exact Hr].
Defined.

End ImageTheorems.
